(** * bullmq-nodejs: monitoring engine and recurring-job registry

    A shallow embedding of
    - [src/monitor/setup.js]   (snapshot store, event ingestor, performance
      aggregator, alert engine, query facade),
    - [src/routes/monitor-routes.js] (the routes on them), and
    - [src/scheduler/setup.js] ([removeRecurringJob], [getRecurringJobs]),
    followed by the properties established about them.

    Conventions of the embedding.
    - The module-level [monitoringData] singleton is threaded explicitly:
      every function that mutates it takes the old value and returns the
      new one.
    - [new Date().toISOString()] is a parameter [now] of the function that
      calls it.  Timestamps are kept as epoch milliseconds (the ISO string
      is a one-to-one rendering of them, and the only arithmetic done on
      them, [new Date(b) - new Date(a)], is the difference of the epochs).
    - JavaScript numbers are rationals extended with [NaN] and the two
      infinities.  Quotients and products are rounded to the nearest
      double (IEEE 754 binary64, ties to even), as the code computes them;
      sums and differences are kept exact, which is what the code computes
      on integers below 2^53 in magnitude, as the counters and timestamps
      of the program are.  The sign of zero is not modelled.
    - A JavaScript object used as a dictionary is an insertion-ordered
      association list (the order [Object.values] / [Object.entries]
      enumerate non-numeric keys in).  A lookup finds the properties of
      the object itself; the members every object inherits from
      [Object.prototype] are accounted for where the key comes from a
      request (the routes [queue_route] and [performance_route]). *)

From Stdlib Require Import ZArith QArith Qcanon String List Bool Lia Lqa.
From Stdlib Require Import Sorted Permutation.
From Stdlib Require Import Qround Qabs Qpower.
Import ListNotations.
Local Open Scope string_scope.
Local Open Scope list_scope.

(* ===================================================================== *)
(** ** JavaScript numbers *)
(* ===================================================================== *)

Module JsNumber.

(** The result of reading a numeric property: [undefined] when the
    property is absent, otherwise a number. *)
Inductive jsnum : Type :=
| Undef
| NaN
| Inf (negative : bool)
| Num (q : Qc).

Definition Zc (z : Z) : Qc := Q2Qc (inject_Z z).
Definition ofZ (z : Z) : jsnum := Num (Zc z).
Definition ofNat (n : nat) : jsnum := ofZ (Z.of_nat n).

Definition Qcltb (x y : Qc) : bool := negb (Qle_bool y x).
Definition Qceqb (x y : Qc) : bool := Qeq_bool x y.

(** [ToNumber]: [undefined] converts to [NaN]. *)
Definition toNumber (v : jsnum) : jsnum :=
  match v with
  | Undef => NaN
  | _ => v
  end.

(** [a + b] on numbers (and [undefined]); the sum is exact. *)
Definition add (a b : jsnum) : jsnum :=
  match toNumber a, toNumber b with
  | Num x, Num y => Num (x + y)%Qc
  | Num _, Inf s => Inf s
  | Inf s, Num _ => Inf s
  | Inf s, Inf s' => if Bool.eqb s s' then Inf s else NaN
  | _, _ => NaN
  end.

Definition neg (a : jsnum) : jsnum :=
  match toNumber a with
  | Num x => Num (- x)%Qc
  | Inf s => Inf (negb s)
  | _ => NaN
  end.

(** [a - b]. *)
Definition sub (a b : jsnum) : jsnum := add a (neg b).

(** *** Rounding to the nearest double

    [pow2 e] is [2^e]; [ilog2 q] is the integer [k] with
    [2^k <= q < 2^(k+1)], for [q > 0]; [rne x] is the integer nearest to
    [x], the even one of the two when [x] lies half-way. *)
Definition pow2 (e : Z) : Q := Qpower 2 e.

Definition ilog2 (q : Q) : Z :=
  if Qle_bool 1 q then Z.log2 (Qfloor q)
  else (- Z.log2_up (Qceiling (/ q)))%Z.

Definition rne (x : Q) : Z :=
  let f := Qfloor x in
  match Qcompare (x - inject_Z f) (1 # 2) with
  | Lt => f
  | Gt => (f + 1)%Z
  | Eq => if Z.even f then f else (f + 1)%Z
  end.

(** The double nearest to [q > 0], overflow apart: a 53-bit significand
    times [2^e], with [e] no smaller than [-1074] (the subnormals). *)
Definition nearestPos (q : Q) : Q :=
  let e := Z.max (ilog2 q - 52) (-1074) in
  inject_Z (rne (q / pow2 e)) * pow2 e.

Definition nearest (q : Qc) : Qc :=
  match Qcompare q 0 with
  | Eq => 0%Qc
  | Gt => Q2Qc (nearestPos q)
  | Lt => (- Q2Qc (nearestPos (- q)))%Qc
  end.

(** The double a real result [q] is stored as: the nearest one, or an
    infinity when that is [2^1024] or beyond. *)
Definition roundDouble (q : Qc) : jsnum :=
  let r := nearest q in
  if Qle_bool (pow2 1024) (Qabs r) then Inf (Qcltb r 0) else Num r.

(** [a / b]: [0/0] is [NaN], [x/0] is an infinity, and every other
    quotient is rounded to the nearest double. *)
Definition div (a b : jsnum) : jsnum :=
  match toNumber a, toNumber b with
  | Num x, Num y =>
      if Qceqb y 0 then (if Qceqb x 0 then NaN else Inf (Qcltb x 0))
      else roundDouble (x / y)%Qc
  | Num _, Inf _ => Num 0%Qc
  | Inf s, Num y => Inf (xorb s (Qcltb y 0))
  | _, _ => NaN
  end.

(** [a > b]: every comparison with [NaN] is false. *)
Definition gt (a b : jsnum) : bool :=
  match toNumber a, toNumber b with
  | Num x, Num y => Qcltb y x
  | Num _, Inf s => s
  | Inf s, Num _ => negb s
  | Inf s, Inf s' => negb s && s'
  | _, _ => false
  end.

(** Truthiness of a numeric property: [undefined], [NaN] and [0] are
    falsy. *)
Definition truthy (v : jsnum) : bool :=
  match v with
  | Undef | NaN => false
  | Inf _ => true
  | Num q => negb (Qceqb q 0)
  end.

(** [a || b]. *)
Definition or_ (a b : jsnum) : jsnum := if truthy a then a else b.

(** The literal [0.2]: the double nearest to one fifth. *)
Definition lit_0_2 : jsnum := roundDouble (Zc 2 / Zc 10)%Qc.

(** [x++] / [x += 1] on a property. *)
Definition incr (a : jsnum) : jsnum := add a (Num 1%Qc).

End JsNumber.
Import JsNumber.

(* ===================================================================== *)
(** ** JavaScript arrays and objects *)
(* ===================================================================== *)

Module JsArray.

(** Resolution of a relative index of [Array.prototype.slice]. *)
Definition rel_index (len : nat) (i : Z) : nat :=
  if (i <? 0)%Z then Z.to_nat (Z.max (Z.of_nat len + i) 0)
  else Z.to_nat (Z.min i (Z.of_nat len)).

(** [toIntegerOrInfinity] of an integer-or-[NaN] argument ([None] is
    [NaN], which converts to 0). *)
Definition toInteger (i : option Z) : Z :=
  match i with
  | Some z => z
  | None => 0%Z
  end.

(** [l.slice(start, end)]; [end_ = None] is the one-argument form. *)
Definition slice {A : Type} (start : Z) (end_ : option Z) (l : list A) : list A :=
  let len := length l in
  let k := rel_index len start in
  let final := match end_ with
               | None => len
               | Some e => rel_index len e
               end in
  firstn (final - k) (skipn k l).

(** [l.sort(cmp)]: the sort is stable, so its result is the one computed
    by this insertion sort ([x] precedes everything in [l] originally and
    is therefore placed before the elements it does not compare greater
    than). *)
Fixpoint insert {A : Type} (cmp : A -> A -> Z) (x : A) (l : list A) : list A :=
  match l with
  | [] => [x]
  | y :: r => if (cmp x y <=? 0)%Z then x :: y :: r else y :: insert cmp x r
  end.

Fixpoint sort {A : Type} (cmp : A -> A -> Z) (l : list A) : list A :=
  match l with
  | [] => []
  | x :: r => insert cmp x (sort cmp r)
  end.

End JsArray.

Module JsObject.

Definition JsObj (V : Type) : Type := list (string * V).

(** [o[k]]; [None] is [undefined]. *)
Fixpoint get {V : Type} (k : string) (o : JsObj V) : option V :=
  match o with
  | [] => None
  | (k', v) :: r => if String.eqb k k' then Some v else get k r
  end.

(** [o[k] = v]: an existing key keeps its place, a new one goes last. *)
Fixpoint set {V : Type} (k : string) (v : V) (o : JsObj V) : JsObj V :=
  match o with
  | [] => [(k, v)]
  | (k', v') :: r =>
      if String.eqb k k' then (k', v) :: r else (k', v') :: set k v r
  end.

Definition keys {V : Type} (o : JsObj V) : list string := map fst o.
Definition values {V : Type} (o : JsObj V) : list V := map snd o.
Definition entries {V : Type} (o : JsObj V) : list (string * V) := o.

End JsObject.
Import JsObject.

(* ===================================================================== *)
(** ** src/monitor/setup.js: data model *)
(* ===================================================================== *)

(** The text of an [Error].  Messages built from a template literal keep
    the interpolated number instead of its decimal rendering. *)
Inductive Message : Type :=
| Text (s : string)
| FailedJobs (failed : jsnum)
    (* `High failure rate: ${status.failed} failed jobs` *)
| WaitingJobs (waiting : jsnum)
    (* `Queue backlog: ${status.waiting} waiting jobs` *)
| SlowAverage (avg : jsnum)
    (* `Slow processing: ${Math.round(metrics.avgProcessingTime)}ms average` *)
| FailurePercent (ratio : jsnum).
    (* `High failure rate: ${Math.round(ratio * 100)}%` *)

Record JsError : Type := mkError { message : Message }.

(** The fields of a backend job this module reads. *)
Record Job : Type := mkJob {
  job_id : option string;
  job_name : option string;
  job_processedOn : jsnum;
  job_timestamp : jsnum
}.

(** [eventData] of [addMonitoringEvent]. *)
Record QueueEvent : Type := mkEvent {
  ev_queueName : string;
  ev_event : string;
  ev_timestamp : Z;
  ev_jobId : option string;
  ev_jobName : option string;
  ev_error : option Message
}.

(** An entry of [monitoringData.queues].  Every property may be absent:
    [updateQueueStatus] writes the counts, [addMonitoringEvent] the
    event log. *)
Record QueueSnapshot : Type := mkSnapshot {
  qs_waiting : jsnum;
  qs_active : jsnum;
  qs_completed : jsnum;
  qs_failed : jsnum;
  qs_delayed : jsnum;
  qs_paused : option bool;
  qs_lastUpdated : option Z;
  qs_events : option (list QueueEvent)
}.

(** The object literal [{}]. *)
Definition emptySnapshot : QueueSnapshot :=
  mkSnapshot Undef Undef Undef Undef Undef None None None.

Definition set_events (evs : list QueueEvent) (s : QueueSnapshot) : QueueSnapshot :=
  mkSnapshot (qs_waiting s) (qs_active s) (qs_completed s) (qs_failed s)
             (qs_delayed s) (qs_paused s) (qs_lastUpdated s) (Some evs).

(** An entry of [monitoringData.performance]: the per-queue metrics
    ([completed], [failed], [avgProcessingTime], [totalProcessingTime],
    [jobCount]) or the [system] entry ([totalJobs], [avgProcessingTime],
    [timestamp]); the properties an entry lacks read [undefined]. *)
Record PerfEntry : Type := mkPerf {
  pm_completed : jsnum;
  pm_failed : jsnum;
  pm_avgProcessingTime : jsnum;
  pm_totalProcessingTime : jsnum;
  pm_jobCount : jsnum;
  pm_totalJobs : jsnum;
  pm_timestamp : option Z
}.

Definition newMetrics : PerfEntry :=
  mkPerf (Num 0%Qc) (Num 0%Qc) (Num 0%Qc) (Num 0%Qc) (Num 0%Qc) Undef None.

Definition systemEntry (totalJobs avgProcessingTime : jsnum) (now : Z) : PerfEntry :=
  mkPerf Undef Undef avgProcessingTime Undef Undef totalJobs (Some now).

Definition set_completed (v : jsnum) (m : PerfEntry) : PerfEntry :=
  mkPerf v (pm_failed m) (pm_avgProcessingTime m) (pm_totalProcessingTime m)
         (pm_jobCount m) (pm_totalJobs m) (pm_timestamp m).
Definition set_failed (v : jsnum) (m : PerfEntry) : PerfEntry :=
  mkPerf (pm_completed m) v (pm_avgProcessingTime m) (pm_totalProcessingTime m)
         (pm_jobCount m) (pm_totalJobs m) (pm_timestamp m).
Definition set_avgProcessingTime (v : jsnum) (m : PerfEntry) : PerfEntry :=
  mkPerf (pm_completed m) (pm_failed m) v (pm_totalProcessingTime m)
         (pm_jobCount m) (pm_totalJobs m) (pm_timestamp m).
Definition set_totalProcessingTime (v : jsnum) (m : PerfEntry) : PerfEntry :=
  mkPerf (pm_completed m) (pm_failed m) (pm_avgProcessingTime m) v
         (pm_jobCount m) (pm_totalJobs m) (pm_timestamp m).
Definition set_jobCount (v : jsnum) (m : PerfEntry) : PerfEntry :=
  mkPerf (pm_completed m) (pm_failed m) (pm_avgProcessingTime m)
         (pm_totalProcessingTime m) v (pm_totalJobs m) (pm_timestamp m).

Record Alert : Type := mkAlert {
  al_queueName : string;
  al_event : string;
  al_error : option Message;
  al_timestamp : Z;
  al_severity : string
}.

Definition set_severity (sev : string) (a : Alert) : Alert :=
  mkAlert (al_queueName a) (al_event a) (al_error a) (al_timestamp a) sev.

(** [monitoringData]; its [workers] property is never read or written
    and is left out. *)
Record MonitoringData : Type := mkData {
  queues : JsObj QueueSnapshot;
  performance : JsObj PerfEntry;
  alerts : list Alert
}.

Definition set_queues (q : JsObj QueueSnapshot) (md : MonitoringData) : MonitoringData :=
  mkData q (performance md) (alerts md).
Definition set_performance (p : JsObj PerfEntry) (md : MonitoringData) : MonitoringData :=
  mkData (queues md) p (alerts md).
Definition set_alerts (a : list Alert) (md : MonitoringData) : MonitoringData :=
  mkData (queues md) (performance md) a.

(** The initial value of [monitoringData]. *)
Definition monitoringData0 : MonitoringData := mkData [] [] [].

(** [queueNames] of [startQueueMonitoring]. *)
Definition queueNames : list string :=
  [ "email-queue"; "image-processing-queue"; "priority-queue";
    "delayed-queue"; "recurring-queue"; "dependency-queue";
    "rate-limited-queue" ].

(** What the six backend queries of [updateQueueStatus] return: the
    lengths of the five job lists and the paused flag. *)
Record BackendCounts : Type := mkCounts {
  bc_waiting : nat;
  bc_active : nat;
  bc_completed : nat;
  bc_failed : nat;
  bc_delayed : nat;
  bc_paused : bool
}.

(* ===================================================================== *)
(** ** src/monitor/setup.js: operations *)
(* ===================================================================== *)

(** [updateQueueStatus]: on success the entry of the queue is replaced by
    a fresh object (which has no [events] property); a rejected backend
    query ([None]) is caught and logged. *)
Definition updateQueueStatus (queueName : string) (r : option BackendCounts)
    (now : Z) (md : MonitoringData) : MonitoringData :=
  match r with
  | Some c =>
      set_queues
        (set queueName
           (mkSnapshot (ofNat (bc_waiting c)) (ofNat (bc_active c))
                       (ofNat (bc_completed c)) (ofNat (bc_failed c))
                       (ofNat (bc_delayed c)) (Some (bc_paused c))
                       (Some now) None)
           (queues md))
        md
  | None => md
  end.

(** The object [eventData] built by [addMonitoringEvent]. *)
Definition eventData (queueName event : string) (job : option Job)
    (error : option JsError) (now : Z) : QueueEvent :=
  mkEvent queueName event now
          (match job with Some j => job_id j | None => None end)
          (match job with Some j => job_name j | None => None end)
          (option_map message error).

(** [monitoringData.queues[queueName]?.events || []] *)
Definition queueEvents (queueName : string) (md : MonitoringData) : list QueueEvent :=
  match get queueName (queues md) with
  | Some s => match qs_events s with Some evs => evs | None => [] end
  | None => []
  end.

Definition addMonitoringEvent (queueName event : string) (job : option Job)
    (error : option JsError) (now : Z) (md : MonitoringData) : MonitoringData :=
  (* if (!monitoringData.queues[queueName]) monitoringData.queues[queueName] = {} *)
  let snapshot :=
    match get queueName (queues md) with
    | Some s => s
    | None => emptySnapshot
    end in
  (* if (!....events) ....events = [] *)
  let events0 :=
    match qs_events snapshot with
    | Some evs => evs
    | None => []
    end in
  (* ....events.push(eventData) *)
  let events1 := events0 ++ [eventData queueName event job error now] in
  (* Keep only last 100 events per queue *)
  let events2 :=
    if (100 <? length events1)%nat then JsArray.slice (-100)%Z None events1
    else events1 in
  set_queues (set queueName (set_events events2 snapshot) (queues md)) md.

Definition updatePerformanceMetrics (queueName event : string) (job : Job)
    (md : MonitoringData) : MonitoringData :=
  (* if (!monitoringData.performance[queueName]) ... = { completed: 0, ... } *)
  let metrics :=
    match get queueName (performance md) with
    | Some m => m
    | None => newMetrics
    end in
  let metrics' :=
    if String.eqb event "completed" then
      let m1 := set_completed (incr (pm_completed metrics)) metrics in
      if truthy (job_processedOn job) && truthy (job_timestamp job) then
        let processingTime := sub (job_processedOn job) (job_timestamp job) in
        let m2 := set_totalProcessingTime
                    (add (pm_totalProcessingTime m1) processingTime) m1 in
        let m3 := set_jobCount (incr (pm_jobCount m2)) m2 in
        set_avgProcessingTime
          (div (pm_totalProcessingTime m3) (pm_jobCount m3)) m3
      else m1
    else if String.eqb event "failed" then
      set_failed (incr (pm_failed metrics)) metrics
    else metrics in
  set_performance (set queueName metrics' (performance md)) md.

(** The body of the timer of [startPerformanceMonitoring] (every 60 s). *)
Definition startPerformanceMonitoring_tick (now : Z) (md : MonitoringData)
    : MonitoringData :=
  let totalJobs :=
    fold_left (fun sum metrics => add (add sum (pm_completed metrics)) (pm_failed metrics))
              (values (performance md)) (Num 0%Qc) in
  let avgProcessingTime :=
    or_ (div (fold_left (fun sum metrics => add sum (pm_avgProcessingTime metrics))
                        (values (performance md)) (Num 0%Qc))
             (ofNat (length (keys (performance md)))))
        (Num 0%Qc) in
  set_performance
    (set "system" (systemEntry totalJobs avgProcessingTime now) (performance md))
    md.

(** The object [alert] of [checkForAlerts], once its severity is set. *)
Definition alertFor (queueName event : string) (error : option JsError)
    (now : Z) : Alert :=
  let alert := mkAlert queueName event (option_map message error) now "warning" in
  (* Determine severity based on event type *)
  if String.eqb event "failed"
     && (match error with Some _ => true | None => false end) then
    set_severity "error" alert
  else if String.eqb event "stalled" then
    set_severity "warning" alert
  else if String.eqb event "error" then
    set_severity "critical" alert
  else alert.

Definition checkForAlerts (queueName event : string) (error : option JsError)
    (now : Z) (md : MonitoringData) : MonitoringData :=
  let alerts1 := alerts md ++ [alertFor queueName event error now] in
  (* Keep only last 50 alerts *)
  let alerts2 :=
    if (50 <? length alerts1)%nat then JsArray.slice (-50)%Z None alerts1
    else alerts1 in
  set_alerts alerts2 md.

Definition checkQueueHealth (now : Z) (md : MonitoringData) : MonitoringData :=
  fold_left
    (fun md (entry : string * QueueSnapshot) =>
       let (queueName, status) := entry in
       let md :=
         if gt (qs_failed status) (ofZ 10%Z) then
           checkForAlerts queueName "high-failure-rate"
             (Some (mkError (FailedJobs (qs_failed status)))) now md
         else md in
       let md :=
         if gt (qs_waiting status) (ofZ 100%Z) then
           checkForAlerts queueName "queue-backlog"
             (Some (mkError (WaitingJobs (qs_waiting status)))) now md
         else md in
       if (match qs_paused status with Some b => b | None => false end) then
         checkForAlerts queueName "queue-paused"
           (Some (mkError (Text "Queue is paused"))) now md
       else md)
    (entries (queues md)) md.

Definition checkPerformanceAlerts (now : Z) (md : MonitoringData) : MonitoringData :=
  fold_left
    (fun md (entry : string * PerfEntry) =>
       let (queueName, metrics) := entry in
       let md :=
         if gt (pm_avgProcessingTime metrics) (ofZ 30000%Z) then
           checkForAlerts queueName "slow-processing"
             (Some (mkError (SlowAverage (pm_avgProcessingTime metrics)))) now md
         else md in
       let totalJobs := add (pm_completed metrics) (pm_failed metrics) in
       if gt totalJobs (ofZ 0%Z)
          && gt (div (pm_failed metrics) totalJobs) lit_0_2 then
         checkForAlerts queueName "high-failure-rate"
           (Some (mkError (FailurePercent (div (pm_failed metrics) totalJobs)))) now md
       else md)
    (entries (performance md)) md.

(** The body of the timer of [startAlertSystem] (every 10 s). *)
Definition startAlertSystem_tick (now : Z) (md : MonitoringData) : MonitoringData :=
  checkPerformanceAlerts now (checkQueueHealth now md).

(** [monitoringData.queues[queueName] || null] for the name of a queue:
    the entry of the store, an object and so truthy.  (Only for a name
    that every object inherits, such as "constructor", does the lookup
    find something else; the routes, whose names come from requests,
    account for it.) *)
Definition getQueueStatus (queueName : string) (md : MonitoringData)
    : option QueueSnapshot :=
  get queueName (queues md).

Definition getPerformanceMetrics (queueName : string) (md : MonitoringData)
    : option PerfEntry :=
  get queueName (performance md).

(** [getAlerts(severity)]; the empty string is falsy like [null]. *)
Definition getAlerts (severity : option string) (md : MonitoringData) : list Alert :=
  match severity with
  | Some s =>
      if String.eqb s "" then alerts md
      else filter (fun alert => String.eqb (al_severity alert) s) (alerts md)
  | None => alerts md
  end.

Definition clearAlerts (md : MonitoringData) : MonitoringData := set_alerts [] md.

Record SystemHealth : Type := mkHealth {
  sh_status : string;
  sh_queues : nat;
  sh_totalWaiting : jsnum;
  sh_totalActive : jsnum;
  sh_totalFailed : jsnum;
  sh_criticalAlerts : nat;
  sh_timestamp : Z
}.

Definition getSystemHealth (now : Z) (md : MonitoringData) : SystemHealth :=
  let queues_ := keys (queues md) in
  let totalWaiting :=
    fold_left (fun sum status => add sum (qs_waiting status))
              (values (queues md)) (Num 0%Qc) in
  let totalActive :=
    fold_left (fun sum status => add sum (qs_active status))
              (values (queues md)) (Num 0%Qc) in
  let totalFailed :=
    fold_left (fun sum status => add sum (qs_failed status))
              (values (queues md)) (Num 0%Qc) in
  let criticalAlerts :=
    length (filter (fun alert => String.eqb (al_severity alert) "critical")
                   (alerts md)) in
  mkHealth
    (if (0 <? criticalAlerts)%nat then "critical"
     else if gt totalFailed (ofZ 10%Z) then "warning"
     else "healthy")
    (length queues_) totalWaiting totalActive totalFailed criticalAlerts now.

(** *** The listeners of [setupQueueMonitoring] and the timers

    One constructor per callback the event loop can run; [run] executes a
    sequence of them on [monitoringData].  The calls made by one callback
    read the clock within the same millisecond. *)
Inductive Op : Type :=
| OnWaiting (queueName : string) (job : Job) (now : Z)
| OnActive (queueName : string) (job : Job) (now : Z)
| OnCompleted (queueName : string) (job : Job) (now : Z)
| OnFailed (queueName : string) (job : Job) (err : option JsError) (now : Z)
| OnStalled (queueName : string) (job : Job) (now : Z)
| OnError (queueName : string) (err : option JsError) (now : Z)
| Refresh (queueName : string) (r : option BackendCounts) (now : Z)
| PerformanceTick (now : Z)
| AlertTick (now : Z)
| ClearAlerts.

Definition step (md : MonitoringData) (op : Op) : MonitoringData :=
  match op with
  | OnWaiting queueName job now =>
      addMonitoringEvent queueName "waiting" (Some job) None now md
  | OnActive queueName job now =>
      addMonitoringEvent queueName "active" (Some job) None now md
  | OnCompleted queueName job now =>
      updatePerformanceMetrics queueName "completed" job
        (addMonitoringEvent queueName "completed" (Some job) None now md)
  | OnFailed queueName job err now =>
      checkForAlerts queueName "failed" err now
        (updatePerformanceMetrics queueName "failed" job
           (addMonitoringEvent queueName "failed" (Some job) err now md))
  | OnStalled queueName job now =>
      checkForAlerts queueName "stalled" None now
        (addMonitoringEvent queueName "stalled" (Some job) None now md)
  | OnError queueName err now =>
      checkForAlerts queueName "error" err now
        (addMonitoringEvent queueName "error" None err now md)
  | Refresh queueName r now => updateQueueStatus queueName r now md
  | PerformanceTick now => startPerformanceMonitoring_tick now md
  | AlertTick now => startAlertSystem_tick now md
  | ClearAlerts => clearAlerts md
  end.

Definition run (ops : list Op) (md : MonitoringData) : MonitoringData :=
  fold_left step ops md.

(* ===================================================================== *)
(** ** src/routes/monitor-routes.js: [router.get('/events')] *)
(* ===================================================================== *)

(** [new Date(b.timestamp) - new Date(a.timestamp)] *)
Definition byTimestampDesc (a b : QueueEvent) : Z :=
  (ev_timestamp b - ev_timestamp a)%Z.

Definition set_queueName (name : string) (e : QueueEvent) : QueueEvent :=
  mkEvent name (ev_event e) (ev_timestamp e) (ev_jobId e) (ev_jobName e)
          (ev_error e).

(** [allEvents] after the [forEach] over [Object.entries(queues)]. *)
Definition allEvents (md : MonitoringData) : list QueueEvent :=
  flat_map
    (fun entry : string * QueueSnapshot =>
       let (name, queueData) := entry in
       match qs_events queueData with
       | Some evs => map (set_queueName name) evs
       | None => []
       end)
    (entries (queues md)).

(** The [events] field of the response.  [queueName] is the query
    parameter ([None] when absent; the empty string is falsy too) and
    [limit] is [parseInt(limit)], [None] standing for [NaN]. *)
Definition events_route (queueName : option string) (limit : option Z)
    (md : MonitoringData) : list QueueEvent :=
  match queueName with
  | Some name =>
      if String.eqb name "" then
        JsArray.slice 0 (Some (JsArray.toInteger limit))
          (JsArray.sort byTimestampDesc (allEvents md))
      else
        JsArray.slice (JsArray.toInteger (option_map Z.opp limit)) None
          (queueEvents name md)
  | None =>
      JsArray.slice 0 (Some (JsArray.toInteger limit))
        (JsArray.sort byTimestampDesc (allEvents md))
  end.

(* ===================================================================== *)
(** ** src/scheduler/setup.js: [removeRecurringJob] *)
(* ===================================================================== *)

Module Scheduler.

(** An element of the list [getRepeatableJobs] resolves to. *)
Record RepeatableJob : Type := mkRepeatable {
  rj_name : string;
  rj_key : string;
  rj_pattern : string;
  rj_next : Z;
  rj_id : option string
}.

(** The backend queue [recurringQueue], as far as this module observes
    it: the repeatable jobs it holds, and whether it is down, so that its
    calls reject (with which error).  A backend that answers the list
    call and then rejects the removal is not of this shape; for
    [removeRecurringJob] over such backends see
    [Registry.removeRecurringJobOn]. *)
Record RecurringQueue : Type := mkQueue {
  repeatables : list RepeatableJob;
  failing : option JsError
}.

Inductive Outcome (A : Type) : Type :=
| Returned (a : A)
| Thrown (e : JsError).
Arguments Returned {A} a.
Arguments Thrown {A} e.

(** [await recurringQueue.getRepeatableJobs()] *)
Definition getRepeatableJobs (q : RecurringQueue) : Outcome (list RepeatableJob) :=
  match failing q with
  | Some e => Thrown e
  | None => Returned (repeatables q)
  end.

(** [await recurringQueue.removeRepeatableByKey(key)]: the backend drops
    the repeatable job stored under [key]. *)
Definition removeRepeatableByKey (key : string) (q : RecurringQueue)
    : Outcome unit * RecurringQueue :=
  match failing q with
  | Some e => (Thrown e, q)
  | None =>
      (Returned tt,
       mkQueue (filter (fun j => negb (String.eqb (rj_key j) key)) (repeatables q))
               (failing q))
  end.

(** [removeRecurringJob(name)]: the result (or the error rethrown by the
    [catch]) and the backend afterwards. *)
Definition removeRecurringJob (name : string) (recurringQueue : RecurringQueue)
    : Outcome bool * RecurringQueue :=
  match getRepeatableJobs recurringQueue with
  | Thrown e => (Thrown e, recurringQueue)
  | Returned repeatableJobs =>
      match find (fun job => String.eqb (rj_name job) name) repeatableJobs with
      | Some job =>
          match removeRepeatableByKey (rj_key job) recurringQueue with
          | (Thrown e, q') => (Thrown e, q')
          | (Returned _, q') => (Returned true, q')
          end
      | None => (Returned false, recurringQueue)
      end
  end.

End Scheduler.

(* ===================================================================== *)
(** ** Vocabulary of the statements *)
(* ===================================================================== *)

(** The last [n] elements of [l], in order (all of [l] when it is
    shorter). *)
Definition lastn {A : Type} (n : nat) (l : list A) : list A :=
  skipn (length l - n) l.

(** Both logs are within their capacities. *)
Definition events_bounded (s : QueueSnapshot) : Prop :=
  match qs_events s with
  | Some evs => (length evs <= 100)%nat
  | None => True
  end.

Definition logs_bounded (md : MonitoringData) : Prop :=
  Forall events_bounded (values (queues md)) /\ (length (alerts md) <= 50)%nat.

(** One call of [addMonitoringEvent] for a given queue: the event kind,
    the job, the error and the clock. *)
Definition EventCall : Type := (string * option Job * option JsError * Z)%type.

Definition ingest (queueName : string) (md : MonitoringData) (c : EventCall)
    : MonitoringData :=
  let '(event, job, error, now) := c in
  addMonitoringEvent queueName event job error now md.

Definition eventOfCall (queueName : string) (c : EventCall) : QueueEvent :=
  let '(event, job, error, now) := c in
  eventData queueName event job error now.

(** One call of [checkForAlerts]. *)
Definition AlertCall : Type := (string * string * option JsError * Z)%type.

Definition raise (md : MonitoringData) (c : AlertCall) : MonitoringData :=
  let '(queueName, event, error, now) := c in
  checkForAlerts queueName event error now md.

Definition alertOfCall (c : AlertCall) : Alert :=
  let '(queueName, event, error, now) := c in
  alertFor queueName event error now.

(** [op] is not a successful refresh of [queueName]. *)
Definition not_refresh_of (queueName : string) (op : Op) : bool :=
  match op with
  | Refresh q (Some _) _ => negb (String.eqb q queueName)
  | _ => true
  end.

(** A snapshot that holds an event log and nothing else. *)
Definition eventsOnly (evs : list QueueEvent) : QueueSnapshot :=
  mkSnapshot Undef Undef Undef Undef Undef None None (Some evs).

(** The sum of a list of integer counts. *)
Definition sumZ (ns : list Z) : Z := fold_right Z.add 0%Z ns.

(** The number of alerts of severity "critical" in the log. *)
Definition criticalCount (md : MonitoringData) : nat :=
  length (filter (fun alert => String.eqb (al_severity alert) "critical") (alerts md)).

(** The entry of a queue in the performance table, or the entry its first
    event would create. *)
Definition metricsOrNew (queueName : string) (md : MonitoringData) : PerfEntry :=
  match getPerformanceMetrics queueName md with
  | Some m => m
  | None => newMetrics
  end.

(** The jobs of the "completed" events of a queue, oldest first. *)
Definition completedJobs (queueName : string) (ops : list Op) : list Job :=
  flat_map
    (fun op =>
       match op with
       | OnCompleted q job _ => if String.eqb q queueName then [job] else []
       | _ => []
       end)
    ops.

(** A job carries a timestamp when the property holds a number. *)
Definition carries (v : jsnum) : bool :=
  match v with
  | Num _ => true
  | _ => false
  end.

Definition carriesBoth (job : Job) : bool :=
  carries (job_processedOn job) && carries (job_timestamp job).

(** The guard of [updatePerformanceMetrics]: both timestamps are truthy,
    that is present and other than zero. *)
Definition timed (job : Job) : bool :=
  truthy (job_processedOn job) && truthy (job_timestamp job).

(** An integer of magnitude below 2^53: a double holds it exactly. *)
Definition safeInteger (q : Qc) : bool :=
  (Qden q =? 1)%positive && (Z.abs (Qnum q) <? 2 ^ 53)%Z.

(** Timestamps of the backend are epoch milliseconds: a property is
    absent, or a safe integer that is not negative. *)
Definition epochOrAbsent (v : jsnum) : bool :=
  match v with
  | Undef => true
  | Num q => safeInteger q && Qle_bool 0 q
  | _ => false
  end.

Definition backendJob (job : Job) : bool :=
  epochOrAbsent (job_processedOn job) && epochOrAbsent (job_timestamp job).

(** [processedOn - timestamp] of a job that carries both. *)
Definition processingTime (job : Job) : Qc :=
  match job_processedOn job, job_timestamp job with
  | Num p, Num t => (p - t)%Qc
  | _, _ => 0%Qc
  end.

Definition sumQc (l : list Qc) : Qc := fold_right Qcplus 0%Qc l.

(** The processing times a queue has recorded: those of the completed
    jobs that pass the guard. *)
Definition recordedTimes (queueName : string) (ops : list Op) : list Qc :=
  map processingTime (filter timed (completedJobs queueName ops)).

(** The jobs are the backend's and the running total stays a safe
    integer, so that every sum and difference of the code is exact. *)
Definition exactTimes (jobs : list Job) : bool :=
  forallb backendJob jobs
  && (fold_right (fun (x : Qc) acc => (Z.abs (Qnum x) + acc)%Z) 0%Z
                 (map processingTime (filter timed jobs)) <? 2 ^ 53)%Z.

(** The arithmetic mean, 0 for the empty list. *)
Definition mean (l : list Qc) : Qc :=
  match l with
  | [] => 0%Qc
  | _ :: _ => (sumQc l / Zc (Z.of_nat (length l)))%Qc
  end.

(** One "failed" event of a queue: the job, the error and the clock. *)
Definition failedOp (queueName : string) (c : Job * option JsError * Z) : Op :=
  let '(job, err, now) := c in OnFailed queueName job err now.

(** What the entry of a queue records about a list of completed jobs:
    the number of those that pass the guard and the quotient of the total
    by that number; and, when the jobs are the backend's, the sum of
    their processing times and the double nearest to their mean. *)
Definition records (m : PerfEntry) (jobs : list Job) : Prop :=
  let times := map processingTime (filter timed jobs) in
  pm_jobCount m = ofNat (length times)
  /\ pm_avgProcessingTime m
     = (if (0 <? length times)%nat
        then div (pm_totalProcessingTime m) (pm_jobCount m)
        else Num 0%Qc)
  /\ (forallb backendJob jobs = true ->
      pm_totalProcessingTime m = Num (sumQc times)
      /\ pm_avgProcessingTime m = roundDouble (mean times)).

(** Newest first: every event is at least as recent as all that follow. *)
Definition newerOrSame (a b : QueueEvent) : Prop :=
  (ev_timestamp b <= ev_timestamp a)%Z.

Definition newestFirst (l : list QueueEvent) : Prop :=
  StronglySorted newerOrSame l.

(** The calls of [checkForAlerts] that the performance pass makes for one
    entry of the table. *)
Definition performanceCalls (now : Z) (entry : string * PerfEntry) : list AlertCall :=
  let (queueName, metrics) := entry in
  let totalJobs := add (pm_completed metrics) (pm_failed metrics) in
  (if gt (pm_avgProcessingTime metrics) (ofZ 30000)
   then [(queueName, "slow-processing",
          Some (mkError (SlowAverage (pm_avgProcessingTime metrics))), now)]
   else [])
  ++ (if gt totalJobs (ofZ 0)
         && gt (div (pm_failed metrics) totalJobs) lit_0_2
      then [(queueName, "high-failure-rate",
             Some (mkError (FailurePercent (div (pm_failed metrics) totalJobs))), now)]
      else []).

(** The shape of a per-queue entry: integer counters, with no more timed
    jobs than completed ones and a zero average before the first timed
    job. *)
Definition queueEntry (m : PerfEntry) : Prop :=
  exists c f n : nat,
    pm_completed m = ofNat c /\ pm_failed m = ofNat f /\ pm_jobCount m = ofNat n
    /\ (n <= c)%nat /\ (n = 0%nat -> pm_avgProcessingTime m = Num 0%Qc).

(** Every entry of the table other than the system entry is a per-queue
    entry. *)
Definition queueEntries (md : MonitoringData) : Prop :=
  forall q m, q <> "system" -> get q (performance md) = Some m -> queueEntry m.

(* ===================================================================== *)
(** ** src/routes/monitor-routes.js: the other routes *)
(* ===================================================================== *)

Module JsMath.

(** [a * b]: [0 * Infinity] is [NaN]; a finite product is rounded to
    the nearest double. *)
Definition mul (a b : jsnum) : jsnum :=
  match toNumber a, toNumber b with
  | Num x, Num y => roundDouble (x * y)%Qc
  | Num x, Inf s =>
      if Qceqb x 0 then NaN else Inf (xorb s (Qcltb x 0))
  | Inf s, Num y =>
      if Qceqb y 0 then NaN else Inf (xorb s (Qcltb y 0))
  | Inf s, Inf s' => Inf (xorb s s')
  | _, _ => NaN
  end.

(** [Math.round(a)]: the integer nearest to [a], halves going up. *)
Definition round (a : jsnum) : jsnum :=
  match toNumber a with
  | Num x => ofZ (Qfloor (x + Zc 1 / Zc 2)%Qc)
  | other => other
  end.

End JsMath.

(** What a route sends: [res.json({ success: true, data })], or
    [res.status(code).json({ success: false, error })]. *)
Inductive Reply (A : Type) : Type :=
| Sent (data : A)
| Refused (code : nat) (error : Message).
Arguments Sent {A} data.
Arguments Refused {A} code error.

(** [getMonitoringData()]: a shallow copy of the store with the time. *)
Definition getMonitoringData (now : Z) (md : MonitoringData) : MonitoringData * Z :=
  (md, now).

(** The names every plain object inherits from [Object.prototype].  The
    stores [queues] and [performance] are plain objects, so reading one of
    these names from a store that has no entry of its own under it yields
    the inherited member, which is truthy and holds no data. *)
Definition inheritedNames : list string :=
  [ "constructor"; "__defineGetter__"; "__defineSetter__"; "hasOwnProperty";
    "__lookupGetter__"; "__lookupSetter__"; "isPrototypeOf";
    "propertyIsEnumerable"; "toString"; "valueOf"; "__proto__";
    "toLocaleString" ].

Definition inherited (name : string) : bool :=
  existsb (String.eqb name) inheritedNames.

(** [router.get('/queues/:queueName')].  The name comes from the request:
    [getQueueStatus(queueName)] is the entry of the store, or the
    inherited member for one of the names above (the answer then carries
    no snapshot), or [null]. *)
Definition queue_route (queueName : string) (now : Z) (md : MonitoringData)
    : Reply (string * option QueueSnapshot * Z) :=
  match getQueueStatus queueName md with
  | Some status => Sent (queueName, Some status, now)
  | None =>
      if inherited queueName then Sent (queueName, None, now)
      else Refused 404 (Text ("Queue '" ++ queueName ++ "' not found")%string)
  end.

(** [router.get('/performance')]: the metrics of one queue (looked up as
    in [queue_route]), or the whole table when the query names none. *)
Definition performance_route (queueName : option string) (now : Z)
    (md : MonitoringData) : Reply (option PerfEntry + JsObj PerfEntry) :=
  let monitoringData := fst (getMonitoringData now md) in
  match queueName with
  | Some name =>
      if String.eqb name "" then Sent (inr (performance monitoringData))
      else
        match getPerformanceMetrics name md with
        | Some metrics => Sent (inl (Some metrics))
        | None =>
            if inherited name then Sent (inl None)
            else
              Refused 404
                (Text ("Performance metrics for queue '" ++ name
                       ++ "' not found")%string)
        end
  | None => Sent (inr (performance monitoringData))
  end.

(** [router.get('/alerts')]: the fields [alerts] and [total] of the
    answer; [limit] is [parseInt(limit)] as in [events_route]. *)
Definition alerts_route (severity : option string) (limit : option Z)
    (md : MonitoringData) : list Alert * nat :=
  let alerts := getAlerts severity md in
  (JsArray.slice (JsArray.toInteger (option_map Z.opp limit)) None alerts,
   length alerts).

(** [router.delete('/alerts')] *)
Definition delete_alerts_route (md : MonitoringData) : MonitoringData :=
  clearAlerts md.

(** The fields [events] and [total] of the answer of
    [router.get('/events')]. *)
Definition events_route_total (queueName : option string) (md : MonitoringData) : nat :=
  match queueName with
  | Some name =>
      if String.eqb name "" then length (allEvents md)
      else length (queueEvents name md)
  | None => length (allEvents md)
  end.

Record StatsAlerts : Type := mkStatsAlerts {
  sa_total : nat;
  sa_critical : nat;
  sa_error : nat;
  sa_warning : nat
}.

Record Stats : Type := mkStats {
  st_status : string;
  st_totalQueues : nat;
  st_totalJobs : jsnum;
  st_avgProcessingTime : jsnum;
  st_criticalAlerts : nat;
  st_queues_active : nat;
  st_queues_paused : nat;
  st_jobs_waiting : jsnum;
  st_jobs_active : jsnum;
  st_jobs_completed : jsnum;
  st_jobs_failed : jsnum;
  st_jobs_delayed : jsnum;
  st_totalCompleted : jsnum;
  st_totalFailed : jsnum;
  st_alerts : StatsAlerts
}.

(** [router.get('/stats')] *)
Definition stats_route (now : Z) (md : MonitoringData) : Stats :=
  let monitoringData := fst (getMonitoringData now md) in
  let systemHealth := getSystemHealth now md in
  let totalQueues := length (keys (queues monitoringData)) in
  let totalJobs :=
    fold_left
      (fun sum status =>
         add (add (add (add (add sum (qs_waiting status)) (qs_active status))
                        (qs_completed status))
                   (qs_failed status))
              (qs_delayed status))
      (values (queues monitoringData)) (Num 0%Qc) in
  let avgProcessingTime :=
    or_ (div (fold_left
                (fun sum metrics =>
                   add sum (or_ (pm_avgProcessingTime metrics) (Num 0%Qc)))
                (values (performance monitoringData)) (Num 0%Qc))
             (ofNat (length (keys (performance monitoringData)))))
        (Num 0%Qc) in
  let sumOf (f : QueueSnapshot -> jsnum) :=
    fold_left (fun sum status => add sum (f status))
              (values (queues monitoringData)) (Num 0%Qc) in
  let countSeverity (s : string) :=
    length (filter (fun a => String.eqb (al_severity a) s)
                   (alerts monitoringData)) in
  mkStats
    (sh_status systemHealth)
    totalQueues
    totalJobs
    (JsMath.round avgProcessingTime)
    (sh_criticalAlerts systemHealth)
    (length (filter (fun q => gt (qs_active q) (ofZ 0))
                    (values (queues monitoringData))))
    (length (filter (fun q => match qs_paused q with Some b => b | None => false end)
                    (values (queues monitoringData))))
    (sumOf qs_waiting) (sumOf qs_active) (sumOf qs_completed)
    (sumOf qs_failed) (sumOf qs_delayed)
    (fold_left (fun sum metrics => add sum (pm_completed metrics))
               (values (performance monitoringData)) (Num 0%Qc))
    (fold_left (fun sum metrics => add sum (pm_failed metrics))
               (values (performance monitoringData)) (Num 0%Qc))
    (mkStatsAlerts (length (alerts monitoringData))
                   (countSeverity "critical") (countSeverity "error")
                   (countSeverity "warning")).

Record QueueSummary : Type := mkSummary {
  su_name : string;
  su_waiting : jsnum;
  su_active : jsnum;
  su_completed : jsnum;
  su_failed : jsnum;
  su_delayed : jsnum;
  su_paused : option bool
}.

(** [router.get('/realtime')]: the health, one summary per snapshot, and
    the last five alerts. *)
Definition realtime_route (now : Z) (md : MonitoringData)
    : SystemHealth * list QueueSummary * list Alert :=
  let monitoringData := fst (getMonitoringData now md) in
  (getSystemHealth now md,
   map (fun entry : string * QueueSnapshot =>
          let (name, status) := entry in
          mkSummary name (qs_waiting status) (qs_active status)
                    (qs_completed status) (qs_failed status)
                    (qs_delayed status) (qs_paused status))
       (entries (queues monitoringData)),
   JsArray.slice (-5)%Z None (alerts monitoringData)).

Record Comparison : Type := mkComparison {
  cp_name : string;
  cp_waiting : jsnum;
  cp_active : jsnum;
  cp_completed : jsnum;
  cp_failed : jsnum;
  cp_delayed : jsnum;
  cp_total : jsnum;
  cp_performance : PerfEntry;
  cp_status : string;
  cp_failureRate : jsnum
}.

(** The object the comparison falls back on when a queue has no entry in
    the performance table. *)
Definition noPerformance : PerfEntry :=
  mkPerf (Num 0%Qc) (Num 0%Qc) (Num 0%Qc) Undef Undef Undef None.

(** The element of [comparison] computed for one entry of the store. *)
Definition compare_entry (md : MonitoringData) (entry : string * QueueSnapshot)
    : Comparison :=
  let (name, status) := entry in
  mkComparison
    name
    (qs_waiting status) (qs_active status) (qs_completed status)
    (qs_failed status) (qs_delayed status)
    (add (add (add (add (qs_waiting status) (qs_active status))
                   (qs_completed status))
              (qs_failed status))
         (qs_delayed status))
    (match get name (performance md) with
     | Some metrics => metrics
     | None => noPerformance
     end)
    (if gt (qs_failed status) (ofZ 10) then "warning"
     else if gt (qs_failed status) (ofZ 0) then "degraded"
     else "healthy")
    (if gt (add (qs_completed status) (qs_failed status)) (ofZ 0)
     then JsMath.mul (div (qs_failed status)
                          (add (qs_completed status) (qs_failed status)))
                     (ofZ 100)
     else ofZ 0).

(** [router.get('/comparison')] *)
Definition comparison_route (now : Z) (md : MonitoringData) : list Comparison :=
  let monitoringData := fst (getMonitoringData now md) in
  map (compare_entry monitoringData) (entries (queues monitoringData)).

(* ===================================================================== *)
(** ** src/scheduler/setup.js: [getRecurringJobs] and the routes on it *)
(* ===================================================================== *)

Module Registry.
Import Scheduler.

(** [getRecurringJobs()]: the five fields kept of every repeatable job;
    a rejected backend call is rethrown. *)
Definition getRecurringJobs (recurringQueue : RecurringQueue)
    : Outcome (list RepeatableJob) :=
  match getRepeatableJobs recurringQueue with
  | Thrown e => Thrown e
  | Returned repeatableJobs =>
      Returned
        (map (fun job =>
                mkRepeatable (rj_name job) (rj_key job) (rj_pattern job)
                             (rj_next job) (rj_id job))
             repeatableJobs)
  end.

(** [router.get('/recurring')]: the list and its length, or status 500
    with the message of the error. *)
Definition recurring_route (recurringQueue : RecurringQueue)
    : Reply (list RepeatableJob * nat) :=
  match getRecurringJobs recurringQueue with
  | Returned recurringJobs => Sent (recurringJobs, length recurringJobs)
  | Thrown error => Refused 500 (message error)
  end.

(** [router.get('/dashboard')]: the health, the snapshots, the
    performance table, the last ten alerts and the number of recurring
    jobs. *)
Definition dashboard_route (now : Z) (md : MonitoringData)
    (recurringQueue : RecurringQueue)
    : Reply (SystemHealth * JsObj QueueSnapshot * JsObj PerfEntry
             * list Alert * nat) :=
  let monitoringData := fst (getMonitoringData now md) in
  let systemHealth := getSystemHealth now md in
  match getRecurringJobs recurringQueue with
  | Thrown error => Refused 500 (message error)
  | Returned recurringJobs =>
      Sent (systemHealth, queues monitoringData, performance monitoringData,
            JsArray.slice (-10)%Z None (alerts monitoringData),
            length recurringJobs)
  end.

(** [removeRecurringJob(name)] over any backend: [getJobs] is what
    [getRepeatableJobs()] resolves or rejects to and [removeByKey key] what
    [removeRepeatableByKey(key)] does, each rejecting on its own.  The
    [catch] rethrows the error of whichever call rejected.
    [Scheduler.removeRecurringJob] is this function on the backend of
    [Scheduler]. *)
Definition removeRecurringJobOn {S : Type}
    (getJobs : S -> Outcome (list RepeatableJob))
    (removeByKey : string -> S -> Outcome unit * S)
    (name : string) (recurringQueue : S) : Outcome bool * S :=
  match getJobs recurringQueue with
  | Thrown e => (Thrown e, recurringQueue)
  | Returned repeatableJobs =>
      match find (fun job => String.eqb (rj_name job) name) repeatableJobs with
      | Some job =>
          match removeByKey (rj_key job) recurringQueue with
          | (Thrown e, q') => (Thrown e, q')
          | (Returned _, q') => (Returned true, q')
          end
      | None => (Returned false, recurringQueue)
      end
  end.

(** [remove] called [n] times in a row for one name: the results, oldest
    first, and the backend afterwards. *)
Fixpoint removeTimes (n : nat) (name : string) (q : RecurringQueue)
    : list (Outcome bool) * RecurringQueue :=
  match n with
  | O => ([], q)
  | S n' =>
      let (r, q') := removeRecurringJob name q in
      let (rs, q'') := removeTimes n' name q' in
      (r :: rs, q'')
  end.

End Registry.

(* ===================================================================== *)
(** ** src/monitor/setup.js: [startQueueMonitoring] *)
(* ===================================================================== *)

(** The initial pass of [startQueueMonitoring] over [queueNames]: every
    queue is refreshed in turn.  (The pass of the 30 s timer is the same
    as long as closing the queue handle it opens succeeds.)  [backend]
    gives what the six queries of a queue resolve to ([None] when one
    rejects) and [clock] the time at which its refresh ends. *)
Definition refreshAll (backend : string -> option BackendCounts)
    (clock : string -> Z) (md : MonitoringData) : MonitoringData :=
  fold_left
    (fun md queueName =>
       updateQueueStatus queueName (backend queueName) (clock queueName) md)
    queueNames md.

(* ===================================================================== *)
(** ** Further vocabulary *)
(* ===================================================================== *)

(** The severity an alert must carry given its event kind and whether it
    has an error message. *)
Definition severityFits (a : Alert) : Prop :=
  al_severity a =
  if String.eqb (al_event a) "failed" then
    match al_error a with Some _ => "error" | None => "warning" end
  else if String.eqb (al_event a) "stalled" then "warning"
  else if String.eqb (al_event a) "error" then "critical"
  else "warning".

(** The calls of [checkForAlerts] that the health pass makes for one
    entry of the store. *)
Definition healthCalls (now : Z) (entry : string * QueueSnapshot) : list AlertCall :=
  let (queueName, status) := entry in
  (if gt (qs_failed status) (ofZ 10)
   then [(queueName, "high-failure-rate",
          Some (mkError (FailedJobs (qs_failed status))), now)]
   else [])
  ++ (if gt (qs_waiting status) (ofZ 100)
      then [(queueName, "queue-backlog",
             Some (mkError (WaitingJobs (qs_waiting status))), now)]
      else [])
  ++ (if (match qs_paused status with Some b => b | None => false end)
      then [(queueName, "queue-paused",
             Some (mkError (Text "Queue is paused")), now)]
      else []).

(** All the calls of one run of the alert timer, in order. *)
Definition tickCalls (now : Z) (md : MonitoringData) : list AlertCall :=
  flat_map (healthCalls now) (entries (queues md))
  ++ flat_map (performanceCalls now) (entries (performance md)).

Definition callEvent (c : AlertCall) : string :=
  let '(_, event, _, _) := c in event.

(** The snapshot [updateQueueStatus] writes for given backend counts. *)
Definition refreshed (c : BackendCounts) (now : Z) : QueueSnapshot :=
  mkSnapshot (ofNat (bc_waiting c)) (ofNat (bc_active c))
             (ofNat (bc_completed c)) (ofNat (bc_failed c))
             (ofNat (bc_delayed c)) (Some (bc_paused c)) (Some now) None.

(** Two snapshots agree on everything but the event log. *)
Definition sameCounts (s s' : QueueSnapshot) : Prop :=
  qs_waiting s' = qs_waiting s /\ qs_active s' = qs_active s
  /\ qs_completed s' = qs_completed s /\ qs_failed s' = qs_failed s
  /\ qs_delayed s' = qs_delayed s /\ qs_paused s' = qs_paused s
  /\ qs_lastUpdated s' = qs_lastUpdated s.

(** The number of "failed" events of a queue. *)
Definition failedEvents (queueName : string) (ops : list Op) : nat :=
  length (filter
            (fun op =>
               match op with
               | OnFailed q _ _ _ => String.eqb q queueName
               | _ => false
               end)
            ops).

(** Oldest first: no event is more recent than one that follows it. *)
Definition oldestFirst (l : list QueueEvent) : Prop :=
  StronglySorted (fun a b => (ev_timestamp a <= ev_timestamp b)%Z) l.

(** The time at which a callback runs ([ClearAlerts] reads no clock). *)
Definition opTime (op : Op) : option Z :=
  match op with
  | OnWaiting _ _ now | OnActive _ _ now | OnCompleted _ _ now
  | OnFailed _ _ _ now | OnStalled _ _ now | OnError _ _ now
  | Refresh _ _ now | PerformanceTick now | AlertTick now => Some now
  | ClearAlerts => None
  end.

(** The clock never runs backwards along [ops], starting from [t]. *)
Fixpoint clockMonotone (t : Z) (ops : list Op) : bool :=
  match ops with
  | [] => true
  | op :: rest =>
      match opTime op with
      | Some now => (t <=? now)%Z && clockMonotone now rest
      | None => clockMonotone t rest
      end
  end.

(** The event logs of the store, one after the other. *)
Definition storedEvents (md : MonitoringData) : list QueueEvent :=
  flat_map
    (fun entry : string * QueueSnapshot =>
       match qs_events (snd entry) with
       | Some evs => evs
       | None => []
       end)
    (entries (queues md)).

(** The events of an entry are logged under the key of the entry. *)
Definition taggedEntry (entry : string * QueueSnapshot) : Prop :=
  match qs_events (snd entry) with
  | Some evs => Forall (fun e => ev_queueName e = fst entry) evs
  | None => True
  end.


(** The log of a snapshot is oldest first and holds nothing more recent
    than [t]. *)
Definition logUpTo (t : Z) (s : QueueSnapshot) : Prop :=
  match qs_events s with
  | Some evs => oldestFirst evs /\ Forall (fun e => (ev_timestamp e <= t)%Z) evs
  | None => True
  end.

(** The time of the last callback of [ops] that read the clock, [t] if
    none did. *)
Definition lastTime (t : Z) (ops : list Op) : Z :=
  fold_left (fun t op => match opTime op with Some now => now | None => t end)
            ops t.

(** The number of repeatable jobs of a given name. *)
Definition namedCount (name : string) (jobs : list Scheduler.RepeatableJob) : nat :=
  length (filter (fun j => String.eqb (Scheduler.rj_name j) name) jobs).

(* ===================================================================== *)
(** * Properties *)
(* ===================================================================== *)

(** ** Arrays: [slice(-n)] keeps the last [n] elements *)

Lemma slice_neg_lastn {A : Type} (n : nat) (l : list A) :
  (0 < n)%nat -> JsArray.slice (- Z.of_nat n) None l = lastn n l.
Proof.
  intros Hn. unfold JsArray.slice, JsArray.rel_index, lastn.
  destruct (Z.ltb_spec (- Z.of_nat n) 0) as [_ | H]; [| lia].
  replace (Z.to_nat (Z.max (Z.of_nat (length l) + - Z.of_nat n) 0))
    with (length l - n)%nat by lia.
  apply firstn_all2. rewrite length_skipn. lia.
Qed.

Lemma lastn_short {A : Type} (n : nat) (l : list A) :
  (length l <= n)%nat -> lastn n l = l.
Proof.
  intros H. unfold lastn. replace (length l - n)%nat with 0%nat by lia.
  reflexivity.
Qed.

Lemma lastn_length {A : Type} (n : nat) (l : list A) :
  length (lastn n l) = Nat.min n (length l).
Proof. unfold lastn. rewrite length_skipn. lia. Qed.

(** Truncating, appending and truncating again loses nothing more than
    truncating once at the end. *)
Lemma lastn_app_lastn {A : Type} (n : nat) (l r : list A) :
  lastn n (lastn n l ++ r) = lastn n (l ++ r).
Proof.
  unfold lastn. rewrite !length_app, length_skipn, !skipn_app, length_skipn.
  rewrite skipn_skipn.
  f_equal; f_equal; lia.
Qed.

(** The bounded push both logs use:
    [a.push(x); if (a.length > n) a = a.slice(-n)]. *)
Lemma push_bounded {A : Type} (n : nat) (l : list A) (x : A) :
  (0 < n)%nat ->
  (if (n <? length (l ++ [x]))%nat
   then JsArray.slice (- Z.of_nat n) None (l ++ [x])
   else l ++ [x]) = lastn n (l ++ [x]).
Proof.
  intros Hn. destruct (Nat.ltb_spec n (length (l ++ [x]))) as [H | H].
  - apply slice_neg_lastn, Hn.
  - symmetry. apply lastn_short. lia.
Qed.

Lemma lastn_snoc_last {A : Type} (n : nat) (l : list A) (x : A) :
  (0 < n)%nat -> exists older, lastn n (l ++ [x]) = older ++ [x].
Proof.
  intros Hn. unfold lastn. rewrite length_app, skipn_app. simpl.
  replace (length l + 1 - n - length l)%nat with 0%nat by lia.
  eexists. reflexivity.
Qed.

(** ** Objects *)

Lemma get_set_same {V : Type} (k : string) (v : V) (o : JsObj V) :
  get k (set k v o) = Some v.
Proof.
  induction o as [| [k' v'] r IH]; simpl.
  - rewrite String.eqb_refl. reflexivity.
  - destruct (String.eqb k k') eqn:E; simpl; rewrite E; [reflexivity | exact IH].
Qed.

Lemma get_set_other {V : Type} (k k' : string) (v : V) (o : JsObj V) :
  k <> k' -> get k' (set k v o) = get k' o.
Proof.
  intros Hne. induction o as [| [k0 v0] r IH]; simpl.
  - destruct (String.eqb_spec k' k); [congruence | reflexivity].
  - destruct (String.eqb_spec k k0) as [-> | Hk]; simpl.
    + destruct (String.eqb_spec k' k0); [congruence | reflexivity].
    + destruct (String.eqb k' k0); [reflexivity | exact IH].
Qed.

Lemma Forall_values_set {V : Type} (P : V -> Prop) (k : string) (v : V) (o : JsObj V) :
  Forall P (values o) -> P v -> Forall P (values (set k v o)).
Proof.
  unfold values. intros Ho Hv. induction o as [| [k' v'] r IH]; simpl.
  - constructor; [exact Hv | constructor].
  - inversion Ho as [| ? ? Hv' Hr]; subst.
    destruct (String.eqb k k'); simpl; constructor; auto.
Qed.

Lemma get_In_values {V : Type} (k : string) (v : V) (o : JsObj V) :
  get k o = Some v -> In v (values o).
Proof.
  unfold values. induction o as [| [k' v'] r IH]; simpl; [discriminate |].
  destruct (String.eqb k k'); intros H.
  - left. congruence.
  - right. auto.
Qed.

(** ** What the two appends do *)

Lemma checkForAlerts_alerts queueName event error now md :
  alerts (checkForAlerts queueName event error now md)
  = lastn 50 (alerts md ++ [alertFor queueName event error now]).
Proof.
  unfold checkForAlerts. simpl.
  apply (push_bounded 50). lia.
Qed.

Lemma checkForAlerts_queues queueName event error now md :
  queues (checkForAlerts queueName event error now md) = queues md.
Proof. reflexivity. Qed.

Lemma checkForAlerts_performance queueName event error now md :
  performance (checkForAlerts queueName event error now md) = performance md.
Proof. reflexivity. Qed.

Lemma addMonitoringEvent_get_same queueName event job error now md :
  get queueName (queues (addMonitoringEvent queueName event job error now md))
  = Some (set_events
            (lastn 100 (queueEvents queueName md
                        ++ [eventData queueName event job error now]))
            (match get queueName (queues md) with
             | Some s => s
             | None => emptySnapshot
             end)).
Proof.
  unfold addMonitoringEvent, set_queues, queueEvents. cbn [queues].
  rewrite get_set_same. f_equal. f_equal.
  destruct (get queueName (queues md)) as [s |];
    cbv beta iota delta [emptySnapshot qs_events];
    apply (push_bounded 100); lia.
Qed.

Lemma addMonitoringEvent_get_other queueName event job error now md q :
  queueName <> q ->
  get q (queues (addMonitoringEvent queueName event job error now md))
  = get q (queues md).
Proof. intros H. unfold addMonitoringEvent. simpl. apply get_set_other, H. Qed.

Lemma queueEvents_addMonitoringEvent queueName event job error now md :
  queueEvents queueName (addMonitoringEvent queueName event job error now md)
  = lastn 100 (queueEvents queueName md
               ++ [eventData queueName event job error now]).
Proof.
  unfold queueEvents at 1. rewrite addMonitoringEvent_get_same. reflexivity.
Qed.

(** ** C1: severity of the alert [checkForAlerts] records *)

(** C1.  Whatever the queue name, the clock and the log, the alert that
    [checkForAlerts] appends is the newest entry of the log and its
    severity depends on the event kind and on the presence of an error
    only: "failed" with an error gives "error" (without one, "warning"),
    "stalled" gives "warning", "error" gives "critical", and every other
    kind gives "warning". *)
Theorem checkForAlerts_severity :
  forall (queueName event : string) (error : option JsError) (now : Z)
         (md : MonitoringData),
  exists (older : list Alert) (alert : Alert),
    alerts (checkForAlerts queueName event error now md) = older ++ [alert]
    /\ al_queueName alert = queueName
    /\ al_event alert = event
    /\ al_severity alert =
       if String.eqb event "failed" then
         match error with Some _ => "error" | None => "warning" end
       else if String.eqb event "stalled" then "warning"
       else if String.eqb event "error" then "critical"
       else "warning".
Proof.
  intros queueName event error now md.
  rewrite checkForAlerts_alerts.
  destruct (lastn_snoc_last 50 (alerts md) (alertFor queueName event error now))
    as [older Holder]; [lia |].
  exists older, (alertFor queueName event error now).
  split; [exact Holder |].
  unfold alertFor.
  destruct (String.eqb event "failed") eqn:Ef; simpl.
  - destruct error; simpl; [repeat split |].
    apply String.eqb_eq in Ef. subst event. simpl. repeat split.
  - destruct (String.eqb event "stalled"); simpl; [repeat split |].
    destruct (String.eqb event "error"); simpl; repeat split.
Qed.

(** ** C3: the two logs are bounded FIFO buffers *)

Lemma fold_left_preserves {A B : Type} (P : A -> Prop) (f : A -> B -> A) :
  (forall a b, P a -> P (f a b)) ->
  forall l a, P a -> P (fold_left f l a).
Proof.
  intros Hf l. induction l as [| b l IH]; simpl; intros a Ha; auto.
Qed.

Lemma logs_bounded_checkForAlerts queueName event error now md :
  logs_bounded md -> logs_bounded (checkForAlerts queueName event error now md).
Proof.
  intros [Hq Ha]. split.
  - exact Hq.
  - rewrite checkForAlerts_alerts, lastn_length. lia.
Qed.

Lemma logs_bounded_addMonitoringEvent queueName event job error now md :
  logs_bounded md -> logs_bounded (addMonitoringEvent queueName event job error now md).
Proof.
  intros [Hq Ha]. split; [| exact Ha].
  unfold addMonitoringEvent, set_queues. cbn [queues].
  apply Forall_values_set; [exact Hq |].
  unfold events_bounded, set_events. cbn [qs_events].
  match goal with
  | |- (length (if _ then _ else ?l) <= _)%nat =>
      destruct (Nat.ltb_spec 100 (length l)) as [H | H]
  end.
  - rewrite (slice_neg_lastn 100) by lia. rewrite lastn_length. lia.
  - exact H.
Qed.

Lemma logs_bounded_updatePerformanceMetrics queueName event job md :
  logs_bounded md -> logs_bounded (updatePerformanceMetrics queueName event job md).
Proof. intros H. exact H. Qed.

Lemma logs_bounded_updateQueueStatus queueName r now md :
  logs_bounded md -> logs_bounded (updateQueueStatus queueName r now md).
Proof.
  intros [Hq Ha]. destruct r as [c |]; [| split; assumption].
  split; [| exact Ha].
  unfold updateQueueStatus, set_queues. cbn [queues].
  apply Forall_values_set; [exact Hq | exact I].
Qed.

Lemma logs_bounded_checkQueueHealth now md :
  logs_bounded md -> logs_bounded (checkQueueHealth now md).
Proof.
  unfold checkQueueHealth. apply fold_left_preserves.
  intros a [queueName status] Ha.
  repeat match goal with
         | |- logs_bounded (if ?c then _ else _) => destruct c
         | |- logs_bounded (checkForAlerts _ _ _ _ _) =>
             apply logs_bounded_checkForAlerts
         | |- logs_bounded (let _ := _ in _) => cbv zeta
         end; exact Ha.
Qed.

Lemma logs_bounded_checkPerformanceAlerts now md :
  logs_bounded md -> logs_bounded (checkPerformanceAlerts now md).
Proof.
  unfold checkPerformanceAlerts. apply fold_left_preserves.
  intros a [queueName metrics] Ha.
  repeat match goal with
         | |- logs_bounded (if ?c then _ else _) => destruct c
         | |- logs_bounded (checkForAlerts _ _ _ _ _) =>
             apply logs_bounded_checkForAlerts
         | |- logs_bounded (let _ := _ in _) => cbv zeta
         end; exact Ha.
Qed.

Lemma logs_bounded_step op md : logs_bounded md -> logs_bounded (step md op).
Proof.
  intros H. destruct op; simpl;
    auto using logs_bounded_checkForAlerts, logs_bounded_addMonitoringEvent,
      logs_bounded_updatePerformanceMetrics, logs_bounded_updateQueueStatus,
      logs_bounded_checkQueueHealth, logs_bounded_checkPerformanceAlerts.
  - unfold startAlertSystem_tick.
    auto using logs_bounded_checkQueueHealth, logs_bounded_checkPerformanceAlerts.
  - destruct H as [Hq _]. split; [exact Hq | simpl; lia].
Qed.

Lemma logs_bounded_run ops md : logs_bounded md -> logs_bounded (run ops md).
Proof.
  unfold run. apply fold_left_preserves. intros a b. apply logs_bounded_step.
Qed.

Lemma logs_bounded_initial : logs_bounded monitoringData0.
Proof. split; [constructor | simpl; lia]. Qed.

Lemma ingest_many_events queueName calls md :
  queueEvents queueName (fold_left (ingest queueName) calls md)
  = match calls with
    | [] => queueEvents queueName md
    | _ :: _ =>
        lastn 100 (queueEvents queueName md ++ map (eventOfCall queueName) calls)
    end.
Proof.
  revert md. induction calls as [| c calls IH]; intros md; [reflexivity |].
  simpl fold_left. rewrite IH.
  assert (Hc : queueEvents queueName (ingest queueName md c)
               = lastn 100 (queueEvents queueName md ++ [eventOfCall queueName c])).
  { destruct c as [[[event job] error] now]. apply queueEvents_addMonitoringEvent. }
  rewrite Hc. destruct calls as [| c' calls'].
  - reflexivity.
  - rewrite lastn_app_lastn, <- app_assoc. reflexivity.
Qed.

Lemma raise_many_alerts calls md :
  alerts (fold_left raise calls md)
  = match calls with
    | [] => alerts md
    | _ :: _ => lastn 50 (alerts md ++ map alertOfCall calls)
    end.
Proof.
  revert md. induction calls as [| c calls IH]; intros md; [reflexivity |].
  simpl fold_left. rewrite IH.
  assert (Hc : alerts (raise md c) = lastn 50 (alerts md ++ [alertOfCall c])).
  { destruct c as [[[queueName event] error] now]. apply checkForAlerts_alerts. }
  rewrite Hc. destruct calls as [| c' calls'].
  - reflexivity.
  - rewrite lastn_app_lastn, <- app_assoc. reflexivity.
Qed.

(** C3.  After every sequence of listener calls, refreshes, timer ticks
    and clears, every event log of the store holds at most 100 events and
    the alert log at most 50 alerts.  Appending one or more events to the
    log of a queue leaves exactly the last 100 of the old log followed by
    the appended events, in the order they were appended; appending one or
    more alerts leaves exactly the last 50 of the old log followed by the
    appended alerts. *)
Theorem logs_are_bounded_fifo :
  (forall ops : list Op,
      let md := run ops monitoringData0 in
      (forall queueName s evs,
          getQueueStatus queueName md = Some s ->
          qs_events s = Some evs -> (length evs <= 100)%nat)
      /\ (length (alerts md) <= 50)%nat)
  /\ (forall queueName c calls md,
         queueEvents queueName (fold_left (ingest queueName) (c :: calls) md)
         = lastn 100 (queueEvents queueName md
                      ++ map (eventOfCall queueName) (c :: calls)))
  /\ (forall c calls md,
         alerts (fold_left raise (c :: calls) md)
         = lastn 50 (alerts md ++ map alertOfCall (c :: calls))).
Proof.
  split; [| split].
  - intros ops md.
    destruct (logs_bounded_run ops monitoringData0 logs_bounded_initial)
      as [Hq Ha].
    split; [| exact Ha].
    intros queueName s evs Hs Hevs.
    apply get_In_values in Hs.
    rewrite Forall_forall in Hq. specialize (Hq s Hs).
    unfold events_bounded in Hq. rewrite Hevs in Hq. exact Hq.
  - intros queueName c calls md. apply (ingest_many_events queueName (c :: calls)).
  - intros c calls md. apply (raise_many_alerts (c :: calls)).
Qed.

(** ** Numbers: integers inside the rationals *)

Lemma Zc_add (a b : Z) : Zc (a + b) = (Zc a + Zc b)%Qc.
Proof.
  unfold Zc. apply Qc_is_canon. unfold Qcplus. cbn [this Q2Qc].
  rewrite !Qred_correct, inject_Z_plus. reflexivity.
Qed.

Lemma Qcltb_Zc (a b : Z) : Qcltb (Zc a) (Zc b) = (a <? b)%Z.
Proof.
  unfold Qcltb, Zc. cbn [this Q2Qc].
  rewrite (Qleb_comp _ _ (Qred_correct (inject_Z b)) _ _ (Qred_correct (inject_Z a))).
  unfold Qle_bool, inject_Z. simpl. rewrite !Z.mul_1_r.
  rewrite Z.ltb_antisym. reflexivity.
Qed.

Lemma Qceqb_Zc (a b : Z) : Qceqb (Zc a) (Zc b) = (a =? b)%Z.
Proof.
  unfold Qceqb, Zc. cbn [this Q2Qc].
  rewrite (Qeqb_comp _ _ (Qred_correct (inject_Z a)) _ _ (Qred_correct (inject_Z b))).
  unfold Qeq_bool, inject_Z. cbn [Qnum Qden]. rewrite !Z.mul_1_r.
  reflexivity.
Qed.

Lemma Qceqb_true (x y : Qc) : Qceqb x y = true <-> x = y.
Proof.
  unfold Qceqb. rewrite Qeq_bool_iff. split.
  - apply Qc_is_canon.
  - intros ->. reflexivity.
Qed.

Lemma add_ofZ (a b : Z) : add (ofZ a) (ofZ b) = ofZ (a + b).
Proof. unfold add, ofZ. simpl. rewrite Zc_add. reflexivity. Qed.

Lemma gt_ofZ (a b : Z) : gt (ofZ a) (ofZ b) = (b <? a)%Z.
Proof. unfold gt, ofZ. simpl. apply Qcltb_Zc. Qed.

Lemma incr_ofNat (n : nat) : incr (ofNat n) = ofNat (S n).
Proof.
  unfold incr, ofNat. change (Num 1%Qc) with (ofZ 1). rewrite add_ofZ.
  f_equal. lia.
Qed.
(** ** Rounding to the nearest double is monotone *)

Section Rounding.
Local Open Scope Q_scope.

Lemma pow2_pos (e : Z) : 0 < pow2 e.
Proof. apply Qpower_0_lt. reflexivity. Qed.

Lemma pow2_le (a b : Z) : (a <= b)%Z -> pow2 a <= pow2 b.
Proof. intros H. apply Qpower_le_compat_l; [exact H | discriminate]. Qed.

Lemma pow2_add (a b : Z) : pow2 (a + b) == pow2 a * pow2 b.
Proof. apply Qpower_plus. discriminate. Qed.

Lemma pow2_Z (n : Z) : (0 <= n)%Z -> pow2 n == inject_Z (2 ^ n).
Proof. intros H. unfold pow2. rewrite Zpower_Qpower by exact H. reflexivity. Qed.

(** [ilog2 q] is the binary exponent of [q]. *)
Lemma ilog2_spec (q : Q) :
  0 < q -> pow2 (ilog2 q) <= q /\ q < pow2 (ilog2 q + 1).
Proof.
  intros Hq. unfold ilog2. destruct (Qle_bool 1 q) eqn:E.
  - apply Qle_bool_iff in E.
    assert (Hf : (1 <= Qfloor q)%Z).
    { change 1%Z with (Qfloor (inject_Z 1)). apply Qfloor_resp_le. exact E. }
    destruct (Z.log2_spec (Qfloor q)) as [Hlo Hhi]; [lia |].
    pose proof (Z.log2_nonneg (Qfloor q)) as Hk.
    split.
    + rewrite pow2_Z by exact Hk.
      apply Qle_trans with (inject_Z (Qfloor q)); [| apply Qfloor_le].
      rewrite <- Zle_Qle. exact Hlo.
    + rewrite pow2_Z by lia.
      apply Qlt_le_trans with (inject_Z (Qfloor q + 1)); [apply Qlt_floor |].
      rewrite <- Zle_Qle. rewrite <- Z.add_1_r in Hhi. lia.
  - assert (Hlt : q < 1).
    { apply Qnot_le_lt. intros H. apply Qle_bool_iff in H. congruence. }
    assert (Hinv : 1 < / q).
    { apply Qlt_shift_inv_l; [exact Hq |]. rewrite Qmult_1_l. exact Hlt. }
    set (c := Qceiling (/ q)).
    assert (Hc : (1 < c)%Z).
    { rewrite Zlt_Qlt. apply Qlt_le_trans with (/ q); [exact Hinv |].
      apply Qle_ceiling. }
    destruct (Z.log2_up_spec c Hc) as [Hlo Hhi].
    pose proof (Z.log2_up_pos c Hc) as Hj.
    set (j := Z.log2_up c) in *.
    assert (Hqinv : / q <= pow2 j).
    { rewrite pow2_Z by lia.
      apply Qle_trans with (inject_Z c); [apply Qle_ceiling |].
      rewrite <- Zle_Qle. exact Hhi. }
    assert (Hqinv' : pow2 (j - 1) < / q).
    { rewrite pow2_Z by lia.
      apply Qle_lt_trans with (inject_Z (c - 1)); [| apply Qceiling_lt].
      rewrite <- Zle_Qle. replace (j - 1)%Z with (Z.pred j) by lia. lia. }
    assert (Hneg : forall a, pow2 (- a) == / pow2 a).
    { intros a. unfold pow2. apply Qpower_opp. }
    assert (Hone : / q * q == 1).
    { rewrite Qmult_comm. apply Qmult_inv_r.
      intros H. rewrite H in Hq. discriminate. }
    pose proof (pow2_pos j) as Pj. pose proof (pow2_pos (j - 1)) as Pj1.
    split.
    + rewrite Hneg.
      apply Qle_shift_inv_r; [exact Pj |].
      rewrite <- Hone. rewrite (Qmult_comm q).
      apply Qmult_le_compat_r; [exact Hqinv | apply Qlt_le_weak, Hq].
    + replace (- j + 1)%Z with (- (j - 1))%Z by lia. rewrite Hneg.
      apply Qlt_shift_inv_l; [exact Pj1 |].
      rewrite <- Hone. rewrite (Qmult_comm q).
      apply Qmult_lt_compat_r; [exact Hq | exact Hqinv'].
Qed.

Lemma ilog2_le (x y : Q) : 0 < x -> x <= y -> (ilog2 x <= ilog2 y)%Z.
Proof.
  intros Hx Hxy.
  assert (Hy : 0 < y) by (apply Qlt_le_trans with x; assumption).
  destruct (ilog2_spec x Hx) as [Hlo _].
  destruct (ilog2_spec y Hy) as [_ Hhi].
  destruct (Z_le_gt_dec (ilog2 x) (ilog2 y)) as [H | H]; [exact H | exfalso].
  assert (Hp : pow2 (ilog2 y + 1) <= pow2 (ilog2 x)) by (apply pow2_le; lia).
  apply (Qlt_irrefl y).
  apply Qlt_le_trans with (pow2 (ilog2 y + 1)); [exact Hhi |].
  apply Qle_trans with (pow2 (ilog2 x)); [exact Hp |].
  apply Qle_trans with x; assumption.
Qed.

Lemma rne_bounds (x : Q) : (Qfloor x <= rne x <= Qfloor x + 1)%Z.
Proof.
  unfold rne. destruct (x - inject_Z (Qfloor x) ?= 1 # 2);
    [destruct (Z.even (Qfloor x)) | |]; lia.
Qed.

Lemma rne_le (x y : Q) : x <= y -> (rne x <= rne y)%Z.
Proof.
  intros Hxy. pose proof (Qfloor_resp_le x y Hxy) as Hf.
  pose proof (rne_bounds x) as Bx. pose proof (rne_bounds y) as By.
  destruct (Z.eq_dec (Qfloor x) (Qfloor y)) as [E | NE]; [| lia].
  unfold rne. rewrite <- E.
  destruct (Qcompare_spec (x - inject_Z (Qfloor x)) (1 # 2)) as [Hx | Hx | Hx];
    destruct (Qcompare_spec (y - inject_Z (Qfloor x)) (1 # 2)) as [Hy | Hy | Hy];
    try (destruct (Z.even (Qfloor x))); try lia; exfalso; lra.
Qed.

Lemma rne_Z (n : Z) : rne (inject_Z n) = n.
Proof.
  unfold rne. rewrite Qfloor_Z.
  destruct (Qcompare_spec (inject_Z n - inject_Z n) (1 # 2)) as [H | H | H];
    [exfalso; lra | reflexivity | exfalso; lra].
Qed.

Lemma rne_le_Z (x : Q) (n : Z) : x <= inject_Z n -> (rne x <= n)%Z.
Proof. intros H. rewrite <- (rne_Z n). apply rne_le, H. Qed.

Lemma rne_ge_Z (x : Q) (n : Z) : inject_Z n <= x -> (n <= rne x)%Z.
Proof. intros H. rewrite <- (rne_Z n). apply rne_le, H. Qed.

Lemma div_pow2_le (x y : Q) (e : Z) : x <= y -> x / pow2 e <= y / pow2 e.
Proof.
  intros H. unfold Qdiv. apply Qmult_le_compat_r; [exact H |].
  apply Qlt_le_weak, Qinv_lt_0_compat, pow2_pos.
Qed.

Lemma div_pow2 (a b : Z) : pow2 a / pow2 b == pow2 (a - b).
Proof.
  unfold Qdiv. replace (a - b)%Z with (a + - b)%Z by lia.
  rewrite pow2_add. unfold pow2 at 4. rewrite Qpower_opp. reflexivity.
Qed.

Lemma nearestPos_nonneg (x : Q) : 0 <= x -> 0 <= nearestPos x.
Proof.
  intros Hx. unfold nearestPos.
  set (e := Z.max (ilog2 x - 52) (-1074)).
  apply Qmult_le_0_compat; [| apply Qlt_le_weak, pow2_pos].
  change 0 with (inject_Z 0). rewrite <- Zle_Qle. apply rne_ge_Z.
  change (inject_Z 0) with 0. unfold Qdiv.
  apply Qmult_le_0_compat; [exact Hx |].
  apply Qlt_le_weak, Qinv_lt_0_compat, pow2_pos.
Qed.

Lemma nearestPos_le (x y : Q) : 0 < x -> x <= y -> nearestPos x <= nearestPos y.
Proof.
  intros Hx Hxy.
  assert (Hy : 0 < y) by (apply Qlt_le_trans with x; assumption).
  pose proof (ilog2_le x y Hx Hxy) as Hk.
  unfold nearestPos.
  set (ex := Z.max (ilog2 x - 52) (-1074)).
  set (ey := Z.max (ilog2 y - 52) (-1074)).
  destruct (Z.eq_dec ex ey) as [E | NE].
  - rewrite <- E. apply Qmult_le_compat_r; [| apply Qlt_le_weak, pow2_pos].
    rewrite <- Zle_Qle. apply rne_le, div_pow2_le, Hxy.
  - assert (Hlt : (ex < ey)%Z) by lia.
    assert (Eey : ey = (ilog2 y - 52)%Z) by lia.
    destruct (ilog2_spec x Hx) as [_ Hxhi].
    destruct (ilog2_spec y Hy) as [Hylo _].
    apply Qle_trans with (pow2 (ilog2 y)).
    + apply Qle_trans with (inject_Z (2 ^ 53) * pow2 ex).
      * apply Qmult_le_compat_r; [| apply Qlt_le_weak, pow2_pos].
        rewrite <- Zle_Qle. apply rne_le_Z.
        rewrite <- pow2_Z by lia.
        apply Qle_trans with (pow2 (ilog2 x + 1) / pow2 ex).
        -- apply div_pow2_le, Qlt_le_weak, Hxhi.
        -- rewrite div_pow2. apply pow2_le. lia.
      * rewrite <- pow2_Z, <- pow2_add by lia. apply pow2_le. lia.
    + apply Qle_trans with (inject_Z (2 ^ 52) * pow2 ey).
      * rewrite <- pow2_Z, <- pow2_add by lia. apply pow2_le. lia.
      * apply Qmult_le_compat_r; [| apply Qlt_le_weak, pow2_pos].
        rewrite <- Zle_Qle. apply rne_ge_Z.
        rewrite <- pow2_Z by lia.
        apply Qle_trans with (pow2 (ilog2 y) / pow2 ey).
        -- rewrite div_pow2. apply pow2_le. lia.
        -- apply div_pow2_le, Hylo.
Qed.

Lemma Q2Qc_le (a b : Q) : a <= b -> (Q2Qc a <= Q2Qc b)%Qc.
Proof.
  intros H. unfold Qcle. cbn [this Q2Qc]. rewrite !Qred_correct. exact H.
Qed.

(** Rounding to the nearest double keeps the order. *)
Lemma nearest_le (x y : Qc) : (x <= y)%Qc -> (nearest x <= nearest y)%Qc.
Proof.
  intros Hxy. unfold Qcle in Hxy. unfold nearest.
  assert (Hneg : forall a : Q, 0 <= a -> (- Q2Qc a <= 0)%Qc).
  { intros a Ha. unfold Qcle. cbn [this Qcopp Q2Qc].
    rewrite !Qred_correct. lra. }
  assert (Hpos : forall a : Q, 0 <= a -> (0 <= Q2Qc a)%Qc).
  { intros a Ha. unfold Qcle. cbn [this Q2Qc]. rewrite !Qred_correct. exact Ha. }
  change (this 0%Qc) with 0%Q in *.
  destruct (Qcompare_spec x 0) as [Hx | Hx | Hx];
    destruct (Qcompare_spec y 0) as [Hy | Hy | Hy]; try (exfalso; lra).
  - apply Qcle_refl.
  - apply Hpos, nearestPos_nonneg. lra.
  - apply Hneg, nearestPos_nonneg. lra.
  - unfold Qcle. cbn [this Qcopp Q2Qc]. rewrite !Qred_correct.
    apply Qopp_le_compat, nearestPos_le; lra.
  - apply Qcle_trans with 0%Qc.
    + apply Hneg, nearestPos_nonneg. lra.
    + apply Hpos, nearestPos_nonneg. lra.
  - apply Q2Qc_le, nearestPos_le; [exact Hx | exact Hxy].
Qed.

End Rounding.

Lemma nearest_0 : nearest 0%Qc = 0%Qc.
Proof. reflexivity. Qed.

(** A quotient or product between 0 and a bound whose double is finite
    is stored as the nearest double. *)
Lemma roundDouble_Num (q b : Qc) :
  (0 <= q)%Qc -> (q <= b)%Qc ->
  Qle_bool (pow2 1024) (nearest b) = false ->
  roundDouble q = Num (nearest q).
Proof.
  intros H0 Hb Hfin. unfold roundDouble.
  pose proof (nearest_le 0%Qc q H0) as Hlo. rewrite nearest_0 in Hlo.
  pose proof (nearest_le q b Hb) as Hhi.
  destruct (Qle_bool (pow2 1024) (Qabs (nearest q))) eqn:E; [| reflexivity].
  exfalso. apply Qle_bool_iff in E.
  rewrite Qabs_pos in E by exact Hlo.
  assert (Hc : Qle_bool (pow2 1024) (nearest b) = true).
  { apply Qle_bool_iff. apply Qle_trans with (nearest q); [exact E | exact Hhi]. }
  congruence.
Qed.

(** Quotients of integers, compared by cross multiplication. *)
Lemma Zc_div_le (a b c d : Z) :
  (0 < b)%Z -> (0 < d)%Z -> (a * d <= c * b)%Z ->
  (Zc a / Zc b <= Zc c / Zc d)%Qc.
Proof.
  intros Hb Hd H. unfold Qcle, Qcdiv, Qcmult, Qcinv, Zc. cbn [this Q2Qc].
  rewrite !Qred_correct.
  unfold Qle, Qmult, Qinv, inject_Z. cbn [Qnum Qden].
  destruct b as [| b | b]; try lia. destruct d as [| d | d]; try lia.
  cbn [Qnum Qden]. rewrite !Z.mul_1_r, !Pos.mul_1_l. lia.
Qed.

Lemma Qcltb_true (x y : Qc) : Qcltb x y = true <-> (x < y)%Qc.
Proof.
  unfold Qcltb, Qclt. rewrite negb_true_iff, <- not_true_iff_false, Qle_bool_iff.
  split; intros H; [apply Qnot_le_lt, H | apply Qlt_not_le, H].
Qed.

Lemma Qcltb_false (x y : Qc) : Qcltb x y = false <-> (y <= x)%Qc.
Proof.
  unfold Qcltb, Qcle. rewrite negb_false_iff, Qle_bool_iff. reflexivity.
Qed.

(** ** What the alert passes leave alone *)

Lemma checkQueueHealth_frame now md :
  queues (checkQueueHealth now md) = queues md
  /\ performance (checkQueueHealth now md) = performance md.
Proof.
  unfold checkQueueHealth.
  apply (fold_left_preserves
           (fun a => queues a = queues md /\ performance a = performance md));
    [| split; reflexivity].
  intros a [queueName status] Ha.
  repeat match goal with
         | |- context [if ?c then _ else _] => destruct c
         end; exact Ha.
Qed.

Lemma checkPerformanceAlerts_frame now md :
  queues (checkPerformanceAlerts now md) = queues md
  /\ performance (checkPerformanceAlerts now md) = performance md.
Proof.
  unfold checkPerformanceAlerts.
  apply (fold_left_preserves
           (fun a => queues a = queues md /\ performance a = performance md));
    [| split; reflexivity].
  intros a [queueName metrics] Ha.
  repeat match goal with
         | |- context [if ?c then _ else _] => destruct c
         end; exact Ha.
Qed.

Lemma startAlertSystem_tick_frame now md :
  queues (startAlertSystem_tick now md) = queues md
  /\ performance (startAlertSystem_tick now md) = performance md.
Proof.
  unfold startAlertSystem_tick.
  destruct (checkPerformanceAlerts_frame now (checkQueueHealth now md)) as [Hq Hp].
  destruct (checkQueueHealth_frame now md) as [Hq' Hp'].
  split; congruence.
Qed.

(** ** C10: a snapshot created by an event holds the event log only *)

Lemma eventsOnly_step queueName op md evs :
  not_refresh_of queueName op = true ->
  get queueName (queues md) = Some (eventsOnly evs) ->
  exists evs', get queueName (queues (step md op)) = Some (eventsOnly evs').
Proof.
  intros Hop Hget.
  assert (Hadd : forall q event job error now,
             exists evs',
               get queueName (queues (addMonitoringEvent q event job error now md))
               = Some (eventsOnly evs')).
  { intros q event job error now. destruct (String.eqb_spec q queueName) as [-> | Hne].
    - rewrite addMonitoringEvent_get_same, Hget. eexists. reflexivity.
    - rewrite addMonitoringEvent_get_other by exact Hne. eauto. }
  destruct op; simpl; try (apply Hadd); try (eexists; exact Hget).
  - destruct r as [c |]; [| eexists; exact Hget].
    simpl in Hop. apply negb_true_iff in Hop.
    unfold updateQueueStatus, set_queues. cbn [queues].
    rewrite get_set_other; [eexists; exact Hget |].
    intros Heq. subst. rewrite String.eqb_refl in Hop. discriminate.
  - destruct (startAlertSystem_tick_frame now md) as [Hq _]. rewrite Hq.
    eexists; exact Hget.
Qed.

Lemma eventsOnly_run queueName ops :
  forallb (not_refresh_of queueName) ops = true ->
  forall md evs,
    get queueName (queues md) = Some (eventsOnly evs) ->
    exists evs', get queueName (queues (run ops md)) = Some (eventsOnly evs').
Proof.
  induction ops as [| op ops IH]; simpl; intros Hops md evs Hget.
  - eauto.
  - apply andb_true_iff in Hops. destruct Hops as [Hop Hops].
    destruct (eventsOnly_step queueName op md evs Hop Hget) as [evs' Hget'].
    apply (IH Hops _ _ Hget').
Qed.

(** C10.  When a queue name has no snapshot, ingesting an event for it
    creates a snapshot whose only property is the event log holding that
    event: the five counts, the paused flag and the update time are
    absent.  They stay absent, and [getQueueStatus] keeps returning the
    record (never the not-found value), through every later sequence of
    operations that contains no successful refresh of that queue. *)
Theorem event_creates_partial_snapshot :
  forall (queueName event : string) (job : option Job) (error : option JsError)
         (now : Z) (md : MonitoringData),
    getQueueStatus queueName md = None ->
    getQueueStatus queueName (addMonitoringEvent queueName event job error now md)
    = Some (eventsOnly [eventData queueName event job error now])
    /\ forall ops : list Op,
        forallb (not_refresh_of queueName) ops = true ->
        exists evs,
          getQueueStatus queueName
            (run ops (addMonitoringEvent queueName event job error now md))
          = Some (eventsOnly evs).
Proof.
  intros queueName event job error now md Hnone.
  unfold getQueueStatus in *.
  assert (H1 : get queueName
                 (queues (addMonitoringEvent queueName event job error now md))
               = Some (eventsOnly [eventData queueName event job error now])).
  { rewrite addMonitoringEvent_get_same. unfold queueEvents. rewrite Hnone.
    reflexivity. }
  split; [exact H1 |].
  intros ops Hops. apply (eventsOnly_run queueName ops Hops _ _ H1).
Qed.

Lemma event_creates_partial_snapshot_witness :
  getQueueStatus "email-queue" monitoringData0 = None
  /\ getQueueStatus "email-queue"
       (addMonitoringEvent "email-queue" "waiting" None None 5 monitoringData0)
     = Some (eventsOnly [eventData "email-queue" "waiting" None None 5]).
Proof.
  split; [reflexivity |].
  apply (event_creates_partial_snapshot "email-queue" "waiting" None None 5
           monitoringData0).
  reflexivity.
Defined.

(** ** C2: the status rule of [getSystemHealth] *)

Lemma fold_add_counts {S : Type} (f : S -> jsnum) (vals : list S) :
  forall (ns : list Z) (a : Z),
    map f vals = map ofZ ns ->
    fold_left (fun sum s => add sum (f s)) vals (ofZ a) = ofZ (a + sumZ ns).
Proof.
  induction vals as [| s vals IH]; intros ns a Hmap; destruct ns as [| n ns];
    simpl in *; try discriminate.
  - rewrite Z.add_0_r. reflexivity.
  - injection Hmap as Hs Hrest. rewrite Hs, add_ofZ, (IH ns _ Hrest).
    f_equal. lia.
Qed.

(** The rule holds on every store whose snapshots all carry a failed
    count (that is, have been refreshed). *)
Lemma getSystemHealth_status_counted now md (ns : list Z) :
  map qs_failed (values (queues md)) = map ofZ ns ->
  sh_status (getSystemHealth now md)
  = if (0 <? criticalCount md)%nat then "critical"
    else if (10 <? sumZ ns)%Z then "warning"
    else "healthy".
Proof.
  intros Hmap. unfold getSystemHealth. cbn [sh_status].
  change (Num 0%Qc) with (ofZ 0).
  rewrite (fold_add_counts qs_failed _ ns 0 Hmap), gt_ofZ. reflexivity.
Qed.

(** A critical alert decides the status whatever the counts are. *)
Lemma getSystemHealth_critical now md :
  (0 < criticalCount md)%nat -> sh_status (getSystemHealth now md) = "critical".
Proof.
  intros H. unfold getSystemHealth. cbn [sh_status].
  fold (criticalCount md). apply Nat.ltb_lt in H. rewrite H. reflexivity.
Qed.

(** C2.  The status rule fails on a store that holds a snapshot created
    by an event next to a refreshed one: after a refresh of "email-queue"
    that reports 11 failed jobs and a "waiting" event of "priority-queue",
    the log has no critical alert and the only failed count of the store
    is 11, yet [totalFailed] is [NaN] and the status is "healthy" instead
    of "warning". *)
Theorem getSystemHealth_partial_snapshot_hides_failures :
  let md :=
    run [ Refresh "email-queue" (Some (mkCounts 0 0 0 11 0 false)) 1000;
          OnWaiting "priority-queue"
            (mkJob (Some "7") (Some "send") Undef (ofZ 1500)) 2000 ]
        monitoringData0 in
  map qs_failed (values (queues md)) = [ofNat 11; Undef]
  /\ criticalCount md = 0%nat
  /\ sh_totalFailed (getSystemHealth 3000 md) = NaN
  /\ sh_status (getSystemHealth 3000 md) = "healthy".
Proof.
  vm_compute. repeat split.
Qed.

(** ** The performance table *)

Lemma sumQc_app (l r : list Qc) : sumQc (l ++ r) = (sumQc l + sumQc r)%Qc.
Proof.
  induction l as [| x l IH]; simpl.
  - ring.
  - rewrite IH. ring.
Qed.

Lemma Zc_S_neq_0 (n : nat) : Qceqb (Zc (Z.of_nat (S n))) 0 = false.
Proof.
  change 0%Qc with (Zc 0). rewrite Qceqb_Zc. apply Z.eqb_neq. lia.
Qed.

Lemma updatePerformanceMetrics_other queueName event job md q :
  queueName <> q ->
  get q (performance (updatePerformanceMetrics queueName event job md))
  = get q (performance md).
Proof.
  intros H. unfold updatePerformanceMetrics, set_performance. cbn [performance].
  apply get_set_other, H.
Qed.

Lemma updatePerformanceMetrics_failed queueName job md :
  get queueName (performance (updatePerformanceMetrics queueName "failed" job md))
  = Some (set_failed (incr (pm_failed (metricsOrNew queueName md)))
                     (metricsOrNew queueName md)).
Proof.
  unfold updatePerformanceMetrics, set_performance. cbn [performance].
  rewrite get_set_same. reflexivity.
Qed.

Lemma updatePerformanceMetrics_completed queueName job md :
  get queueName (performance (updatePerformanceMetrics queueName "completed" job md))
  = Some
      (let m1 := set_completed (incr (pm_completed (metricsOrNew queueName md)))
                               (metricsOrNew queueName md) in
       if truthy (job_processedOn job) && truthy (job_timestamp job) then
         let total := add (pm_totalProcessingTime m1)
                          (sub (job_processedOn job) (job_timestamp job)) in
         let count := incr (pm_jobCount m1) in
         mkPerf (pm_completed m1) (pm_failed m1) (div total count) total count
                (pm_totalJobs m1) (pm_timestamp m1)
       else m1).
Proof.
  unfold updatePerformanceMetrics, set_performance. cbn [performance].
  rewrite get_set_same. reflexivity.
Qed.

(** ** C4: the average is the mean of the recorded processing times *)

Lemma mean_snoc (l : list Qc) (x : Qc) :
  mean (l ++ [x]) = (sumQc (l ++ [x]) / Zc (Z.of_nat (S (length l))))%Qc.
Proof.
  assert (Hlen : length (l ++ [x]) = S (length l)).
  { rewrite length_app. simpl. lia. }
  rewrite <- Hlen. destruct (l ++ [x]) eqn:E; [| reflexivity].
  destruct l; discriminate.
Qed.

Lemma roundDouble_0 : roundDouble 0%Qc = Num 0%Qc.
Proof. vm_compute. reflexivity. Qed.

Lemma div_ofNat_S (s : Qc) (n : nat) :
  div (Num s) (ofNat (S n)) = roundDouble (s / Zc (Z.of_nat (S n)))%Qc.
Proof.
  unfold div, ofNat, ofZ. cbn [toNumber]. rewrite Zc_S_neq_0. reflexivity.
Qed.

Lemma records_new : records newMetrics [].
Proof.
  unfold records. cbn [filter map sumQc fold_right length mean Nat.ltb Nat.leb].
  rewrite roundDouble_0. repeat split.
Qed.

Lemma records_completed (m : PerfEntry) (jobs : list Job) (job : Job) :
  records m jobs ->
  records
    (let m1 := set_completed (incr (pm_completed m)) m in
     if truthy (job_processedOn job) && truthy (job_timestamp job) then
       let total := add (pm_totalProcessingTime m1)
                        (sub (job_processedOn job) (job_timestamp job)) in
       let count := incr (pm_jobCount m1) in
       mkPerf (pm_completed m1) (pm_failed m1) (div total count) total count
              (pm_totalJobs m1) (pm_timestamp m1)
     else m1)
    (jobs ++ [job]).
Proof.
  intros (Hcount & Hratio & Hexact).
  unfold records. rewrite filter_app, map_app. cbn [filter].
  fold (timed job). cbv zeta.
  set (times := map processingTime (filter timed jobs)) in *.
  destruct (timed job) eqn:Hboth.
  - assert (Hlen : length (times ++ map processingTime [job]) = S (length times)).
    { rewrite length_app. simpl. lia. }
    rewrite Hlen.
    cbn [pm_totalProcessingTime pm_jobCount pm_avgProcessingTime
         set_completed pm_completed pm_failed pm_totalJobs pm_timestamp].
    rewrite Hcount, incr_ofNat.
    split; [reflexivity |]. split; [reflexivity |].
    intros Hjobs. rewrite forallb_app in Hjobs.
    apply andb_true_iff in Hjobs. destruct Hjobs as [Hold Hjob].
    destruct (Hexact Hold) as [Htotal _].
    cbn [forallb] in Hjob. rewrite andb_true_r in Hjob.
    unfold backendJob in Hjob. apply andb_true_iff in Hjob.
    destruct Hjob as [Hp Ht].
    unfold timed in Hboth.
    destruct (job_processedOn job) as [| | |p] eqn:Ep; try discriminate.
    destruct (job_timestamp job) as [| | |t] eqn:Et;
      try discriminate; [rewrite andb_false_r in Hboth; discriminate |].
    assert (Hx : processingTime job = (p - t)%Qc).
    { unfold processingTime. rewrite Ep, Et. reflexivity. }
    cbn [map]. rewrite Htotal, Hx.
    assert (Hsum : add (Num (sumQc times)) (sub (Num p) (Num t))
                   = Num (sumQc (times ++ [(p - t)%Qc]))).
    { rewrite sumQc_app. unfold sub, neg, add. simpl. f_equal.
      unfold Qcminus. ring. }
    rewrite Hsum. split; [reflexivity |].
    rewrite div_ofNat_S, mean_snoc. reflexivity.
  - cbn [map]. rewrite app_nil_r.
    split; [exact Hcount |]. split; [exact Hratio |].
    intros Hjobs. rewrite forallb_app in Hjobs.
    apply andb_true_iff in Hjobs. destruct Hjobs as [Hold _].
    exact (Hexact Hold).
Qed.

Lemma records_set_failed (m : PerfEntry) (jobs : list Job) (v : jsnum) :
  records m jobs -> records (set_failed v m) jobs.
Proof. intros H. exact H. Qed.

Lemma run_snoc ops op md : run (ops ++ [op]) md = step (run ops md) op.
Proof. unfold run. rewrite fold_left_app. reflexivity. Qed.

Lemma completedJobs_snoc queueName ops op :
  completedJobs queueName (ops ++ [op])
  = completedJobs queueName ops ++ completedJobs queueName [op].
Proof. unfold completedJobs. apply flat_map_app. Qed.

Lemma records_metricsOrNew queueName md jobs :
  match get queueName (performance md) with
  | Some m => records m jobs
  | None => jobs = []
  end ->
  records (metricsOrNew queueName md) jobs.
Proof.
  unfold metricsOrNew, getPerformanceMetrics.
  destruct (get queueName (performance md)); intros H.
  - exact H.
  - subst. apply records_new.
Qed.

Lemma records_run queueName ops :
  queueName <> "system" ->
  match get queueName (performance (run ops monitoringData0)) with
  | Some m => records m (completedJobs queueName ops)
  | None => completedJobs queueName ops = []
  end.
Proof.
  intros Hsys. induction ops as [| op ops IH] using rev_ind.
  - reflexivity.
  - rewrite run_snoc, completedJobs_snoc.
    set (md := run ops monitoringData0) in *.
    destruct op as [q job now | q job now | q job now | q job err now
                   | q job now | q err now | q r now | now | now | ];
      cbn [completedJobs flat_map app step];
      try (rewrite app_nil_r; exact IH).
    + (* completed *)
      destruct (String.eqb_spec q queueName) as [-> | Hne].
      * cbn [app].
        rewrite updatePerformanceMetrics_completed.
        apply records_completed.
        apply records_metricsOrNew. exact IH.
      * cbn [app]. rewrite app_nil_r.
        rewrite updatePerformanceMetrics_other by exact Hne. exact IH.
    + (* failed *)
      rewrite app_nil_r, checkForAlerts_performance.
      destruct (String.eqb_spec q queueName) as [-> | Hne].
      * rewrite updatePerformanceMetrics_failed.
        apply records_set_failed, records_metricsOrNew. exact IH.
      * rewrite updatePerformanceMetrics_other by exact Hne. exact IH.
    + (* refresh *)
      rewrite app_nil_r. destruct r; exact IH.
    + (* performance tick *)
      rewrite app_nil_r.
      unfold startPerformanceMonitoring_tick, set_performance. cbn [performance].
      rewrite get_set_other by congruence. exact IH.
    + (* alert tick *)
      rewrite app_nil_r.
      destruct (startAlertSystem_tick_frame now md) as [_ Hp]. rewrite Hp.
      exact IH.
Qed.

(** C4, as amended.  For every queue (the key "system" of the table is
    not a queue) and every sequence of operations on the fresh store, the
    entry of the queue, which exists as soon as the queue has a
    "completed" event, holds in [jobCount] the number of completed jobs
    whose two timestamps are present and other than zero, and in
    [avgProcessingTime] the total divided by the count when the count is
    positive and 0 when it is 0.  When the jobs of the "completed" events
    have the backend's timestamps (absent, or integer epoch milliseconds,
    the running total staying a safe integer), [totalProcessingTime] is
    the sum of [processedOn - timestamp] over exactly those jobs, and
    the average is the double nearest to their arithmetic mean. *)
Theorem avgProcessingTime_is_mean :
  forall (queueName : string) (ops : list Op),
    queueName <> "system" ->
    let md := run ops monitoringData0 in
    let m := metricsOrNew queueName md in
    let times := recordedTimes queueName ops in
    (completedJobs queueName ops <> [] ->
     getPerformanceMetrics queueName md = Some m)
    /\ pm_jobCount m = ofNat (length times)
    /\ pm_avgProcessingTime m
       = (if (0 <? length times)%nat
          then div (pm_totalProcessingTime m) (pm_jobCount m)
          else Num 0%Qc)
    /\ (exactTimes (completedJobs queueName ops) = true ->
        pm_totalProcessingTime m = Num (sumQc times)
        /\ pm_avgProcessingTime m = roundDouble (mean times)).
Proof.
  intros queueName ops Hsys md m times.
  pose proof (records_run queueName ops Hsys) as H.
  fold md in H.
  assert (Hrec : records m (completedJobs queueName ops)).
  { apply records_metricsOrNew. exact H. }
  split.
  - intros Hne. subst m. unfold metricsOrNew, getPerformanceMetrics.
    destruct (get queueName (performance md)); [reflexivity |].
    contradiction.
  - destruct Hrec as (Hcount & Hratio & Hexact).
    fold (recordedTimes queueName ops) in Hcount, Hratio, Hexact.
    fold times in Hcount, Hratio, Hexact.
    split; [exact Hcount |]. split; [exact Hratio |].
    intros Hjobs. unfold exactTimes in Hjobs. apply andb_true_iff in Hjobs.
    destruct Hjobs as [Hjobs _]. exact (Hexact Hjobs).
Qed.
Lemma avgProcessingTime_is_mean_witness :
  let ops :=
    [ OnCompleted "email-queue" (mkJob (Some "1") (Some "send") (ofZ 3000) (ofZ 2000)) 3000;
      OnFailed "email-queue" (mkJob (Some "2") (Some "send") Undef (ofZ 1500))
               (Some (mkError (Text "smtp down"))) 3500;
      OnCompleted "email-queue" (mkJob (Some "3") (Some "send") Undef (ofZ 2000)) 4000;
      PerformanceTick 60000;
      OnCompleted "email-queue" (mkJob (Some "4") (Some "send") (ofZ 9000) (ofZ 5000)) 9000;
      OnCompleted "email-queue" (mkJob (Some "5") (Some "send") (ofZ 6000) (ofZ 0)) 9500;
      OnCompleted "email-queue" (mkJob (Some "6") (Some "send") (ofZ 15000) (ofZ 10000)) 15000 ] in
  let m := metricsOrNew "email-queue" (run ops monitoringData0) in
  "email-queue" <> "system"
  /\ exactTimes (completedJobs "email-queue" ops) = true
  /\ recordedTimes "email-queue" ops = [Zc 1000; Zc 4000; Zc 5000]
  /\ roundDouble (mean (recordedTimes "email-queue" ops))
     = Num (Zc 7330077518506667 / Zc 2199023255552)%Qc
  /\ pm_jobCount m = ofNat (length (recordedTimes "email-queue" ops))
  /\ pm_avgProcessingTime m = roundDouble (mean (recordedTimes "email-queue" ops)).
Proof.
  intros ops m.
  assert (H1 : "email-queue" <> "system") by discriminate.
  assert (H2 : exactTimes (completedJobs "email-queue" ops) = true)
    by (vm_compute; reflexivity).
  split; [exact H1 |]. split; [exact H2 |].
  split; [vm_compute; repeat f_equal; apply Qc_is_canon; reflexivity |].
  split; [vm_compute; f_equal; apply Qc_is_canon; reflexivity |].
  split.
  - exact (proj1 (proj2 (avgProcessingTime_is_mean "email-queue" ops H1))).
  - exact (proj2 (proj2 (proj2 (proj2
             (avgProcessingTime_is_mean "email-queue" ops H1))) H2)).
Defined.

(** C4 as stated fails on the code.  A completed job with
    [processedOn = 5000] and [timestamp = 0] carries both timestamps, but
    the guard of [updatePerformanceMetrics] is a truthiness test and [0]
    does not pass it: nothing is recorded, and the average stays 0 where
    the mean of the processing times of the jobs that carried both is
    5000.  And for the processing times 1000, 4000 and 5000 the stored
    average is the double 3333.3333333333335, not the mean 10000/3. *)
Lemma avgProcessingTime_skips_zero_timestamp :
  let job := mkJob (Some "1") (Some "send") (ofZ 5000) (ofZ 0) in
  let ops := [OnCompleted "email-queue" job 5000] in
  let m := metricsOrNew "email-queue" (run ops monitoringData0) in
  let jobs :=
    [ mkJob (Some "1") (Some "send") (ofZ 3000) (ofZ 2000);
      mkJob (Some "2") (Some "send") (ofZ 9000) (ofZ 5000);
      mkJob (Some "3") (Some "send") (ofZ 15000) (ofZ 10000) ] in
  let ops3 := map (fun j => OnCompleted "email-queue" j 20000) jobs in
  let m3 := metricsOrNew "email-queue" (run ops3 monitoringData0) in
  (carriesBoth job = true
   /\ map processingTime (filter carriesBoth (completedJobs "email-queue" ops))
      = [Zc 5000]
   /\ getPerformanceMetrics "email-queue" (run ops monitoringData0) = Some m
   /\ pm_completed m = ofZ 1
   /\ pm_jobCount m = ofZ 0
   /\ pm_avgProcessingTime m = ofZ 0
   /\ pm_avgProcessingTime m
      <> Num (mean (map processingTime
                       (filter carriesBoth (completedJobs "email-queue" ops)))))
  /\ (map processingTime (filter carriesBoth (completedJobs "email-queue" ops3))
      = [Zc 1000; Zc 4000; Zc 5000]
      /\ pm_totalProcessingTime m3 = ofZ 10000
      /\ pm_jobCount m3 = ofZ 3
      /\ pm_avgProcessingTime m3
         = Num (Zc 7330077518506667 / Zc 2199023255552)%Qc
      /\ pm_avgProcessingTime m3 <> Num (Zc 10000 / Zc 3)%Qc).
Proof.
  intros job ops m jobs ops3 m3.
  assert (Hcanon : forall a b : Qc, Qeq_bool a b = true -> a = b).
  { intros a b E. apply Qc_is_canon, Qeq_bool_iff, E. }
  assert (Hneq : forall a b : Qc, Qeq_bool a b = false -> Num a <> Num b).
  { intros a b E H.
    assert (Hab : a = b)
      by exact (f_equal (fun v => match v with Num x => x | _ => 0%Qc end) H).
    rewrite Hab in E.
    assert (Qeq_bool b b = true) by (apply Qeq_bool_iff; reflexivity).
    congruence. }
  split.
  - split; [reflexivity |].
    split; [vm_compute; repeat f_equal; apply Qc_is_canon; reflexivity |].
    split; [vm_compute; reflexivity |].
    split; [vm_compute; f_equal; apply Qc_is_canon; reflexivity |].
    split; [vm_compute; f_equal; apply Qc_is_canon; reflexivity |].
    split; [vm_compute; f_equal; apply Qc_is_canon; reflexivity |].
    assert (E : pm_avgProcessingTime m = Num 0%Qc)
      by (vm_compute; f_equal; apply Qc_is_canon; reflexivity).
    rewrite E. apply Hneq. vm_compute. reflexivity.
  - split; [vm_compute; repeat f_equal; apply Qc_is_canon; reflexivity |].
    split; [vm_compute; f_equal; apply Qc_is_canon; reflexivity |].
    split; [vm_compute; f_equal; apply Qc_is_canon; reflexivity |].
    assert (E : pm_avgProcessingTime m3
                = Num (Zc 7330077518506667 / Zc 2199023255552)%Qc)
      by (vm_compute; f_equal; apply Qc_is_canon; reflexivity).
    split; [exact E |].
    rewrite E. apply Hneq. vm_compute. reflexivity.
Qed.

(** ** C5: "failed" events only count failures *)

Lemma metricsOrNew_failed queueName job err now md :
  metricsOrNew queueName (step md (OnFailed queueName job err now))
  = set_failed (incr (pm_failed (metricsOrNew queueName md)))
               (metricsOrNew queueName md).
Proof.
  unfold metricsOrNew at 1, getPerformanceMetrics. cbn [step].
  rewrite checkForAlerts_performance, updatePerformanceMetrics_failed.
  reflexivity.
Qed.

Lemma incr_Num (f : Qc) : incr (Num f) = Num (f + 1)%Qc.
Proof. reflexivity. Qed.

(** C5.  For every queue whose entry (the existing one, or the zeroed
    one its first event creates) has a numeric failed count [f], and for
    every list of N "failed" events of that queue, whatever their jobs,
    errors and times: afterwards the failed count is [f + N], and
    [completed], [totalProcessingTime], [jobCount] and
    [avgProcessingTime] are what they were. *)
Theorem failed_events_only_count_failures :
  forall (queueName : string) (calls : list (Job * option JsError * Z))
         (md : MonitoringData) (f : Qc),
    pm_failed (metricsOrNew queueName md) = Num f ->
    let m0 := metricsOrNew queueName md in
    let m := metricsOrNew queueName (run (map (failedOp queueName) calls) md) in
    pm_failed m = Num (f + Zc (Z.of_nat (length calls)))%Qc
    /\ pm_completed m = pm_completed m0
    /\ pm_totalProcessingTime m = pm_totalProcessingTime m0
    /\ pm_jobCount m = pm_jobCount m0
    /\ pm_avgProcessingTime m = pm_avgProcessingTime m0.
Proof.
  intros queueName calls. induction calls as [| [[job err] now] calls IH];
    intros md f Hf m0 m.
  - subst m m0. cbn [map run fold_left length]. rewrite Hf.
    repeat split. f_equal. change (Zc (Z.of_nat 0)) with 0%Qc. ring.
  - subst m m0. cbn [map run fold_left failedOp].
    fold (run (map (failedOp queueName) calls)
              (step md (OnFailed queueName job err now))).
    specialize (IH (step md (OnFailed queueName job err now)) (f + 1)%Qc).
    rewrite metricsOrNew_failed in IH at 1.
    cbn [pm_failed set_failed] in IH. rewrite Hf, incr_Num in IH.
    specialize (IH eq_refl). cbv zeta in IH.
    rewrite metricsOrNew_failed in IH.
    destruct IH as (H1 & H2 & H3 & H4 & H5).
    rewrite H1, H2, H3, H4, H5. repeat split.
    f_equal. cbn [length]. rewrite Nat2Z.inj_succ, <- Z.add_1_r, Zc_add.
    change (Zc 1) with 1%Qc. ring.
Qed.

Lemma failed_events_only_count_failures_witness :
  let calls :=
    [ (mkJob (Some "1") (Some "send") Undef (ofZ 1000), Some (mkError (Text "boom")), 1100%Z);
      (mkJob (Some "2") (Some "send") Undef (ofZ 2000), None, 2100%Z);
      (mkJob (Some "3") (Some "send") Undef (ofZ 3000), Some (mkError (Text "boom")), 3100%Z) ] in
  pm_failed (metricsOrNew "email-queue" monitoringData0) = Num 0%Qc
  /\ pm_failed (metricsOrNew "email-queue"
                  (run (map (failedOp "email-queue") calls) monitoringData0))
     = Num (0 + Zc (Z.of_nat 3))%Qc.
Proof.
  intros calls. split; [reflexivity |].
  refine (proj1 (failed_events_only_count_failures "email-queue" calls
                   monitoringData0 0%Qc _)).
  reflexivity.
Defined.

(** ** The rollup and the performance pass on per-queue entries

    What C6 and C7 say does hold as long as the table holds per-queue
    entries only, that is, until the first rollup has written its own
    entry. *)

Lemma fold_totalJobs (vals : list PerfEntry) :
  forall (cs fs : list Z) (a : Z),
    map pm_completed vals = map ofZ cs ->
    map pm_failed vals = map ofZ fs ->
    fold_left (fun sum metrics => add (add sum (pm_completed metrics)) (pm_failed metrics))
              vals (ofZ a)
    = ofZ (a + (sumZ cs + sumZ fs)).
Proof.
  induction vals as [| m vals IH]; intros cs fs a Hc Hf;
    destruct cs as [| c cs]; destruct fs as [| f fs]; simpl in *;
    try discriminate.
  - f_equal. lia.
  - injection Hc as Hc1 Hc2. injection Hf as Hf1 Hf2.
    rewrite Hc1, Hf1, !add_ofZ, (IH cs fs _ Hc2 Hf2). f_equal. lia.
Qed.

(** The rollup of a table whose entries hold integer counts: the total
    is the sum of the completed and failed counts. *)
Lemma rollup_totalJobs now md (cs fs : list Z) :
  map pm_completed (values (performance md)) = map ofZ cs ->
  map pm_failed (values (performance md)) = map ofZ fs ->
  option_map pm_totalJobs
    (getPerformanceMetrics "system" (startPerformanceMonitoring_tick now md))
  = Some (ofZ (sumZ cs + sumZ fs)).
Proof.
  intros Hc Hf.
  unfold getPerformanceMetrics, startPerformanceMonitoring_tick, set_performance.
  cbn [performance]. rewrite get_set_same. cbn [option_map systemEntry pm_totalJobs].
  change (Num 0%Qc) with (ofZ 0) at 1.
  rewrite (fold_totalJobs _ cs fs 0 Hc Hf). reflexivity.
Qed.

Lemma checkPerformanceAlerts_calls now md :
  checkPerformanceAlerts now md
  = fold_left raise (flat_map (performanceCalls now) (entries (performance md))) md.
Proof.
  unfold checkPerformanceAlerts.
  generalize (entries (performance md)) as l. generalize md as a.
  intros a l. revert a. induction l as [| [queueName metrics] l IH]; intros a;
    [reflexivity |].
  cbn [fold_left flat_map]. rewrite fold_left_app, IH. f_equal.
  unfold performanceCalls.
  destruct (gt (pm_avgProcessingTime metrics) (ofZ 30000));
    destruct (gt (add (pm_completed metrics) (pm_failed metrics)) (ofZ 0)
              && gt (div (pm_failed metrics)
                         (add (pm_completed metrics) (pm_failed metrics)))
                    lit_0_2);
    reflexivity.
Qed.

(** The literal [0.2] and the next double above it. *)
Lemma lit_0_2_value :
  lit_0_2 = Num (Zc 3602879701896397 / Zc 18014398509481984)%Qc.
Proof. vm_compute. apply f_equal, Qc_is_canon. reflexivity. Qed.

Lemma nearest_fifth :
  nearest (Zc 2 / Zc 10)%Qc = (Zc 3602879701896397 / Zc 18014398509481984)%Qc.
Proof. apply Qc_is_canon. vm_compute. reflexivity. Qed.

Lemma nearest_above_fifth :
  nearest (Zc 7205759403792795 / Zc 36028797018963968)%Qc
  = (Zc 7205759403792795 / Zc 36028797018963968)%Qc.
Proof. apply Qc_is_canon. vm_compute. reflexivity. Qed.

Lemma nearest_1 : nearest 1%Qc = 1%Qc.
Proof. apply Qc_is_canon. vm_compute. reflexivity. Qed.

Lemma finite_1 : Qle_bool (pow2 1024) (nearest 1%Qc) = false.
Proof. vm_compute. reflexivity. Qed.

(** The quotient of two counts, the divisor positive and the dividend no
    larger: the double nearest to the ratio. *)
Lemma div_counts (f t : Z) :
  (0 <= f <= t)%Z -> (0 < t)%Z ->
  div (ofZ f) (ofZ t) = Num (nearest (Zc f / Zc t)%Qc).
Proof.
  intros Hf Ht. unfold div, ofZ. cbn [toNumber].
  change 0%Qc with (Zc 0). rewrite Qceqb_Zc.
  replace (t =? 0)%Z with false by (symmetry; apply Z.eqb_neq; lia).
  apply roundDouble_Num with (b := 1%Qc); [| | exact finite_1].
  - change 0%Qc with (Zc 0 / Zc 1)%Qc. apply Zc_div_le; lia.
  - change 1%Qc with (Zc 1 / Zc 1)%Qc. apply Zc_div_le; lia.
Qed.

(** On integer counts (up to 2^52 jobs) the failure test of the pass is
    the integer test [0 < completed + failed] and
    [completed + failed < 5 * failed]: rounding the ratio and the literal
    [0.2] to doubles does not change its outcome. *)
Lemma failure_ratio_test (c f : nat) :
  (Z.of_nat (c + f) <= 2 ^ 52)%Z ->
  gt (add (ofNat c) (ofNat f)) (ofZ 0)
  && gt (div (ofNat f) (add (ofNat c) (ofNat f))) lit_0_2
  = ((0 <? c + f)%nat && (c + f <? 5 * f)%nat).
Proof.
  intros Hbound.
  unfold ofNat. rewrite add_ofZ, gt_ofZ.
  destruct (Z.ltb_spec 0 (Z.of_nat c + Z.of_nat f)) as [Hpos | Hzero].
  - replace (0 <? c + f)%nat with true by (symmetry; apply Nat.ltb_lt; lia).
    cbn [andb]. rewrite div_counts by lia.
    rewrite lit_0_2_value. unfold gt. cbn [toNumber].
    remember (Z.of_nat c + Z.of_nat f)%Z as t eqn:Ht.
    destruct (Nat.ltb_spec (c + f) (5 * f)) as [Hlt | Hge].
    + apply Qcltb_true.
      apply Qclt_le_trans
        with (nearest (Zc 7205759403792795 / Zc 36028797018963968)%Qc).
      * rewrite nearest_above_fifth. reflexivity.
      * apply nearest_le, Zc_div_le; lia.
    + apply Qcltb_false. rewrite <- nearest_fifth.
      apply nearest_le, Zc_div_le; lia.
  - replace (0 <? c + f)%nat with false by (symmetry; apply Nat.ltb_ge; lia).
    reflexivity.
Qed.

Lemma queueEntry_new : queueEntry newMetrics.
Proof. exists 0%nat, 0%nat, 0%nat. repeat split; lia. Qed.

Lemma queueEntry_update event job m :
  queueEntry m ->
  queueEntry
    (if String.eqb event "completed" then
       let m1 := set_completed (incr (pm_completed m)) m in
       if truthy (job_processedOn job) && truthy (job_timestamp job) then
         let processingTime := sub (job_processedOn job) (job_timestamp job) in
         let m2 := set_totalProcessingTime
                     (add (pm_totalProcessingTime m1) processingTime) m1 in
         let m3 := set_jobCount (incr (pm_jobCount m2)) m2 in
         set_avgProcessingTime
           (div (pm_totalProcessingTime m3) (pm_jobCount m3)) m3
       else m1
     else if String.eqb event "failed" then
       set_failed (incr (pm_failed m)) m
     else m).
Proof.
  intros (c & f & n & Hc & Hf & Hn & Hle & Havg).
  destruct (String.eqb event "completed").
  - cbv zeta.
    destruct (truthy (job_processedOn job) && truthy (job_timestamp job)).
    + exists (S c), f, (S n).
      cbn [pm_completed pm_failed pm_jobCount pm_avgProcessingTime
           set_completed set_totalProcessingTime set_jobCount
           set_avgProcessingTime].
      rewrite Hc, Hn, !incr_ofNat. repeat split; try assumption; lia.
    + exists (S c), f, n.
      cbn [pm_completed pm_failed pm_jobCount pm_avgProcessingTime set_completed].
      rewrite Hc, incr_ofNat. repeat split; try assumption; lia.
  - destruct (String.eqb event "failed").
    + exists c, (S f), n.
      cbn [pm_completed pm_failed pm_jobCount pm_avgProcessingTime set_failed].
      rewrite Hf, incr_ofNat. repeat split; try assumption; lia.
    + exists c, f, n. repeat split; assumption.
Qed.

Lemma queueEntries_updatePerformanceMetrics queueName event job md :
  queueEntries md -> queueEntries (updatePerformanceMetrics queueName event job md).
Proof.
  intros Hmd q m Hsys Hget.
  unfold updatePerformanceMetrics, set_performance in Hget. cbn [performance] in Hget.
  destruct (String.eqb_spec queueName q) as [-> | Hne].
  - rewrite get_set_same in Hget. injection Hget as <-.
    apply queueEntry_update.
    destruct (get q (performance md)) as [m0 |] eqn:E.
    + apply (Hmd q m0 Hsys E).
    + apply queueEntry_new.
  - rewrite get_set_other in Hget by exact Hne. apply (Hmd q m Hsys Hget).
Qed.

Lemma queueEntries_step op md : queueEntries md -> queueEntries (step md op).
Proof.
  intros Hmd. destruct op; cbn [step]; try exact Hmd.
  - apply queueEntries_updatePerformanceMetrics. exact Hmd.
  - intros q m Hsys Hget. rewrite checkForAlerts_performance in Hget.
    revert q m Hsys Hget. apply queueEntries_updatePerformanceMetrics. exact Hmd.
  - destruct r; exact Hmd.
  - intros q m Hsys Hget.
    unfold startPerformanceMonitoring_tick, set_performance in Hget.
    cbn [performance] in Hget.
    rewrite get_set_other in Hget by congruence. apply (Hmd q m Hsys Hget).
  - intros q m Hsys Hget.
    destruct (startAlertSystem_tick_frame now md) as [_ Hp].
    rewrite Hp in Hget. apply (Hmd q m Hsys Hget).
Qed.

Lemma queueEntries_run ops : queueEntries (run ops monitoringData0).
Proof.
  unfold run. apply fold_left_preserves.
  - intros a b. apply queueEntries_step.
  - intros q m _ Hget. discriminate.
Qed.

(** For a per-queue entry the pass makes a call exactly for a slow
    average and, with up to 2^52 jobs counted, for a failure ratio above
    one fifth, and none at all when the queue has neither completed nor
    failed jobs. *)
Lemma performanceCalls_queueEntry now queueName m :
  queueEntry m ->
  exists c f : nat,
    pm_completed m = ofNat c /\ pm_failed m = ofNat f
    /\ ((Z.of_nat (c + f) <= 2 ^ 52)%Z ->
        performanceCalls now (queueName, m)
        = (if gt (pm_avgProcessingTime m) (ofZ 30000)
           then [(queueName, "slow-processing",
                  Some (mkError (SlowAverage (pm_avgProcessingTime m))), now)]
           else [])
          ++ (if (0 <? c + f)%nat && (c + f <? 5 * f)%nat
              then [(queueName, "high-failure-rate",
                     Some (mkError (FailurePercent
                                      (div (ofNat f) (add (ofNat c) (ofNat f))))), now)]
              else []))
    /\ ((c + f = 0)%nat -> performanceCalls now (queueName, m) = []).
Proof.
  intros (c & f & n & Hc & Hf & Hn & Hle & Havg).
  exists c, f. split; [exact Hc |]. split; [exact Hf |].
  unfold performanceCalls. rewrite Hc, Hf.
  split; [intros Hbound; rewrite failure_ratio_test by exact Hbound; reflexivity |].
  intros Hzero. rewrite failure_ratio_test by lia. rewrite Havg by lia.
  replace (0 <? c + f)%nat with false by (symmetry; apply Nat.ltb_ge; lia).
  change (Num 0%Qc) with (ofZ 0). rewrite gt_ofZ. reflexivity.
Qed.

(** ** C6: the system entry of the performance table *)

(** Evaluation of a closed equation between numbers. *)
Ltac eval_jsnum :=
  vm_compute;
  first [ reflexivity
        | apply f_equal; apply Qc_is_canon; vm_compute; reflexivity ].

(** C6.  The rollup is right on its first run and wrong afterwards,
    because it folds over the entry it wrote itself.  After a completed
    job of 2000 ms, a rollup, a completed job of 6000 ms and a second
    rollup, the table holds one queue, with 2 completed and 0 failed jobs
    and an average of 4000 ms; the first rollup had written 1 job and
    2000 ms, but the second writes [NaN] for the total number of jobs
    (not 2) and 3000 ms for the cross-queue average (not 4000). *)
Theorem system_entry_counts_itself :
  let job1 := mkJob (Some "1") (Some "send") (ofZ 3000) (ofZ 1000) in
  let job2 := mkJob (Some "2") (Some "send") (ofZ 70000) (ofZ 64000) in
  let md1 := run [OnCompleted "email-queue" job1 3000; PerformanceTick 60000]
                 monitoringData0 in
  let md2 := run [OnCompleted "email-queue" job2 70000; PerformanceTick 120000] md1 in
  keys (performance md2) = ["email-queue"; "system"]
  /\ (exists m, getPerformanceMetrics "email-queue" md2 = Some m
                /\ pm_completed m = ofZ 2 /\ pm_failed m = ofZ 0
                /\ pm_avgProcessingTime m = ofZ 4000)
  /\ (exists s, getPerformanceMetrics "system" md1 = Some s
                /\ pm_totalJobs s = ofZ 1 /\ pm_avgProcessingTime s = ofZ 2000)
  /\ (exists s, getPerformanceMetrics "system" md2 = Some s
                /\ pm_totalJobs s = NaN /\ pm_avgProcessingTime s = ofZ 3000).
Proof.
  intros job1 job2 md1 md2.
  split; [vm_compute; reflexivity |].
  split; [| split].
  - exists (metricsOrNew "email-queue" md2).
    split; [vm_compute; reflexivity |].
    repeat split; eval_jsnum.
  - exists (metricsOrNew "system" md1).
    split; [vm_compute; reflexivity |].
    repeat split; eval_jsnum.
  - exists (metricsOrNew "system" md2).
    split; [vm_compute; reflexivity |].
    split; [vm_compute; reflexivity |].
    eval_jsnum.
Qed.

(** ** C7: the performance pass of the alert timer *)

(** C7.  The pass also runs over the system entry, which has no
    [completed] and no [failed] property.  After one completed job of
    40000 ms and a rollup, the pass appends a "slow-processing" alert for
    "email-queue" and a second one for "system", although the sum
    [completed + failed] of that entry is [NaN] and not greater than 0. *)
Theorem performance_pass_alerts_on_system_entry :
  let job := mkJob (Some "1") (Some "resize") (ofZ 41000) (ofZ 1000) in
  let md := run [OnCompleted "image-processing-queue" job 41000;
                 PerformanceTick 60000] monitoringData0 in
  alerts md = []
  /\ map (fun a => (al_queueName a, al_event a))
         (alerts (checkPerformanceAlerts 70000 md))
     = [ ("image-processing-queue", "slow-processing");
         ("system", "slow-processing") ]
  /\ exists s, getPerformanceMetrics "system" md = Some s
               /\ pm_completed s = Undef /\ pm_failed s = Undef
               /\ gt (add (pm_completed s) (pm_failed s)) (ofZ 0) = false.
Proof.
  intros job md.
  split; [vm_compute; reflexivity |].
  split; [vm_compute; reflexivity |].
  exists (metricsOrNew "system" md).
  repeat split; vm_compute; reflexivity.
Qed.

(** ** C8: [removeRecurringJob] *)

Import Scheduler.

Lemma find_filter_key_none name key (jobs : list RepeatableJob) :
  (forall j, In j jobs -> rj_name j = name -> rj_key j = key) ->
  find (fun job => String.eqb (rj_name job) name)
       (filter (fun j => negb (String.eqb (rj_key j) key)) jobs) = None.
Proof.
  intros H. induction jobs as [| j jobs IH]; simpl; [reflexivity |].
  assert (IH' := IH (fun j' Hin => H j' (or_intror Hin))).
  destruct (String.eqb_spec (rj_key j) key) as [Hk | Hk]; simpl; [exact IH' |].
  destruct (String.eqb_spec (rj_name j) name) as [Hn | Hn]; [| exact IH'].
  exfalso. apply Hk, H; [left; reflexivity | exact Hn].
Qed.

(** C8 (amended).  Whenever the backend answers: if the list it returns
    has an entry named [name], [removeRecurringJob] removes what is stored
    under the key of the first such entry and returns true; a second call
    for the same name then returns false provided every entry of that
    name was stored under that key (in particular when the name was
    unique).  If the list has no entry named [name], the call returns
    false, throws nothing and leaves the backend as it was. *)
Theorem removeRecurringJob_removes_first_match :
  forall (name : string) (q : RecurringQueue),
    failing q = None ->
    match find (fun job => String.eqb (rj_name job) name) (repeatables q) with
    | Some job =>
        rj_name job = name
        /\ removeRecurringJob name q
           = (Returned true,
              mkQueue (filter (fun j => negb (String.eqb (rj_key j) (rj_key job)))
                              (repeatables q))
                      None)
        /\ ((forall j, In j (repeatables q) -> rj_name j = name ->
                       rj_key j = rj_key job) ->
            fst (removeRecurringJob name (snd (removeRecurringJob name q)))
            = Returned false)
    | None => removeRecurringJob name q = (Returned false, q)
    end.
Proof.
  intros name q Hup.
  destruct (find (fun job => String.eqb (rj_name job) name) (repeatables q))
    as [job |] eqn:Hfind.
  - assert (Hrm : removeRecurringJob name q
                  = (Returned true,
                     mkQueue (filter (fun j => negb (String.eqb (rj_key j) (rj_key job)))
                                     (repeatables q))
                             None)).
    { unfold removeRecurringJob, getRepeatableJobs, removeRepeatableByKey.
      rewrite Hup, Hfind. reflexivity. }
    split; [| split].
    + apply find_some in Hfind. destruct Hfind as [_ Hn].
      apply String.eqb_eq, Hn.
    + exact Hrm.
    + intros Hsame. rewrite Hrm. cbn [snd].
      unfold removeRecurringJob, getRepeatableJobs. cbn [failing repeatables].
      rewrite (find_filter_key_none name (rj_key job) _ Hsame). reflexivity.
  - unfold removeRecurringJob, getRepeatableJobs. rewrite Hup, Hfind. reflexivity.
Qed.

Lemma removeRecurringJob_removes_first_match_witness :
  let q := mkQueue [ mkRepeatable "daily-cleanup" "daily-cleanup:::0 2 * * *"
                                  "0 2 * * *" 7200000 None;
                     mkRepeatable "nightly" "nightly:::0 2 * * *"
                                  "0 2 * * *" 7200000 None ] None in
  failing q = None
  /\ fst (removeRecurringJob "nightly" q) = Returned true
  /\ fst (removeRecurringJob "nightly" (snd (removeRecurringJob "nightly" q)))
     = Returned false.
Proof.
  intros q. split; [reflexivity |].
  pose proof (removeRecurringJob_removes_first_match "nightly" q eq_refl) as H.
  cbn -[removeRecurringJob] in H. destruct H as (_ & Hrm & Hagain).
  split.
  - exact (f_equal fst Hrm).
  - apply Hagain. intros j [Hj | [Hj | []]] Hname; subst j;
      [discriminate | reflexivity].
Defined.

(** C8, as stated, fails when two schedules share a name: both were
    added under the name "nightly" with different patterns, hence under
    different keys, and the second removal returns true again. *)
Lemma removeRecurringJob_twice_true :
  let q := mkQueue [ mkRepeatable "nightly" "nightly:::0 2 * * *"
                                  "0 2 * * *" 7200000 None;
                     mkRepeatable "nightly" "nightly:::0 3 * * *"
                                  "0 3 * * *" 10800000 None ] None in
  fst (removeRecurringJob "nightly" q) = Returned true
  /\ fst (removeRecurringJob "nightly" (snd (removeRecurringJob "nightly" q)))
     = Returned true
  /\ fst (removeRecurringJob "nightly" (snd (removeRecurringJob "nightly" q)))
     <> Returned false.
Proof.
  intros q. vm_compute. repeat split. discriminate.
Qed.

(** ** C9: the events route *)

Lemma slice_prefix {A : Type} (n : Z) (l : list A) :
  (0 <= n)%Z -> JsArray.slice 0 (Some n) l = firstn (Z.to_nat n) l.
Proof.
  intros Hn. unfold JsArray.slice.
  assert (H0 : JsArray.rel_index (length l) 0 = 0%nat).
  { unfold JsArray.rel_index. simpl. lia. }
  assert (Hk : JsArray.rel_index (length l) n = Nat.min (Z.to_nat n) (length l)).
  { unfold JsArray.rel_index. destruct (Z.ltb_spec n 0); lia. }
  rewrite H0, Hk, Nat.sub_0_r. simpl skipn.
  destruct (Nat.le_gt_cases (Z.to_nat n) (length l)) as [H | H].
  - rewrite Nat.min_l by exact H. reflexivity.
  - rewrite Nat.min_r by lia. rewrite !firstn_all2; [reflexivity | lia | lia].
Qed.

Lemma insert_perm {A : Type} (cmp : A -> A -> Z) (x : A) (l : list A) :
  Permutation (JsArray.insert cmp x l) (x :: l).
Proof.
  induction l as [| y r IH]; simpl; [reflexivity |].
  destruct (cmp x y <=? 0)%Z; [reflexivity |].
  rewrite IH. apply perm_swap.
Qed.

Lemma sort_perm {A : Type} (cmp : A -> A -> Z) (l : list A) :
  Permutation (JsArray.sort cmp l) l.
Proof.
  induction l as [| x r IH]; simpl; [reflexivity |].
  rewrite insert_perm, IH. reflexivity.
Qed.

Lemma insert_newestFirst (x : QueueEvent) (l : list QueueEvent) :
  newestFirst l -> newestFirst (JsArray.insert byTimestampDesc x l).
Proof.
  unfold newestFirst. induction l as [| y r IH]; simpl; intros Hl.
  - constructor; constructor.
  - inversion Hl as [| ? ? Hr Hy]; subst.
    destruct (Z.leb_spec (byTimestampDesc x y) 0) as [Hc | Hc];
      unfold byTimestampDesc in Hc.
    + constructor; [exact Hl |].
      constructor; [unfold newerOrSame; lia |].
      apply Forall_impl with (P := newerOrSame y); [| exact Hy].
      unfold newerOrSame. intros z Hz. lia.
    + constructor; [apply IH, Hr |].
      apply (Permutation_Forall (Permutation_sym (insert_perm _ x r))).
      constructor; [unfold newerOrSame; lia | exact Hy].
Qed.

Lemma sort_newestFirst (l : list QueueEvent) :
  newestFirst (JsArray.sort byTimestampDesc l).
Proof.
  induction l as [| x r IH]; simpl.
  - constructor.
  - apply insert_newestFirst, IH.
Qed.

Lemma Forall_firstn {A : Type} (P : A -> Prop) (n : nat) (l : list A) :
  Forall P l -> Forall P (firstn n l).
Proof.
  revert n. induction l as [| x r IH]; intros [| n] Hl; simpl; try constructor.
  - inversion Hl; assumption.
  - inversion Hl; subst. apply IH. assumption.
Qed.

Lemma firstn_newestFirst (n : nat) (l : list QueueEvent) :
  newestFirst l -> newestFirst (firstn n l).
Proof.
  unfold newestFirst. revert n. induction l as [| x r IH]; intros [| n] Hl;
    simpl; try constructor.
  - inversion Hl; subst. apply IH. assumption.
  - inversion Hl; subst. apply Forall_firstn. assumption.
Qed.

Lemma filter_insert_timestamp (t : Z) (x : QueueEvent) (l : list QueueEvent) :
  filter (fun e => (ev_timestamp e =? t)%Z) (JsArray.insert byTimestampDesc x l)
  = filter (fun e => (ev_timestamp e =? t)%Z) (x :: l).
Proof.
  induction l as [| y r IH]; [reflexivity |].
  cbn [JsArray.insert].
  destruct (Z.leb_spec (byTimestampDesc x y) 0) as [Hc | Hc]; [reflexivity |].
  unfold byTimestampDesc in Hc.
  cbn [filter] in *. rewrite IH.
  destruct (Z.eqb_spec (ev_timestamp y) t);
    destruct (Z.eqb_spec (ev_timestamp x) t); try reflexivity.
  lia.
Qed.

(** The sort is stable: events of one timestamp keep their order. *)
Lemma sort_stable (t : Z) (l : list QueueEvent) :
  filter (fun e => (ev_timestamp e =? t)%Z) (JsArray.sort byTimestampDesc l)
  = filter (fun e => (ev_timestamp e =? t)%Z) l.
Proof.
  induction l as [| x r IH]; [reflexivity |].
  cbn [JsArray.sort]. rewrite filter_insert_timestamp.
  cbn [filter]. rewrite IH. reflexivity.
Qed.

(** C9 (amended).  With a queue name and a limit of at least 1, the route
    returns the last [limit] events of the log of that queue, in the order
    they were logged (oldest first).  Without a queue name (or with the
    empty one) and with such a limit, it returns exactly the first
    [limit] events of [sorted], the events of all queues sorted by
    timestamp, newest first: [sorted] is a rearrangement of all events in
    which no event precedes a newer one and events of one timestamp keep
    their order.  Either answer has [limit] events, or all there are when
    these are fewer. *)
Theorem events_route_slices :
  forall (md : MonitoringData) (limit : Z),
    (1 <= limit)%Z ->
    (forall name : string,
        name <> "" ->
        events_route (Some name) (Some limit) md
        = lastn (Z.to_nat limit) (queueEvents name md)
        /\ length (events_route (Some name) (Some limit) md)
           = Nat.min (Z.to_nat limit) (length (queueEvents name md)))
    /\ (let sorted := JsArray.sort byTimestampDesc (allEvents md) in
        Permutation sorted (allEvents md)
        /\ newestFirst sorted
        /\ (forall t : Z,
               filter (fun e => (ev_timestamp e =? t)%Z) sorted
               = filter (fun e => (ev_timestamp e =? t)%Z) (allEvents md))
        /\ events_route None (Some limit) md = firstn (Z.to_nat limit) sorted
        /\ events_route (Some "") (Some limit) md = firstn (Z.to_nat limit) sorted
        /\ newestFirst (events_route None (Some limit) md)
        /\ length (events_route None (Some limit) md)
           = Nat.min (Z.to_nat limit) (length (allEvents md))).
Proof.
  intros md limit Hlimit. split.
  - intros name Hname. unfold events_route.
    destruct (String.eqb_spec name "") as [He | _]; [contradiction |].
    cbn [option_map JsArray.toInteger].
    replace (- limit)%Z with (- Z.of_nat (Z.to_nat limit))%Z by lia.
    rewrite slice_neg_lastn by lia.
    split; [reflexivity |]. rewrite lastn_length. reflexivity.
  - intros sorted.
    assert (Hroute : events_route None (Some limit) md
                     = firstn (Z.to_nat limit) sorted).
    { unfold events_route. cbn [JsArray.toInteger].
      rewrite slice_prefix by lia. reflexivity. }
    split; [apply sort_perm |].
    split; [apply sort_newestFirst |].
    split; [intros t; apply sort_stable |].
    split; [exact Hroute |].
    split; [exact Hroute |].
    rewrite Hroute.
    split; [apply firstn_newestFirst, sort_newestFirst |].
    rewrite length_firstn. unfold sorted.
    rewrite (Permutation_length (sort_perm byTimestampDesc (allEvents md))).
    reflexivity.
Qed.

Lemma events_route_slices_witness :
  let job := mkJob (Some "1") (Some "send") Undef (ofZ 900) in
  let md := run [ OnWaiting "email-queue" job 1000;
                  OnWaiting "priority-queue" job 1500;
                  OnActive "email-queue" job 2000 ] monitoringData0 in
  (1 <= 2)%Z
  /\ "email-queue" <> ""
  /\ map ev_timestamp (lastn (Z.to_nat 2) (queueEvents "email-queue" md))
     = [1000; 2000]%Z
  /\ events_route (Some "email-queue") (Some 2%Z) md
     = lastn (Z.to_nat 2) (queueEvents "email-queue" md)
  /\ map ev_timestamp (allEvents md) = [1000; 2000; 1500]%Z
  /\ map ev_timestamp
       (firstn (Z.to_nat 2) (JsArray.sort byTimestampDesc (allEvents md)))
     = [2000; 1500]%Z
  /\ events_route None (Some 2%Z) md
     = firstn (Z.to_nat 2) (JsArray.sort byTimestampDesc (allEvents md)).
Proof.
  intros job md.
  assert (H1 : (1 <= 2)%Z) by lia.
  assert (H2 : "email-queue" <> "") by discriminate.
  split; [exact H1 |]. split; [exact H2 |].
  split; [vm_compute; reflexivity |].
  split; [exact (proj1 (proj1 (events_route_slices md 2%Z H1) "email-queue" H2)) |].
  split; [vm_compute; reflexivity |].
  split; [vm_compute; reflexivity |].
  exact (proj1 (proj2 (proj2 (proj2 (proj2 (events_route_slices md 2%Z H1)))))).
Defined.

(** With a queue name and a limit of 0 the start index is [-0], that is
    0, and the route answers with the whole log. *)
Lemma events_route_queue_limit_zero (name : string) (md : MonitoringData) :
  name <> "" -> events_route (Some name) (Some 0%Z) md = queueEvents name md.
Proof.
  intros Hname. unfold events_route.
  destruct (String.eqb_spec name "") as [He | _]; [contradiction |].
  cbn [option_map JsArray.toInteger Z.opp].
  unfold JsArray.slice, JsArray.rel_index. cbn [Z.ltb Z.compare].
  replace (Z.to_nat (Z.min 0 (Z.of_nat (length (queueEvents name md))))) with 0%nat
    by lia.
  rewrite Nat.sub_0_r. apply firstn_all.
Qed.

(** C9, as stated, fails when a queue name is given: the slice is in
    logging order, oldest first.  With two events logged for
    "email-queue" at 1000 and at 2000 the route answers with the event of
    1000 first. *)
Lemma events_route_queue_oldest_first :
  let job := mkJob (Some "1") (Some "send") Undef (ofZ 900) in
  let md := run [ OnWaiting "email-queue" job 1000;
                  OnActive "email-queue" job 2000 ] monitoringData0 in
  map ev_timestamp (events_route (Some "email-queue") (Some 100%Z) md)
  = [1000; 2000]%Z
  /\ ~ newestFirst (events_route (Some "email-queue") (Some 100%Z) md).
Proof.
  intros job md. split; [vm_compute; reflexivity |].
  assert (E : events_route (Some "email-queue") (Some 100%Z) md
              = [ eventData "email-queue" "waiting" (Some job) None 1000;
                  eventData "email-queue" "active" (Some job) None 2000 ])
    by (vm_compute; reflexivity).
  rewrite E. intros Hsorted.
  inversion Hsorted as [| ? ? _ Hhd]; subst.
  inversion Hhd as [| ? ? Hle _]; subst.
  unfold newerOrSame, eventData in Hle. cbn [ev_timestamp] in Hle. lia.
Qed.

(* ===================================================================== *)
(** * Further properties *)
(* ===================================================================== *)

(** ** Alerts keep the severity of their event *)

Lemma Forall_lastn {A : Type} (P : A -> Prop) (n : nat) (l : list A) :
  Forall P l -> Forall P (lastn n l).
Proof.
  unfold lastn. generalize (length l - n)%nat as k. intros k. revert l.
  induction k as [| k IH]; intros l Hl; [exact Hl |].
  destruct l as [| x l]; [constructor |].
  simpl. apply IH. inversion Hl; assumption.
Qed.

Lemma severityFits_alertFor queueName event error now :
  severityFits (alertFor queueName event error now).
Proof.
  unfold severityFits, alertFor.
  destruct (String.eqb_spec event "failed") as [-> | Ef].
  - destruct error; reflexivity.
  - destruct (String.eqb_spec event "stalled") as [-> | Es]; [reflexivity |].
    destruct (String.eqb_spec event "error") as [-> | Ee]; [reflexivity |].
    apply String.eqb_neq in Ef, Es, Ee.
    cbn. rewrite Ef, Es, Ee. reflexivity.
Qed.

Lemma severityFits_checkForAlerts queueName event error now md :
  Forall severityFits (alerts md) ->
  Forall severityFits (alerts (checkForAlerts queueName event error now md)).
Proof.
  intros H. rewrite checkForAlerts_alerts. apply Forall_lastn.
  apply Forall_app. split; [exact H |].
  constructor; [apply severityFits_alertFor | constructor].
Qed.

Lemma severityFits_raise calls md :
  Forall severityFits (alerts md) ->
  Forall severityFits (alerts (fold_left raise calls md)).
Proof.
  apply (fold_left_preserves (fun a => Forall severityFits (alerts a))).
  intros a [[[queueName event] error] now]. apply severityFits_checkForAlerts.
Qed.

Lemma severityFits_step op md :
  Forall severityFits (alerts md) -> Forall severityFits (alerts (step md op)).
Proof.
  intros H. destruct op; cbn [step]; try exact H;
    try (apply severityFits_checkForAlerts; exact H).
  - destruct r; exact H.
  - unfold startAlertSystem_tick. rewrite checkPerformanceAlerts_calls.
    apply severityFits_raise.
    unfold checkQueueHealth.
    apply (fold_left_preserves (fun a => Forall severityFits (alerts a)));
      [| exact H].
    intros a [queueName status] Ha.
    repeat match goal with
           | |- context [if ?c then _ else _] => destruct c
           | |- Forall severityFits (alerts (checkForAlerts _ _ _ _ _)) =>
               apply severityFits_checkForAlerts
           end; exact Ha.
  - constructor.
Qed.

Lemma severityFits_run ops :
  Forall severityFits (alerts (run ops monitoringData0)).
Proof.
  unfold run.
  apply (fold_left_preserves (fun a => Forall severityFits (alerts a))).
  - intros a b. apply severityFits_step.
  - constructor.
Qed.

Lemma severityFits_cases (a : Alert) :
  severityFits a ->
  (al_severity a = "critical" <-> al_event a = "error")
  /\ (al_severity a = "error" <-> al_event a = "failed" /\ al_error a <> None)
  /\ (al_severity a = "warning" \/ al_severity a = "error"
      \/ al_severity a = "critical").
Proof.
  unfold severityFits. intros H.
  destruct (String.eqb_spec (al_event a) "failed") as [Ef | Ef].
  - destruct (al_error a) eqn:Eerr; rewrite H, Ef;
      intuition (try discriminate; try congruence).
  - destruct (String.eqb_spec (al_event a) "stalled") as [Es | Es].
    + rewrite H, Es. intuition (try discriminate; try congruence).
    + destruct (String.eqb_spec (al_event a) "error") as [Ee | Ee];
        rewrite H; intuition (try discriminate; try congruence).
Qed.

(** X1.  In every store reached from the initial one, every alert of the
    log still carries the severity its event kind and error gave it: it
    is "critical" exactly when it comes from an "error" event, "error"
    exactly when it comes from a "failed" event with an error, and
    otherwise "warning". *)
Theorem stored_alerts_keep_their_severity :
  forall (ops : list Op) (a : Alert),
    In a (alerts (run ops monitoringData0)) ->
    (al_severity a = "critical" <-> al_event a = "error")
    /\ (al_severity a = "error" <-> al_event a = "failed" /\ al_error a <> None)
    /\ (al_severity a = "warning" \/ al_severity a = "error"
        \/ al_severity a = "critical").
Proof.
  intros ops a Hin. apply severityFits_cases.
  pose proof (severityFits_run ops) as H. rewrite Forall_forall in H.
  apply H, Hin.
Qed.

Lemma stored_alerts_keep_their_severity_witness :
  let ops := [ OnError "email-queue" (Some (mkError (Text "redis down"))) 1000;
               AlertTick 2000 ] in
  let a := alertFor "email-queue" "error" (Some (mkError (Text "redis down"))) 1000 in
  In a (alerts (run ops monitoringData0))
  /\ (al_severity a = "critical" <-> al_event a = "error").
Proof.
  intros ops a.
  assert (Hin : In a (alerts (run ops monitoringData0))) by (left; reflexivity).
  split; [exact Hin |].
  exact (proj1 (stored_alerts_keep_their_severity ops a Hin)).
Defined.

(** ** The alert timer *)

Lemma checkQueueHealth_calls now md :
  checkQueueHealth now md
  = fold_left raise (flat_map (healthCalls now) (entries (queues md))) md.
Proof.
  unfold checkQueueHealth.
  generalize (entries (queues md)) as l. generalize md as a.
  intros a l. revert a. induction l as [| [queueName status] l IH]; intros a;
    [reflexivity |].
  cbn [fold_left flat_map]. rewrite fold_left_app, IH. f_equal.
  unfold healthCalls.
  destruct (gt (qs_failed status) (ofZ 10));
    destruct (gt (qs_waiting status) (ofZ 100));
    destruct (match qs_paused status with Some b => b | None => false end);
    reflexivity.
Qed.

Lemma startAlertSystem_tick_calls now md :
  startAlertSystem_tick now md = fold_left raise (tickCalls now md) md.
Proof.
  unfold startAlertSystem_tick, tickCalls.
  rewrite checkPerformanceAlerts_calls, fold_left_app.
  destruct (checkQueueHealth_frame now md) as [_ Hp]. rewrite Hp.
  rewrite checkQueueHealth_calls. reflexivity.
Qed.

Lemma healthCalls_warn now entry :
  Forall (fun c => al_severity (alertOfCall c) = "warning") (healthCalls now entry).
Proof.
  destruct entry as [queueName status]. unfold healthCalls.
  destruct (gt (qs_failed status) (ofZ 10));
    destruct (gt (qs_waiting status) (ofZ 100));
    destruct (match qs_paused status with Some b => b | None => false end);
    repeat constructor.
Qed.

Lemma performanceCalls_warn now entry :
  Forall (fun c => al_severity (alertOfCall c) = "warning")
         (performanceCalls now entry).
Proof.
  destruct entry as [queueName metrics]. unfold performanceCalls.
  destruct (gt (pm_avgProcessingTime metrics) (ofZ 30000));
    destruct (gt (add (pm_completed metrics) (pm_failed metrics)) (ofZ 0)
              && gt (div (pm_failed metrics)
                         (add (pm_completed metrics) (pm_failed metrics)))
                    lit_0_2);
    repeat constructor.
Qed.

Lemma Forall_flat_map {A B : Type} (P : B -> Prop) (f : A -> list B) (l : list A) :
  (forall x, Forall P (f x)) -> Forall P (flat_map f l).
Proof.
  intros H. induction l as [| x l IH]; simpl; [constructor |].
  apply Forall_app. split; [apply H | exact IH].
Qed.

Lemma tickCalls_warn now md :
  Forall (fun c => al_severity (alertOfCall c) = "warning") (tickCalls now md).
Proof.
  unfold tickCalls. apply Forall_app. split; apply Forall_flat_map.
  - apply healthCalls_warn.
  - apply performanceCalls_warn.
Qed.

Lemma count_skipn_le {A : Type} (f : A -> bool) (k : nat) (l : list A) :
  (length (filter f (skipn k l)) <= length (filter f l))%nat.
Proof.
  revert l. induction k as [| k IH]; intros l; [simpl; lia |].
  destruct l as [| x l]; [simpl; lia |].
  simpl. specialize (IH l). destruct (f x); simpl; lia.
Qed.

Lemma count_none {A : Type} (f : A -> bool) (l : list A) :
  Forall (fun x => f x = false) l -> filter f l = [].
Proof.
  induction 1 as [| x l Hx _ IH]; simpl; [reflexivity |].
  rewrite Hx. exact IH.
Qed.

Lemma criticalCount_raise calls md :
  Forall (fun c => al_severity (alertOfCall c) = "warning") calls ->
  (criticalCount (fold_left raise calls md) <= criticalCount md)%nat.
Proof.
  intros Hwarn. unfold criticalCount. rewrite raise_many_alerts.
  destruct calls as [| c calls]; [lia |].
  unfold lastn.
  etransitivity; [apply count_skipn_le |].
  rewrite filter_app, length_app.
  rewrite (count_none _ (map alertOfCall (c :: calls))); [simpl; lia |].
  apply Forall_map. apply Forall_impl with (2 := Hwarn).
  intros x Hx. rewrite Hx. reflexivity.
Qed.

(** X2.  One run of the alert timer amounts to the calls of
    [checkForAlerts] listed by [tickCalls], made in that order: for every
    snapshot the failed, waiting and paused tests, then for every entry of
    the performance table the slow and failure-ratio tests.  Every alert
    it appends has severity "warning", so the timer never increases the
    number of critical alerts in the log. *)
Theorem alert_timer_only_warns :
  forall (now : Z) (md : MonitoringData),
    startAlertSystem_tick now md = fold_left raise (tickCalls now md) md
    /\ Forall (fun c => al_severity (alertOfCall c) = "warning") (tickCalls now md)
    /\ (criticalCount (startAlertSystem_tick now md) <= criticalCount md)%nat.
Proof.
  intros now md. split; [apply startAlertSystem_tick_calls |].
  split; [apply tickCalls_warn |].
  rewrite startAlertSystem_tick_calls. apply criticalCount_raise, tickCalls_warn.
Qed.

(** ** Critical status comes with "error" events and goes with the log *)

Lemma criticalCount_last_critical older a md :
  alerts md = older ++ [a] -> al_severity a = "critical" ->
  (0 < criticalCount md)%nat.
Proof.
  intros Hlog Ha. unfold criticalCount. rewrite Hlog, filter_app, length_app.
  simpl. rewrite Ha. simpl. lia.
Qed.

Lemma lastn_app_long {A : Type} (n : nat) (l r : list A) :
  (n <= length r)%nat -> lastn n (l ++ r) = lastn n r.
Proof.
  intros H. unfold lastn. rewrite length_app, skipn_app.
  replace (length l + length r - n - length l)%nat with (length r - n)%nat by lia.
  rewrite skipn_all2 by lia. reflexivity.
Qed.

(** X3.  A backend "error" event makes the system status "critical" at
    once, whatever the store held.  The status stays "critical" while
    fewer than 50 further alerts are recorded, and once 50 or more alerts
    have been recorded after it, none of them for an "error" event, no
    critical alert is left: the status goes back to what the failed counts
    say. *)
Theorem critical_status_window :
  forall (queueName : string) (err : option JsError) (now t : Z)
         (md : MonitoringData) (calls : list AlertCall),
    let md1 := step md (OnError queueName err now) in
    sh_status (getSystemHealth t md1) = "critical"
    /\ ((length calls < 50)%nat ->
        sh_status (getSystemHealth t (fold_left raise calls md1)) = "critical")
    /\ ((50 <= length calls)%nat ->
        forallb (fun c => negb (String.eqb (callEvent c) "error")) calls = true ->
        criticalCount (fold_left raise calls md1) = 0%nat
        /\ sh_status (getSystemHealth t (fold_left raise calls md1)) <> "critical").
Proof.
  intros queueName err now t md calls md1.
  assert (Hlast : exists older,
             alerts md1 = older ++ [alertFor queueName "error" err now]).
  { unfold md1. cbn [step]. rewrite checkForAlerts_alerts.
    apply lastn_snoc_last. lia. }
  destruct Hlast as [older Hlast].
  assert (Hcrit : al_severity (alertFor queueName "error" err now) = "critical")
    by reflexivity.
  split; [| split].
  - apply getSystemHealth_critical.
    apply (criticalCount_last_critical _ _ _ Hlast Hcrit).
  - intros Hfew. apply getSystemHealth_critical.
    unfold criticalCount. rewrite raise_many_alerts.
    destruct calls as [| c calls].
    + apply (criticalCount_last_critical _ _ _ Hlast Hcrit).
    + rewrite Hlast. unfold lastn.
      rewrite !length_app, length_map. cbn [length].
      rewrite <- app_assoc, skipn_app.
      replace (length older + 1 + S (length calls) - 50 - length older)%nat
        with 0%nat by (cbn [length] in Hfew; lia).
      cbn [skipn]. rewrite filter_app, length_app.
      cbn [app filter]. rewrite Hcrit. cbn. lia.
  - intros Hmany Hnone.
    assert (Hzero : criticalCount (fold_left raise calls md1) = 0%nat).
    { unfold criticalCount. rewrite raise_many_alerts.
      destruct calls as [| c calls]; [cbn in Hmany; lia |].
      rewrite lastn_app_long by (rewrite length_map; exact Hmany).
      rewrite count_none; [reflexivity |].
      apply Forall_lastn, Forall_map.
      rewrite forallb_forall in Hnone. apply Forall_forall.
      intros [[[q event] e] n] Hin. specialize (Hnone _ Hin).
      cbn [callEvent] in Hnone. apply negb_true_iff in Hnone.
      pose proof (severityFits_alertFor q event e n) as Hfit.
      cbn [alertOfCall].
      destruct (String.eqb_spec (al_severity (alertFor q event e n)) "critical")
        as [Hc | Hc]; [| reflexivity].
      apply (proj1 (severityFits_cases _ Hfit)) in Hc.
      assert (He : al_event (alertFor q event e n) = event).
      { unfold alertFor.
        repeat match goal with
               | |- context [if ?c then _ else _] => destruct c
               end; reflexivity. }
      rewrite He in Hc. subst event. discriminate. }
    split; [exact Hzero |].
    unfold getSystemHealth. cbn [sh_status]. fold (criticalCount (fold_left raise calls md1)).
    rewrite Hzero. cbn [Nat.ltb Nat.leb].
    destruct (gt _ _); discriminate.
Qed.

(** ** Refreshes and events on one snapshot *)

Lemma updateQueueStatus_get_same queueName c now md :
  get queueName (queues (updateQueueStatus queueName (Some c) now md))
  = Some (refreshed c now).
Proof.
  unfold updateQueueStatus, set_queues. cbn [queues]. apply get_set_same.
Qed.

Lemma updateQueueStatus_get_other queueName r now md q :
  queueName <> q ->
  get q (queues (updateQueueStatus queueName r now md)) = get q (queues md).
Proof.
  intros H. destruct r as [c |]; [| reflexivity].
  unfold updateQueueStatus, set_queues. cbn [queues]. apply get_set_other, H.
Qed.

(** X4.  A successful refresh replaces the whole snapshot of its queue:
    the counts and the paused flag are the backend's, and the event log
    of that queue is gone, so the events route answers with an empty list
    for it whatever had been logged.  The next event starts a new log and
    keeps the counts.  The snapshots of the other queues are untouched,
    and a refresh whose backend query fails changes nothing. *)
Theorem refresh_replaces_snapshot :
  forall (queueName : string) (c : BackendCounts) (now : Z) (md : MonitoringData),
    let md1 := updateQueueStatus queueName (Some c) now md in
    getQueueStatus queueName md1 = Some (refreshed c now)
    /\ queueEvents queueName md1 = []
    /\ (forall limit, queueName <> "" ->
                      events_route (Some queueName) limit md1 = [])
    /\ (forall event job error t,
           getQueueStatus queueName
             (addMonitoringEvent queueName event job error t md1)
           = Some (set_events [eventData queueName event job error t]
                              (refreshed c now)))
    /\ (forall q, queueName <> q -> getQueueStatus q md1 = getQueueStatus q md)
    /\ updateQueueStatus queueName None now md = md.
Proof.
  intros queueName c now md md1.
  assert (Hget : get queueName (queues md1) = Some (refreshed c now))
    by apply updateQueueStatus_get_same.
  assert (Hevs : queueEvents queueName md1 = []).
  { unfold queueEvents. rewrite Hget. reflexivity. }
  split; [exact Hget |]. split; [exact Hevs |].
  split; [| split; [| split]].
  - intros limit Hname. unfold events_route.
    destruct (String.eqb_spec queueName "") as [He | _]; [contradiction |].
    rewrite Hevs. unfold JsArray.slice. rewrite skipn_nil, firstn_nil. reflexivity.
  - intros event job error t. unfold getQueueStatus.
    rewrite addMonitoringEvent_get_same, Hevs, Hget. reflexivity.
  - intros q Hq. apply (updateQueueStatus_get_other queueName (Some c) now md q Hq).
  - reflexivity.
Qed.

Lemma sameCounts_refl s : sameCounts s s.
Proof. repeat split. Qed.

Lemma sameCounts_trans s1 s2 s3 :
  sameCounts s1 s2 -> sameCounts s2 s3 -> sameCounts s1 s3.
Proof.
  unfold sameCounts. intros (a1 & a2 & a3 & a4 & a5 & a6 & a7)
                            (b1 & b2 & b3 & b4 & b5 & b6 & b7).
  repeat split; congruence.
Qed.

Lemma sameCounts_step queueName op md s :
  not_refresh_of queueName op = true ->
  get queueName (queues md) = Some s ->
  exists s', get queueName (queues (step md op)) = Some s' /\ sameCounts s s'.
Proof.
  intros Hop Hget.
  assert (Hadd : forall q event job error now,
             exists s',
               get queueName (queues (addMonitoringEvent q event job error now md))
               = Some s' /\ sameCounts s s').
  { intros q event job error now.
    destruct (String.eqb_spec q queueName) as [-> | Hne].
    - rewrite addMonitoringEvent_get_same, Hget.
      eexists. split; [reflexivity | repeat split].
    - rewrite addMonitoringEvent_get_other by exact Hne.
      exists s. split; [exact Hget | apply sameCounts_refl]. }
  destruct op; simpl; try (apply Hadd);
    try (exists s; split; [exact Hget | apply sameCounts_refl]).
  - destruct r as [c |]; [| exists s; split; [exact Hget | apply sameCounts_refl]].
    simpl in Hop. apply negb_true_iff in Hop.
    rewrite updateQueueStatus_get_other.
    + exists s; split; [exact Hget | apply sameCounts_refl].
    + intros Heq. subst. rewrite String.eqb_refl in Hop. discriminate.
  - destruct (startAlertSystem_tick_frame now md) as [Hq _]. rewrite Hq.
    exists s; split; [exact Hget | apply sameCounts_refl].
Qed.

(** X5.  Only a successful refresh of a queue changes the counts, the
    paused flag and the update time of its snapshot: through every
    sequence of listener calls, ticks, clears, failed refreshes and
    refreshes of other queues, the snapshot stays in the store with those
    seven properties as they were (events of the queue do not adjust the
    counts). *)
Theorem counts_change_on_refresh_only :
  forall (queueName : string) (ops : list Op) (md : MonitoringData)
         (s : QueueSnapshot),
    getQueueStatus queueName md = Some s ->
    forallb (not_refresh_of queueName) ops = true ->
    exists s', getQueueStatus queueName (run ops md) = Some s' /\ sameCounts s s'.
Proof.
  intros queueName ops. unfold getQueueStatus.
  induction ops as [| op ops IH]; simpl; intros md s Hget Hops.
  - exists s. split; [exact Hget | apply sameCounts_refl].
  - apply andb_true_iff in Hops. destruct Hops as [Hop Hops].
    destruct (sameCounts_step queueName op md s Hop Hget) as (s1 & Hget1 & H1).
    destruct (IH _ _ Hget1 Hops) as (s2 & Hget2 & H2).
    exists s2. split; [exact Hget2 | apply (sameCounts_trans _ _ _ H1 H2)].
Qed.

Lemma counts_change_on_refresh_only_witness :
  let job := mkJob (Some "1") (Some "send") Undef (ofZ 900) in
  let md := updateQueueStatus "email-queue" (Some (mkCounts 4 1 7 2 0 false)) 1000
              monitoringData0 in
  let ops := [ OnWaiting "email-queue" job 2000;
               OnFailed "email-queue" job (Some (mkError (Text "boom"))) 3000;
               Refresh "priority-queue" (Some (mkCounts 0 0 0 0 0 true)) 4000;
               AlertTick 5000 ] in
  getQueueStatus "email-queue" md = Some (refreshed (mkCounts 4 1 7 2 0 false) 1000)
  /\ forallb (not_refresh_of "email-queue") ops = true
  /\ exists s', getQueueStatus "email-queue" (run ops md) = Some s'
                /\ sameCounts (refreshed (mkCounts 4 1 7 2 0 false) 1000) s'.
Proof.
  intros job md ops.
  assert (H1 : getQueueStatus "email-queue" md
               = Some (refreshed (mkCounts 4 1 7 2 0 false) 1000))
    by reflexivity.
  assert (H2 : forallb (not_refresh_of "email-queue") ops = true) by reflexivity.
  split; [exact H1 |]. split; [exact H2 |].
  exact (counts_change_on_refresh_only "email-queue" ops md _ H1 H2).
Defined.

(** ** Entries are never deleted *)

Lemma get_set_is_Some {V : Type} (k k' : string) (v : V) (o : JsObj V) :
  get k' o <> None -> get k' (set k v o) <> None.
Proof.
  intros H. destruct (String.eqb_spec k k') as [-> | Hne].
  - rewrite get_set_same. discriminate.
  - rewrite get_set_other by exact Hne. exact H.
Qed.

Lemma entries_kept_step op md q :
  (get q (queues md) <> None -> get q (queues (step md op)) <> None)
  /\ (get q (performance md) <> None -> get q (performance (step md op)) <> None).
Proof.
  assert (Hadd : forall qn event job error now,
             get q (queues md) <> None ->
             get q (queues (addMonitoringEvent qn event job error now md)) <> None).
  { intros. unfold addMonitoringEvent, set_queues. cbn [queues].
    apply get_set_is_Some. assumption. }
  assert (Hupd : forall qn event job m,
             get q (performance m) <> None ->
             get q (performance (updatePerformanceMetrics qn event job m)) <> None).
  { intros. unfold updatePerformanceMetrics, set_performance. cbn [performance].
    apply get_set_is_Some. assumption. }
  destruct op; cbn [step]; split; intros H; try exact H; try (apply Hadd; exact H);
    try (apply Hupd; exact H).
  - destruct r as [c |]; [| exact H].
    unfold updateQueueStatus, set_queues. cbn [queues].
    apply get_set_is_Some, H.
  - destruct r; exact H.
  - unfold startPerformanceMonitoring_tick, set_performance. cbn [performance].
    apply get_set_is_Some, H.
  - destruct (startAlertSystem_tick_frame now md) as [Hq _]. rewrite Hq. exact H.
  - destruct (startAlertSystem_tick_frame now md) as [_ Hp]. rewrite Hp. exact H.
Qed.

(** X6.  [/queues/:queueName] answers 404 exactly when the store has no
    entry of its own for the name and the name is not one that every
    object inherits; for an inherited name without entry it answers 200
    with no snapshot.  [/performance?queueName=] does the same on the
    performance table.  Nothing deletes an entry: once a name has a
    snapshot (or metrics), the route answers with a snapshot (or metrics)
    whatever operations follow. *)
Theorem entries_are_never_deleted :
  forall (ops : list Op) (md : MonitoringData) (name : string) (now t : Z),
    name <> "" ->
    (queue_route name now md
     = Refused 404 (Text ("Queue '" ++ name ++ "' not found")%string)
     <-> getQueueStatus name md = None /\ inherited name = false)
    /\ (getQueueStatus name md = None -> inherited name = true ->
        queue_route name now md = Sent (name, None, now))
    /\ (getQueueStatus name md <> None ->
        exists status,
          queue_route name t (run ops md) = Sent (name, Some status, t))
    /\ (performance_route (Some name) now md
        = Refused 404
            (Text ("Performance metrics for queue '" ++ name ++ "' not found")%string)
        <-> getPerformanceMetrics name md = None /\ inherited name = false)
    /\ (getPerformanceMetrics name md = None -> inherited name = true ->
        performance_route (Some name) now md = Sent (inl None))
    /\ (getPerformanceMetrics name md <> None ->
        exists metrics,
          performance_route (Some name) t (run ops md) = Sent (inl (Some metrics))).
Proof.
  intros ops md name now t Hname.
  assert (Hkept : (get name (queues md) <> None ->
                   get name (queues (run ops md)) <> None)
                  /\ (get name (performance md) <> None ->
                      get name (performance (run ops md)) <> None)).
  { revert md. induction ops as [| op ops IH]; intros md; [tauto |].
    cbn [run fold_left]. fold (run ops (step md op)).
    destruct (entries_kept_step op md name) as [Hq Hp].
    destruct (IH (step md op)) as [Hq' Hp'].
    split; auto. }
  destruct Hkept as [Hq Hp].
  assert (Hempty : String.eqb name "" = false) by (apply String.eqb_neq, Hname).
  repeat split.
  - unfold queue_route in H. destruct (getQueueStatus name md); [discriminate |].
    reflexivity.
  - unfold queue_route in H. destruct (getQueueStatus name md); [discriminate |].
    destruct (inherited name); [discriminate | reflexivity].
  - intros [H1 H2]. unfold queue_route. rewrite H1, H2. reflexivity.
  - intros H1 H2. unfold queue_route. rewrite H1, H2. reflexivity.
  - intros Hsome. specialize (Hq Hsome). unfold queue_route, getQueueStatus in *.
    destruct (get name (queues (run ops md))) as [status |]; [| contradiction].
    exists status. reflexivity.
  - unfold performance_route in H. rewrite Hempty in H.
    destruct (getPerformanceMetrics name md); [discriminate |]. reflexivity.
  - unfold performance_route in H. rewrite Hempty in H.
    destruct (getPerformanceMetrics name md); [discriminate |].
    destruct (inherited name); [discriminate | reflexivity].
  - intros [H1 H2]. unfold performance_route. rewrite Hempty, H1, H2. reflexivity.
  - intros H1 H2. unfold performance_route. rewrite Hempty, H1, H2. reflexivity.
  - intros Hsome. specialize (Hp Hsome).
    unfold performance_route, getPerformanceMetrics in *. rewrite Hempty.
    destruct (get name (performance (run ops md))) as [metrics |]; [| contradiction].
    exists metrics. reflexivity.
Qed.

Lemma entries_are_never_deleted_witness :
  let job := mkJob (Some "1") (Some "send") Undef (ofZ 900) in
  let md := step monitoringData0 (OnFailed "email-queue" job None 1000) in
  let ops := [ Refresh "email-queue" None 2000; PerformanceTick 3000; ClearAlerts ] in
  ("email-queue" <> ""
   /\ getQueueStatus "email-queue" md <> None
   /\ exists status,
        queue_route "email-queue" 4000 (run ops md)
        = Sent ("email-queue", Some status, 4000%Z))
  /\ ("constructor" <> ""
      /\ getQueueStatus "constructor" md = None
      /\ inherited "constructor" = true
      /\ queue_route "constructor" 4000 md = Sent ("constructor", None, 4000%Z))
  /\ ("no-such-queue" <> ""
      /\ getQueueStatus "no-such-queue" md = None
      /\ inherited "no-such-queue" = false
      /\ queue_route "no-such-queue" 4000 md
         = Refused 404 (Text "Queue 'no-such-queue' not found")).
Proof.
  intros job md ops.
  assert (H1 : "email-queue" <> "") by discriminate.
  assert (H2 : getQueueStatus "email-queue" md <> None) by discriminate.
  assert (H3 : "constructor" <> "") by discriminate.
  assert (H4 : getQueueStatus "constructor" md = None) by reflexivity.
  assert (H5 : inherited "constructor" = true) by reflexivity.
  assert (H6 : "no-such-queue" <> "") by discriminate.
  assert (H7 : getQueueStatus "no-such-queue" md = None) by reflexivity.
  assert (H8 : inherited "no-such-queue" = false) by reflexivity.
  split; [| split].
  - split; [exact H1 |]. split; [exact H2 |].
    exact (proj1 (proj2 (proj2
             (entries_are_never_deleted ops md "email-queue" 0 4000 H1))) H2).
  - split; [exact H3 |]. split; [exact H4 |]. split; [exact H5 |].
    exact (proj1 (proj2
             (entries_are_never_deleted [] md "constructor" 4000 0 H3)) H4 H5).
  - split; [exact H6 |]. split; [exact H7 |]. split; [exact H8 |].
    exact (proj2 (proj1
             (entries_are_never_deleted [] md "no-such-queue" 4000 0 H6))
             (conj H7 H8)).
Defined.

(** ** The counters of the performance table *)

Lemma failedEvents_snoc queueName ops op :
  failedEvents queueName (ops ++ [op])
  = (failedEvents queueName ops + failedEvents queueName [op])%nat.
Proof. unfold failedEvents. rewrite filter_app, length_app. reflexivity. Qed.

Lemma metricsOrNew_completed queueName job now md :
  pm_completed (metricsOrNew queueName (step md (OnCompleted queueName job now)))
  = incr (pm_completed (metricsOrNew queueName md))
  /\ pm_failed (metricsOrNew queueName (step md (OnCompleted queueName job now)))
     = pm_failed (metricsOrNew queueName md).
Proof.
  unfold metricsOrNew at 1 3, getPerformanceMetrics. cbn [step].
  rewrite updatePerformanceMetrics_completed. cbv zeta.
  destruct (truthy (job_processedOn job) && truthy (job_timestamp job));
    split; reflexivity.
Qed.

Lemma counters_run queueName ops :
  queueName <> "system" ->
  pm_completed (metricsOrNew queueName (run ops monitoringData0))
  = ofNat (length (completedJobs queueName ops))
  /\ pm_failed (metricsOrNew queueName (run ops monitoringData0))
     = ofNat (failedEvents queueName ops).
Proof.
  intros Hsys. induction ops as [| op ops IH] using rev_ind.
  - split; reflexivity.
  - rewrite run_snoc, completedJobs_snoc, failedEvents_snoc, length_app.
    set (md := run ops monitoringData0) in *.
    destruct IH as [IHc IHf].
    assert (Hsame : forall md', performance md' = performance md ->
                metricsOrNew queueName md' = metricsOrNew queueName md).
    { intros md' H. unfold metricsOrNew, getPerformanceMetrics. rewrite H.
      reflexivity. }
    assert (Hother : forall q event job md',
               q <> queueName -> performance md' = performance md ->
               metricsOrNew queueName (updatePerformanceMetrics q event job md')
               = metricsOrNew queueName md).
    { intros q event job md' Hne H. unfold metricsOrNew, getPerformanceMetrics.
      rewrite updatePerformanceMetrics_other by exact Hne. rewrite H. reflexivity. }
    destruct op as [q job now | q job now | q job now | q job err now
                   | q job now | q err now | q r now | now | now | ];
      cbn [completedJobs failedEvents flat_map filter app step length];
      try (rewrite !Nat.add_0_r; split; [exact IHc | exact IHf]).
    + (* completed *)
      destruct (String.eqb_spec q queueName) as [-> | Hne].
      * destruct (metricsOrNew_completed queueName job now md) as [Hc' Hf'].
        cbn [step] in Hc', Hf'. rewrite Hc', Hf', IHc, IHf, incr_ofNat.
        cbn [length app]. split; f_equal; lia.
      * rewrite (Hother q "completed" job
                   (addMonitoringEvent q "completed" (Some job) None now md)
                   Hne eq_refl).
        cbn [length app]. split; [rewrite IHc | rewrite IHf]; f_equal; lia.
    + (* failed *)
      destruct (String.eqb_spec q queueName) as [-> | Hne].
      * pose proof (metricsOrNew_failed queueName job err now md) as Hm.
        cbn [step] in Hm. rewrite Hm.
        cbn [pm_completed pm_failed set_failed length].
        rewrite IHc, IHf, incr_ofNat.
        split; f_equal; lia.
      * assert (H : metricsOrNew queueName
                      (checkForAlerts q "failed" err now
                         (updatePerformanceMetrics q "failed" job
                            (addMonitoringEvent q "failed" (Some job) err now md)))
                    = metricsOrNew queueName md).
        { rewrite <- (Hother q "failed" job
                        (addMonitoringEvent q "failed" (Some job) err now md)
                        Hne eq_refl).
          reflexivity. }
        rewrite H. cbn [length]. split; [rewrite IHc | rewrite IHf]; f_equal; lia.
    + (* refresh *)
      destruct r; rewrite !Nat.add_0_r; split; [exact IHc | exact IHf | exact IHc | exact IHf].
    + (* performance tick *)
      assert (H : metricsOrNew queueName (startPerformanceMonitoring_tick now md)
                  = metricsOrNew queueName md).
      { unfold metricsOrNew, getPerformanceMetrics, startPerformanceMonitoring_tick,
          set_performance. cbn [performance].
        rewrite get_set_other by congruence. reflexivity. }
      rewrite H, !Nat.add_0_r. split; assumption.
    + (* alert tick *)
      destruct (startAlertSystem_tick_frame now md) as [_ Hp].
      rewrite (Hsame _ Hp), !Nat.add_0_r. split; assumption.
Qed.

(** Before the first "completed" or "failed" event of a queue the table
    has no entry for it. *)
Lemma no_entry_before_events queueName ops :
  queueName <> "system" ->
  completedJobs queueName ops = [] ->
  failedEvents queueName ops = 0%nat ->
  getPerformanceMetrics queueName (run ops monitoringData0) = None.
Proof.
  intros Hsys. unfold getPerformanceMetrics.
  induction ops as [| op ops IH] using rev_ind; intros Hc Hf; [reflexivity |].
  rewrite completedJobs_snoc in Hc. rewrite failedEvents_snoc in Hf.
  apply app_eq_nil in Hc. destruct Hc as [Hc Hc'].
  assert (Hf0 : failedEvents queueName ops = 0%nat) by lia.
  assert (Hf' : failedEvents queueName [op] = 0%nat) by lia.
  specialize (IH Hc Hf0).
  rewrite run_snoc. set (md := run ops monitoringData0) in *.
  destruct op as [q job now | q job now | q job now | q job err now
                 | q job now | q err now | q r now | now | now | ];
    cbn [step]; try exact IH.
  - (* completed *)
    cbn [completedJobs flat_map app] in Hc'.
    destruct (String.eqb_spec q queueName) as [-> | Hne]; [discriminate |].
    rewrite updatePerformanceMetrics_other by exact Hne. exact IH.
  - (* failed *)
    cbn [failedEvents filter length] in Hf'.
    rewrite checkForAlerts_performance.
    destruct (String.eqb_spec q queueName) as [-> | Hne]; [discriminate |].
    rewrite updatePerformanceMetrics_other by exact Hne. exact IH.
  - (* refresh *)
    destruct r; exact IH.
  - (* performance tick *)
    unfold startPerformanceMonitoring_tick, set_performance. cbn [performance].
    rewrite get_set_other by congruence. exact IH.
  - (* alert tick *)
    destruct (startAlertSystem_tick_frame now md) as [_ Hp]. rewrite Hp. exact IH.
Qed.

(** X7.  For every queue (the key "system" is not one) the entry of the
    performance table counts events: after any sequence of operations on
    the fresh store, [completed] is the number of "completed" events of
    the queue, with or without timestamps, and [failed] the number of its
    "failed" events.  The entry is created by the first of these events:
    the table has no entry for the queue exactly as long as the queue has
    had neither. *)
Theorem counters_count_events :
  forall (queueName : string) (ops : list Op),
    queueName <> "system" ->
    let md := run ops monitoringData0 in
    let m := metricsOrNew queueName md in
    pm_completed m = ofNat (length (completedJobs queueName ops))
    /\ pm_failed m = ofNat (failedEvents queueName ops)
    /\ (getPerformanceMetrics queueName md = None
        <-> completedJobs queueName ops = [] /\ failedEvents queueName ops = 0%nat)
    /\ (getPerformanceMetrics queueName md = Some m
        <-> (0 < length (completedJobs queueName ops) + failedEvents queueName ops)%nat).
Proof.
  intros queueName ops Hsys md m.
  destruct (counters_run queueName ops Hsys) as [Hc Hf].
  fold md in Hc, Hf. fold m in Hc, Hf.
  assert (Hinj : forall n, Num 0%Qc = ofNat n -> n = 0%nat).
  { intros n H.
    assert (Hq : Zc 0 = Zc (Z.of_nat n))
      by exact (f_equal (fun v => match v with Num x => x | _ => 0%Qc end) H).
    apply Qceqb_true in Hq. rewrite Qceqb_Zc in Hq.
    apply Z.eqb_eq in Hq. lia. }
  assert (Hnone : getPerformanceMetrics queueName md = None
                  <-> completedJobs queueName ops = []
                      /\ failedEvents queueName ops = 0%nat).
  { split.
    - intros Hget. unfold m, metricsOrNew in Hc, Hf. rewrite Hget in Hc, Hf.
      cbn in Hc, Hf. apply Hinj in Hc. apply Hinj in Hf.
      split; [apply length_zero_iff_nil; exact Hc | exact Hf].
    - intros [H1 H2]. apply no_entry_before_events; assumption. }
  split; [exact Hc |]. split; [exact Hf |]. split; [exact Hnone |].
  split.
  - intros Hget.
    destruct (Nat.eq_dec (length (completedJobs queueName ops)
                          + failedEvents queueName ops) 0) as [E | NE]; [| lia].
    assert (Hn : getPerformanceMetrics queueName md = None).
    { apply Hnone. split; [apply length_zero_iff_nil |]; lia. }
    congruence.
  - intros Hpos. unfold m, metricsOrNew.
    destruct (getPerformanceMetrics queueName md) as [m' |] eqn:E; [reflexivity |].
    destruct (proj1 Hnone eq_refl) as [E1 E2]. rewrite E1, E2 in Hpos.
    cbn in Hpos. lia.
Qed.

Lemma counters_count_events_witness :
  let job := mkJob (Some "1") (Some "send") Undef (ofZ 900) in
  let ops := [ OnCompleted "email-queue" job 1000;
               OnFailed "email-queue" job None 2000;
               OnCompleted "priority-queue" job 2500;
               OnCompleted "email-queue" job 3000 ] in
  ("email-queue" <> "system"
   /\ pm_completed (metricsOrNew "email-queue" (run ops monitoringData0)) = ofNat 2
   /\ pm_failed (metricsOrNew "email-queue" (run ops monitoringData0)) = ofNat 1)
  /\ ("file-queue" <> "system"
      /\ completedJobs "file-queue" ops = []
      /\ failedEvents "file-queue" ops = 0%nat
      /\ getPerformanceMetrics "file-queue" (run ops monitoringData0) = None).
Proof.
  intros job ops.
  assert (H1 : "email-queue" <> "system") by discriminate.
  assert (H2 : "file-queue" <> "system") by discriminate.
  assert (H3 : completedJobs "file-queue" ops = []) by reflexivity.
  assert (H4 : failedEvents "file-queue" ops = 0%nat) by reflexivity.
  split.
  - split; [exact H1 |].
    pose proof (counters_count_events "email-queue" ops H1) as H.
    cbv zeta in H. destruct H as (Hc & Hf & _). split; [exact Hc | exact Hf].
  - split; [exact H2 |]. split; [exact H3 |]. split; [exact H4 |].
    pose proof (counters_count_events "file-queue" ops H2) as H.
    cbv zeta in H. destruct H as (_ & _ & Hnone & _).
    exact (proj2 Hnone (conj H3 H4)).
Defined.

(** ** [getSystemHealth] on a store of refreshed snapshots *)

(** X8.  When every snapshot of the store carries counts (each was
    written by a refresh, with or without events since), the health
    summary is exact: the three totals are the sums of the waiting, active
    and failed counts, the queue count is the number of snapshots, and the
    status is "critical" if the log holds a critical alert, else "warning"
    if the failed counts sum to more than 10, else "healthy". *)
Theorem getSystemHealth_on_counted_store :
  forall (now : Z) (md : MonitoringData) (cs : list BackendCounts),
    map (fun s => (qs_waiting s, qs_active s, qs_failed s)) (values (queues md))
    = map (fun c => (ofNat (bc_waiting c), ofNat (bc_active c), ofNat (bc_failed c)))
          cs ->
    getSystemHealth now md
    = mkHealth
        (if (0 <? criticalCount md)%nat then "critical"
         else if (10 <? sumZ (map (fun c => Z.of_nat (bc_failed c)) cs))%Z
              then "warning"
              else "healthy")
        (length cs)
        (ofZ (sumZ (map (fun c => Z.of_nat (bc_waiting c)) cs)))
        (ofZ (sumZ (map (fun c => Z.of_nat (bc_active c)) cs)))
        (ofZ (sumZ (map (fun c => Z.of_nat (bc_failed c)) cs)))
        (criticalCount md) now.
Proof.
  intros now md cs H.
  assert (Hw : map qs_waiting (values (queues md))
               = map ofZ (map (fun c => Z.of_nat (bc_waiting c)) cs)).
  { apply (f_equal (map (fun t : jsnum * jsnum * jsnum => fst (fst t)))) in H.
    rewrite !map_map in H. rewrite map_map. exact H. }
  assert (Ha : map qs_active (values (queues md))
               = map ofZ (map (fun c => Z.of_nat (bc_active c)) cs)).
  { apply (f_equal (map (fun t : jsnum * jsnum * jsnum => snd (fst t)))) in H.
    rewrite !map_map in H. rewrite map_map. exact H. }
  assert (Hf : map qs_failed (values (queues md))
               = map ofZ (map (fun c => Z.of_nat (bc_failed c)) cs)).
  { apply (f_equal (map (fun t : jsnum * jsnum * jsnum => snd t))) in H.
    rewrite !map_map in H. rewrite map_map. exact H. }
  assert (Hlen : length (keys (queues md)) = length cs).
  { apply (f_equal (@length _)) in H. rewrite !length_map in H.
    unfold keys. rewrite length_map. unfold values in H.
    rewrite length_map in H. exact H. }
  unfold getSystemHealth. fold (criticalCount md).
  change (Num 0%Qc) with (ofZ 0).
  rewrite (fold_add_counts qs_waiting _ _ 0 Hw),
    (fold_add_counts qs_active _ _ 0 Ha),
    (fold_add_counts qs_failed _ _ 0 Hf), gt_ofZ, Hlen.
  reflexivity.
Qed.

Lemma getSystemHealth_on_counted_store_witness :
  let md := run [ Refresh "email-queue" (Some (mkCounts 3 1 20 8 0 false)) 1000;
                  Refresh "priority-queue" (Some (mkCounts 150 2 5 4 1 true)) 1000;
                  OnWaiting "email-queue"
                    (mkJob (Some "9") (Some "send") Undef (ofZ 1500)) 2000 ]
                monitoringData0 in
  let cs := [ mkCounts 3 1 20 8 0 false; mkCounts 150 2 5 4 1 true ] in
  map (fun s => (qs_waiting s, qs_active s, qs_failed s)) (values (queues md))
  = map (fun c => (ofNat (bc_waiting c), ofNat (bc_active c), ofNat (bc_failed c))) cs
  /\ sh_status (getSystemHealth 3000 md) = "warning".
Proof.
  intros md cs.
  assert (H : map (fun s => (qs_waiting s, qs_active s, qs_failed s))
                  (values (queues md))
              = map (fun c => (ofNat (bc_waiting c), ofNat (bc_active c),
                               ofNat (bc_failed c))) cs)
    by (vm_compute; reflexivity).
  split; [exact H |].
  rewrite (getSystemHealth_on_counted_store 3000 md cs H). reflexivity.
Defined.

(** ** The rollup, run twice *)

Lemma add_NaN_l (a b : jsnum) : toNumber a = NaN -> add a b = NaN.
Proof. intros H. unfold add. rewrite H. reflexivity. Qed.

Lemma add_NaN_r (a b : jsnum) : toNumber b = NaN -> add a b = NaN.
Proof.
  intros H. unfold add. rewrite H. destruct (toNumber a); reflexivity.
Qed.

(** The sum of the rollup is [NaN] as soon as one entry of the table has
    no [completed] count. *)
Lemma fold_totalJobs_NaN (vals : list PerfEntry) (e : PerfEntry) :
  In e vals -> toNumber (pm_completed e) = NaN ->
  forall acc,
    fold_left (fun sum metrics => add (add sum (pm_completed metrics)) (pm_failed metrics))
              vals acc
    = NaN.
Proof.
  intros Hin He.
  assert (Hnan : forall l,
             fold_left (fun sum metrics =>
                          add (add sum (pm_completed metrics)) (pm_failed metrics))
                       l NaN = NaN).
  { induction l as [| m l IH]; [reflexivity |]. cbn [fold_left].
    rewrite (add_NaN_l (add NaN (pm_completed m)))
      by (rewrite add_NaN_l; reflexivity).
    exact IH. }
  induction vals as [| m vals IH]; intros acc; [contradiction |].
  cbn [fold_left]. destruct Hin as [-> | Hin].
  - rewrite (add_NaN_l (add acc (pm_completed e)))
      by (rewrite add_NaN_r by exact He; reflexivity).
    apply Hnan.
  - apply IH, Hin.
Qed.

(** Once a rollup has run, the table keeps an entry under "system" that
    has no [completed] count. *)
Lemma rolled_up_step op md :
  (exists e, get "system" (performance md) = Some e
             /\ toNumber (pm_completed e) = NaN) ->
  exists e, get "system" (performance (step md op)) = Some e
            /\ toNumber (pm_completed e) = NaN.
Proof.
  intros (e & Hget & He).
  assert (Hupd : forall q event job md',
             performance md' = performance md ->
             exists e', get "system"
                          (performance (updatePerformanceMetrics q event job md'))
                        = Some e'
                        /\ toNumber (pm_completed e') = NaN).
  { intros q event job md' Hperf.
    unfold updatePerformanceMetrics, set_performance. cbn [performance].
    rewrite Hperf.
    destruct (String.eqb_spec q "system") as [-> | Hne].
    - rewrite get_set_same, Hget. eexists. split; [reflexivity |].
      destruct (String.eqb event "completed").
      + cbv zeta.
        destruct (truthy (job_processedOn job) && truthy (job_timestamp job));
          cbn [pm_completed set_completed set_totalProcessingTime set_jobCount
               set_avgProcessingTime];
          unfold incr; rewrite add_NaN_l by exact He; reflexivity.
      + destruct (String.eqb event "failed"); cbn [pm_completed set_failed];
          exact He.
    - rewrite get_set_other by exact Hne. exists e. split; assumption. }
  destruct op as [q job now | q job now | q job now | q job err now
                 | q job now | q err now | q r now | now | now | ];
    cbn [step]; try (exists e; split; assumption).
  - apply Hupd. reflexivity.
  - rewrite checkForAlerts_performance. apply Hupd. reflexivity.
  - destruct r; exists e; split; assumption.
  - unfold startPerformanceMonitoring_tick, set_performance. cbn [performance].
    rewrite get_set_same. eexists. split; reflexivity.
  - destruct (startAlertSystem_tick_frame now md) as [_ Hp]. rewrite Hp.
    exists e. split; assumption.
Qed.

(** X9.  On a table whose entries hold integer counts, a rollup writes
    their sum as [totalJobs].  Every rollup after it, whatever events and
    timer runs lie between the two, writes [NaN] instead: it folds over
    the entry "system" that a rollup wrote, which has no counts. *)
Theorem rollup_twice :
  forall (now1 now2 : Z) (md : MonitoringData) (cs fs : list Z) (ops : list Op),
    map pm_completed (values (performance md)) = map ofZ cs ->
    map pm_failed (values (performance md)) = map ofZ fs ->
    let md1 := startPerformanceMonitoring_tick now1 md in
    let md2 := startPerformanceMonitoring_tick now2 (run ops md1) in
    option_map pm_totalJobs (getPerformanceMetrics "system" md1)
    = Some (ofZ (sumZ cs + sumZ fs))
    /\ option_map pm_totalJobs (getPerformanceMetrics "system" md2) = Some NaN.
Proof.
  intros now1 now2 md cs fs ops Hc Hf md1 md2.
  split; [apply rollup_totalJobs; assumption |].
  assert (Hinv : exists e, get "system" (performance (run ops md1)) = Some e
                           /\ toNumber (pm_completed e) = NaN).
  { unfold run. apply fold_left_preserves.
    - intros a b. apply rolled_up_step.
    - unfold md1, startPerformanceMonitoring_tick, set_performance.
      cbn [performance]. rewrite get_set_same. eexists. split; reflexivity. }
  destruct Hinv as (e & Hget & He).
  unfold md2, getPerformanceMetrics, startPerformanceMonitoring_tick, set_performance.
  cbn [performance]. rewrite get_set_same. cbn [option_map systemEntry pm_totalJobs].
  f_equal. apply (fold_totalJobs_NaN _ e); [| exact He].
  apply (get_In_values "system"). exact Hget.
Qed.

Lemma rollup_twice_witness :
  let job1 := mkJob (Some "1") (Some "send") (ofZ 3000) (ofZ 1000) in
  let job2 := mkJob (Some "2") (Some "resize") (ofZ 9000) (ofZ 2000) in
  let md := run [ OnCompleted "email-queue" job1 3000;
                  OnCompleted "image-processing-queue" job2 9000;
                  OnFailed "email-queue" job1 None 9500 ] monitoringData0 in
  let ops := [ OnCompleted "email-queue" job1 70000; AlertTick 80000 ] in
  map pm_completed (values (performance md)) = map ofZ [1; 1]%Z
  /\ map pm_failed (values (performance md)) = map ofZ [1; 0]%Z
  /\ option_map pm_totalJobs
       (getPerformanceMetrics "system" (startPerformanceMonitoring_tick 60000 md))
     = Some (ofZ 3)
  /\ option_map pm_totalJobs
       (getPerformanceMetrics "system"
          (startPerformanceMonitoring_tick 120000
             (run ops (startPerformanceMonitoring_tick 60000 md))))
     = Some NaN.
Proof.
  intros job1 job2 md ops.
  assert (H1 : map pm_completed (values (performance md)) = map ofZ [1; 1]%Z)
    by (vm_compute; reflexivity).
  assert (H2 : map pm_failed (values (performance md)) = map ofZ [1; 0]%Z)
    by (vm_compute; reflexivity).
  split; [exact H1 |]. split; [exact H2 |].
  exact (rollup_twice 60000 120000 md _ _ ops H1 H2).
Defined.
(** ** The two passes of the alert timer, entry by entry *)

(** X10.  The performance pass is the sequence of [checkForAlerts] calls
    that [performanceCalls] lists for the entries of the table, in the
    order of the table.  In every store reached from the initial one, the
    entry of a queue (any key but "system") has integer counters [c]
    completed and [f] failed, and for it the pass raises
    "slow-processing" exactly when the average exceeds 30000 ms and, with
    no more than 2^52 jobs counted, "high-failure-rate" exactly when
    [c + f > 0] and [5 * f > c + f], that is when strictly more than a
    fifth of the jobs failed: the rounding of the ratio and of the literal
    [0.2] to doubles does not move the threshold.  A queue with no
    completed and no failed job raises nothing. *)
Theorem performance_pass_on_queue_entries :
  forall (ops : list Op) (now : Z),
    let md := run ops monitoringData0 in
    checkPerformanceAlerts now md
    = fold_left raise (flat_map (performanceCalls now) (entries (performance md))) md
    /\ forall (queueName : string) (m : PerfEntry),
        queueName <> "system" ->
        getPerformanceMetrics queueName md = Some m ->
        exists c f : nat,
          pm_completed m = ofNat c /\ pm_failed m = ofNat f
          /\ ((Z.of_nat (c + f) <= 2 ^ 52)%Z ->
              performanceCalls now (queueName, m)
              = (if gt (pm_avgProcessingTime m) (ofZ 30000)
                 then [(queueName, "slow-processing",
                        Some (mkError (SlowAverage (pm_avgProcessingTime m))), now)]
                 else [])
                ++ (if (0 <? c + f)%nat && (c + f <? 5 * f)%nat
                    then [(queueName, "high-failure-rate",
                           Some (mkError (FailurePercent
                                            (div (ofNat f) (add (ofNat c) (ofNat f))))),
                           now)]
                    else []))
          /\ ((c + f = 0)%nat -> performanceCalls now (queueName, m) = []).
Proof.
  intros ops now md. split; [apply checkPerformanceAlerts_calls |].
  intros queueName m Hsys Hget.
  apply performanceCalls_queueEntry.
  apply (queueEntries_run ops queueName m Hsys Hget).
Qed.

(** At the threshold: with one failed job of five the ratio is exactly
    one fifth and the pass stays silent; with two failed of nine it
    raises "high-failure-rate". *)
Lemma performance_pass_on_queue_entries_witness :
  let job := mkJob (Some "1") (Some "send") (ofZ 3000) (ofZ 1000) in
  let ops := [ OnCompleted "email-queue" job 3000;
               OnCompleted "email-queue" job 3100;
               OnCompleted "email-queue" job 3200;
               OnCompleted "email-queue" job 3300;
               OnFailed "email-queue" job None 3400 ] in
  let md := run ops monitoringData0 in
  let ops' := ops ++ [ OnCompleted "email-queue" job 3500;
                       OnCompleted "email-queue" job 3600;
                       OnCompleted "email-queue" job 3700;
                       OnFailed "email-queue" job None 3800 ] in
  let md' := run ops' monitoringData0 in
  checkPerformanceAlerts 5000 md
  = fold_left raise (flat_map (performanceCalls 5000) (entries (performance md))) md
  /\ alerts (checkPerformanceAlerts 5000 md) = alerts md
  /\ map al_event (alerts md') = ["failed"; "failed"]
  /\ map al_event (alerts (checkPerformanceAlerts 5000 md'))
     = ["failed"; "failed"; "high-failure-rate"].
Proof.
  intros job ops md ops' md'.
  split; [exact (proj1 (performance_pass_on_queue_entries ops 5000)) |].
  split; [vm_compute; reflexivity |].
  split; vm_compute; reflexivity.
Defined.

(** X11.  The health pass is the sequence of [checkForAlerts] calls that
    [healthCalls] lists for the snapshots of the store, in the order of
    the store.  It compares strictly: for a snapshot written by a refresh
    it raises "high-failure-rate" exactly when more than 10 jobs failed,
    "queue-backlog" exactly when more than 100 wait and "queue-paused"
    exactly when the queue is paused, in this order, and an event logged
    since does not change that.  For a snapshot that only holds an event
    log it raises nothing. *)
Theorem health_pass_on_snapshots :
  forall (now : Z) (md : MonitoringData),
    checkQueueHealth now md
    = fold_left raise (flat_map (healthCalls now) (entries (queues md))) md
    /\ forall (t : Z) (queueName : string) (c : BackendCounts)
              (evs : list QueueEvent),
        let expected :=
          (if (10 <? bc_failed c)%nat
           then [(queueName, "high-failure-rate",
                  Some (mkError (FailedJobs (ofNat (bc_failed c)))), now)]
           else [])
          ++ (if (100 <? bc_waiting c)%nat
              then [(queueName, "queue-backlog",
                     Some (mkError (WaitingJobs (ofNat (bc_waiting c)))), now)]
              else [])
          ++ (if bc_paused c
              then [(queueName, "queue-paused",
                     Some (mkError (Text "Queue is paused")), now)]
              else []) in
        healthCalls now (queueName, refreshed c t) = expected
        /\ healthCalls now (queueName, set_events evs (refreshed c t)) = expected
        /\ healthCalls now (queueName, eventsOnly evs) = [].
Proof.
  intros now md. split; [apply checkQueueHealth_calls |].
  intros t queueName c evs expected.
  assert (H10 : gt (ofNat (bc_failed c)) (ofZ 10) = (10 <? bc_failed c)%nat).
  { unfold ofNat. rewrite gt_ofZ.
    destruct (Z.ltb_spec 10 (Z.of_nat (bc_failed c)));
      destruct (Nat.ltb_spec 10 (bc_failed c)); try reflexivity; lia. }
  assert (H100 : gt (ofNat (bc_waiting c)) (ofZ 100) = (100 <? bc_waiting c)%nat).
  { unfold ofNat. rewrite gt_ofZ.
    destruct (Z.ltb_spec 100 (Z.of_nat (bc_waiting c)));
      destruct (Nat.ltb_spec 100 (bc_waiting c)); try reflexivity; lia. }
  unfold healthCalls, refreshed, set_events, eventsOnly.
  cbn [qs_failed qs_waiting qs_paused]. rewrite H10, H100.
  repeat split.
Qed.

(** ** The alerts route *)

Lemma slice_zero_all {A : Type} (l : list A) : JsArray.slice 0 None l = l.
Proof.
  unfold JsArray.slice, JsArray.rel_index. cbn [Z.ltb Z.compare].
  replace (Z.to_nat (Z.min 0 (Z.of_nat (length l)))) with 0%nat by lia.
  rewrite Nat.sub_0_r. apply firstn_all.
Qed.

Lemma getAlerts_length severity md :
  (length (getAlerts severity md) <= length (alerts md))%nat.
Proof.
  unfold getAlerts. destruct severity as [s |]; [| lia].
  destruct (String.eqb s ""); [lia | apply filter_length_le].
Qed.

(** X12.  The alerts route answers with the last [limit] alerts of the
    requested severity, oldest first, and with their total number.  In
    every store reached from the initial one the total is at most 50, so
    the default limit of 50 returns all of them; a limit of 0 or one that
    is not a number returns all of them too. *)
Theorem alerts_route_slices :
  forall (ops : list Op) (severity : option string) (p : positive),
    let md := run ops monitoringData0 in
    alerts_route severity (Some (Z.pos p)) md
    = (lastn (Pos.to_nat p) (getAlerts severity md), length (getAlerts severity md))
    /\ alerts_route severity (Some 50%Z) md
       = (getAlerts severity md, length (getAlerts severity md))
    /\ (length (getAlerts severity md) <= 50)%nat
    /\ fst (alerts_route severity (Some 0%Z) md) = getAlerts severity md
    /\ fst (alerts_route severity None md) = getAlerts severity md.
Proof.
  intros ops severity p md.
  assert (Hpos : forall q : positive,
             alerts_route severity (Some (Z.pos q)) md
             = (lastn (Pos.to_nat q) (getAlerts severity md),
                length (getAlerts severity md))).
  { intros q. unfold alerts_route. cbn [option_map JsArray.toInteger Z.opp].
    replace (Z.neg q) with (- Z.of_nat (Pos.to_nat q))%Z by lia.
    rewrite slice_neg_lastn by lia. reflexivity. }
  assert (Hbound : (length (getAlerts severity md) <= 50)%nat).
  { etransitivity; [apply getAlerts_length |].
    apply (logs_bounded_run ops monitoringData0 logs_bounded_initial). }
  split; [apply Hpos |]. split; [| split; [exact Hbound | split]].
  - rewrite (Hpos 50%positive). f_equal. apply lastn_short.
    replace (Pos.to_nat 50) with 50%nat by reflexivity. exact Hbound.
  - unfold alerts_route. cbn [option_map JsArray.toInteger Z.opp fst].
    apply slice_zero_all.
  - unfold alerts_route. cbn [option_map JsArray.toInteger fst].
    apply slice_zero_all.
Qed.

(** ** The events route on stores reached from the initial one *)

Lemma Forall_entries_set {V : Type} (P : string * V -> Prop) (k : string) (v : V)
    (o : JsObj V) :
  Forall P o -> P (k, v) -> Forall P (set k v o).
Proof.
  intros Ho Hv. induction o as [| [k' v'] r IH]; simpl.
  - constructor; [exact Hv | constructor].
  - inversion Ho as [| ? ? Hv' Hr]; subst.
    destruct (String.eqb_spec k k') as [<- | Hne]; constructor; auto.
Qed.

Lemma get_In_entries {V : Type} (k : string) (v : V) (o : JsObj V) :
  get k o = Some v -> In (k, v) o.
Proof.
  induction o as [| [k' v'] r IH]; simpl; [discriminate |].
  destruct (String.eqb_spec k k') as [<- | Hne]; intros H.
  - left. congruence.
  - right. auto.
Qed.

Lemma tagged_addMonitoringEvent queueName event job error now md :
  Forall taggedEntry (queues md) ->
  Forall taggedEntry (queues (addMonitoringEvent queueName event job error now md)).
Proof.
  intros H. unfold addMonitoringEvent, set_queues. cbn [queues].
  apply Forall_entries_set; [exact H |].
  unfold taggedEntry, set_events. cbn [snd fst qs_events].
  assert (Hold : Forall (fun e => ev_queueName e = queueName)
                        (match qs_events
                                 match get queueName (queues md) with
                                 | Some s => s
                                 | None => emptySnapshot
                                 end
                         with
                         | Some evs => evs
                         | None => []
                         end)).
  { destruct (get queueName (queues md)) as [s |] eqn:E; [| constructor].
    apply get_In_entries in E. rewrite Forall_forall in H.
    specialize (H _ E). unfold taggedEntry in H. cbn [snd fst] in H.
    destruct (qs_events s); [exact H | constructor]. }
  assert (Hnew : Forall (fun e => ev_queueName e = queueName)
                        (match qs_events
                                 match get queueName (queues md) with
                                 | Some s => s
                                 | None => emptySnapshot
                                 end
                         with
                         | Some evs => evs
                         | None => []
                         end ++ [eventData queueName event job error now])).
  { apply Forall_app. split; [exact Hold |]. constructor; [reflexivity | constructor]. }
  match goal with
  | |- Forall _ (if ?c then _ else _) => destruct c
  end; [| exact Hnew].
  rewrite (slice_neg_lastn 100) by lia. apply Forall_lastn, Hnew.
Qed.

Lemma tagged_step op md :
  Forall taggedEntry (queues md) -> Forall taggedEntry (queues (step md op)).
Proof.
  intros H. destruct op; cbn [step]; try exact H;
    try (apply tagged_addMonitoringEvent; exact H).
  - destruct r as [c |]; [| exact H].
    unfold updateQueueStatus, set_queues. cbn [queues].
    apply Forall_entries_set; [exact H | exact I].
  - destruct (startAlertSystem_tick_frame now md) as [Hq _]. rewrite Hq. exact H.
Qed.

Lemma tagged_run ops : Forall taggedEntry (queues (run ops monitoringData0)).
Proof.
  unfold run.
  apply (fold_left_preserves (fun a => Forall taggedEntry (queues a))).
  - intros a b. apply tagged_step.
  - constructor.
Qed.

Lemma map_id_on {A : Type} (f : A -> A) (l : list A) :
  Forall (fun x => f x = x) l -> map f l = l.
Proof.
  induction 1 as [| x l Hx _ IH]; simpl; [reflexivity |].
  rewrite Hx, IH. reflexivity.
Qed.

(** X13.  In every store reached from the initial one each event is
    logged under the queue it names, so the merged list of the events
    route is the plain concatenation of the logs (the [queueName] it
    writes into each event is the one already there).  With a queue name
    and the default limit of 100 the route answers with the whole log of
    the queue; the total it reports never exceeds 100. *)
Theorem events_route_on_reached_stores :
  forall (ops : list Op) (queueName : string),
    let md := run ops monitoringData0 in
    Forall (fun e => ev_queueName e = queueName) (queueEvents queueName md)
    /\ allEvents md = storedEvents md
    /\ (queueName <> "" ->
        events_route (Some queueName) (Some 100%Z) md = queueEvents queueName md
        /\ (events_route_total (Some queueName) md <= 100)%nat).
Proof.
  intros ops queueName md.
  pose proof (tagged_run ops) as Htag. fold md in Htag.
  assert (Hlen : (length (queueEvents queueName md) <= 100)%nat).
  { unfold queueEvents. destruct (get queueName (queues md)) as [s |] eqn:E;
      [| simpl; lia].
    destruct (qs_events s) as [evs |] eqn:Ee; [| simpl; lia].
    destruct (logs_bounded_run ops monitoringData0 logs_bounded_initial) as [Hq _].
    fold md in Hq. rewrite Forall_forall in Hq.
    specialize (Hq s (get_In_values _ _ _ E)).
    unfold events_bounded in Hq. rewrite Ee in Hq. exact Hq. }
  split; [| split].
  - unfold queueEvents. destruct (get queueName (queues md)) as [s |] eqn:E;
      [| constructor].
    apply get_In_entries in E. rewrite Forall_forall in Htag.
    specialize (Htag _ E). unfold taggedEntry in Htag. cbn [snd fst] in Htag.
    destruct (qs_events s); [exact Htag | constructor].
  - unfold allEvents, storedEvents, entries.
    induction Htag as [| [name s] l Hx _ IH]; [reflexivity |].
    cbn [flat_map snd]. rewrite IH. f_equal.
    unfold taggedEntry in Hx. cbn [snd fst] in Hx.
    destruct (qs_events s) as [evs |]; [| reflexivity].
    apply map_id_on. apply Forall_impl with (2 := Hx).
    intros [q ev ts jid jn er] He. cbn in He. subst q. reflexivity.
  - intros Hname. split.
    + unfold events_route.
      destruct (String.eqb_spec queueName "") as [He | _]; [contradiction |].
      cbn [option_map JsArray.toInteger Z.opp].
      rewrite (slice_neg_lastn 100) by lia. apply lastn_short, Hlen.
    + unfold events_route_total.
      destruct (String.eqb_spec queueName "") as [He | _]; [contradiction |].
      exact Hlen.
Qed.

(** ** Logs under a clock that does not run backwards *)

Lemma StronglySorted_skipn {A : Type} (R : A -> A -> Prop) (k : nat) (l : list A) :
  StronglySorted R l -> StronglySorted R (skipn k l).
Proof.
  revert l. induction k as [| k IH]; intros l Hl; [exact Hl |].
  destruct l as [| x l]; [constructor |].
  simpl. apply IH. inversion Hl; assumption.
Qed.

Lemma StronglySorted_firstn {A : Type} (R : A -> A -> Prop) (n : nat) (l : list A) :
  StronglySorted R l -> StronglySorted R (firstn n l).
Proof.
  revert n. induction l as [| x r IH]; intros [| n] Hl; simpl; try constructor.
  - inversion Hl; subst. apply IH. assumption.
  - inversion Hl; subst. apply Forall_firstn. assumption.
Qed.

Lemma StronglySorted_snoc {A : Type} (R : A -> A -> Prop) (l : list A) (x : A) :
  StronglySorted R l -> Forall (fun y => R y x) l -> StronglySorted R (l ++ [x]).
Proof.
  induction 1 as [| y l Hl IH Hy]; intros Hx; simpl.
  - constructor; constructor.
  - inversion Hx as [| ? ? Hyx Hlx]; subst.
    constructor; [apply IH, Hlx |].
    apply Forall_app. split; [exact Hy | constructor; [exact Hyx | constructor]].
Qed.

Lemma oldestFirst_slice (start : Z) (end_ : option Z) (l : list QueueEvent) :
  oldestFirst l -> oldestFirst (JsArray.slice start end_ l).
Proof.
  intros H. unfold JsArray.slice, oldestFirst.
  apply StronglySorted_firstn, StronglySorted_skipn, H.
Qed.

Lemma logUpTo_later t t' s : (t <= t')%Z -> logUpTo t s -> logUpTo t' s.
Proof.
  unfold logUpTo. intros Ht. destruct (qs_events s); [| trivial].
  intros [Hs Hb]. split; [exact Hs |].
  apply Forall_impl with (2 := Hb). intros e He. lia.
Qed.

Lemma logUpTo_addMonitoringEvent queueName event job error t now md :
  (t <= now)%Z ->
  Forall (logUpTo t) (values (queues md)) ->
  Forall (logUpTo now)
         (values (queues (addMonitoringEvent queueName event job error now md))).
Proof.
  intros Ht H.
  assert (Hlater : Forall (logUpTo now) (values (queues md))).
  { apply Forall_impl with (2 := H). intros s. apply logUpTo_later, Ht. }
  unfold addMonitoringEvent, set_queues. cbn [queues].
  apply Forall_values_set; [exact Hlater |].
  unfold logUpTo, set_events. cbn [qs_events].
  set (old := match qs_events
                      match get queueName (queues md) with
                      | Some s => s
                      | None => emptySnapshot
                      end
              with
              | Some evs => evs
              | None => []
              end).
  assert (Hold : oldestFirst old /\ Forall (fun e => (ev_timestamp e <= t)%Z) old).
  { unfold old. destruct (get queueName (queues md)) as [s |] eqn:E.
    - apply get_In_values in E. rewrite Forall_forall in H.
      specialize (H s E). unfold logUpTo in H.
      destruct (qs_events s); [exact H | split; constructor].
    - split; constructor. }
  destruct Hold as [Hsorted Hbound].
  assert (Hnew : oldestFirst (old ++ [eventData queueName event job error now])
                 /\ Forall (fun e => (ev_timestamp e <= now)%Z)
                           (old ++ [eventData queueName event job error now])).
  { split.
    - apply StronglySorted_snoc; [exact Hsorted |].
      apply Forall_impl with (2 := Hbound). intros e He. cbn. lia.
    - apply Forall_app. split.
      + apply Forall_impl with (2 := Hbound). intros e He. lia.
      + constructor; [cbn; lia | constructor]. }
  destruct Hnew as [Hs Hb].
  match goal with
  | |- context [if ?c then _ else _] => destruct c
  end; [| split; assumption].
  split.
  - apply oldestFirst_slice, Hs.
  - rewrite (slice_neg_lastn 100) by lia. apply Forall_lastn, Hb.
Qed.

Lemma logUpTo_step op t md :
  Forall (logUpTo t) (values (queues md)) ->
  match opTime op with
  | Some now => (t <= now)%Z -> Forall (logUpTo now) (values (queues (step md op)))
  | None => Forall (logUpTo t) (values (queues (step md op)))
  end.
Proof.
  intros H.
  assert (Hlater : forall now, (t <= now)%Z ->
                               Forall (logUpTo now) (values (queues md))).
  { intros now Ht. apply Forall_impl with (2 := H).
    intros s. apply logUpTo_later, Ht. }
  destruct op; cbn [opTime step]; try exact H; intros Ht;
    try (apply (logUpTo_addMonitoringEvent _ _ _ _ t); assumption);
    try (apply Hlater; exact Ht).
  - destruct r as [c |]; [| apply Hlater; exact Ht].
    unfold updateQueueStatus, set_queues. cbn [queues].
    apply Forall_values_set; [apply Hlater; exact Ht | exact I].
  - destruct (startAlertSystem_tick_frame now md) as [Hq _]. rewrite Hq.
    apply Hlater; exact Ht.
Qed.

Lemma logUpTo_run ops :
  forall t md,
    clockMonotone t ops = true ->
    Forall (logUpTo t) (values (queues md)) ->
    Forall (logUpTo (lastTime t ops)) (values (queues (run ops md))).
Proof.
  induction ops as [| op ops IH]; intros t md Hclock H; [exact H |].
  cbn [clockMonotone] in Hclock. cbn [run lastTime fold_left].
  pose proof (logUpTo_step op t md H) as Hstep.
  destruct (opTime op) as [now |].
  - apply andb_true_iff in Hclock. destruct Hclock as [Ht Hrest].
    apply Z.leb_le in Ht. apply (IH now _ Hrest (Hstep Ht)).
  - apply (IH t _ Hclock Hstep).
Qed.

(** X14.  When the clock never runs backwards along the operations, every
    event log is in time order, oldest first, and so is whatever the
    events route answers for a queue name, for every limit; read
    backwards, that answer is newest first. *)
Theorem event_logs_are_oldest_first :
  forall (ops : list Op) (t0 : Z) (queueName : string) (limit : option Z),
    clockMonotone t0 ops = true ->
    queueName <> "" ->
    let md := run ops monitoringData0 in
    oldestFirst (queueEvents queueName md)
    /\ oldestFirst (events_route (Some queueName) limit md)
    /\ newestFirst (rev (events_route (Some queueName) limit md)).
Proof.
  intros ops t0 queueName limit Hclock Hname md.
  assert (Hlog : oldestFirst (queueEvents queueName md)).
  { pose proof (logUpTo_run ops t0 monitoringData0 Hclock (Forall_nil _)) as H.
    fold md in H. unfold queueEvents.
    destruct (get queueName (queues md)) as [s |] eqn:E; [| constructor].
    apply get_In_values in E. rewrite Forall_forall in H.
    specialize (H s E). unfold logUpTo in H.
    destruct (qs_events s); [apply H | constructor]. }
  assert (Hroute : oldestFirst (events_route (Some queueName) limit md)).
  { unfold events_route.
    destruct (String.eqb_spec queueName "") as [He | _]; [contradiction |].
    apply oldestFirst_slice, Hlog. }
  split; [exact Hlog |]. split; [exact Hroute |].
  unfold newestFirst, oldestFirst in *.
  induction Hroute as [| e l Hl IH He]; [constructor |].
  cbn [rev]. apply StronglySorted_snoc; [exact IH |].
  apply Forall_rev. apply Forall_impl with (2 := He).
  intros x Hx. exact Hx.
Qed.

Lemma event_logs_are_oldest_first_witness :
  let job := mkJob (Some "1") (Some "send") Undef (ofZ 900) in
  let ops := [ OnWaiting "email-queue" job 1000;
               OnActive "email-queue" job 1000;
               ClearAlerts;
               OnStalled "email-queue" job 2500 ] in
  clockMonotone 0 ops = true
  /\ "email-queue" <> ""
  /\ oldestFirst (events_route (Some "email-queue") (Some 2%Z)
                               (run ops monitoringData0)).
Proof.
  intros job ops.
  assert (H1 : clockMonotone 0 ops = true) by reflexivity.
  assert (H2 : "email-queue" <> "") by discriminate.
  split; [exact H1 |]. split; [exact H2 |].
  exact (proj1 (proj2 (event_logs_are_oldest_first ops 0 "email-queue"
                         (Some 2%Z) H1 H2))).
Defined.

(** ** The comparison route *)

Lemma Zc_mul (a b : Z) : Zc (a * b) = (Zc a * Zc b)%Qc.
Proof.
  unfold Zc. apply Qc_is_canon. unfold Qcmult. cbn [this Q2Qc].
  rewrite !Qred_correct, inject_Z_mult. reflexivity.
Qed.

Lemma Zc_le (a b : Z) : (a <= b)%Z -> (Zc a <= Zc b)%Qc.
Proof.
  intros H. unfold Qcle. apply Qle_bool_iff.
  pose proof (Qcltb_Zc b a) as Hb. unfold Qcltb in Hb.
  destruct (Qle_bool (Zc a) (Zc b)); [reflexivity |].
  cbn in Hb. symmetry in Hb. apply Z.ltb_lt in Hb. lia.
Qed.

Lemma Zc_pos (a : Z) : (0 < a)%Z -> (0 < Zc a)%Qc.
Proof.
  intros H. unfold Qclt. apply Qnot_le_lt. intros Hle.
  apply Qle_bool_iff in Hle.
  pose proof (Qcltb_Zc 0 a) as Hb. unfold Qcltb in Hb.
  change (this 0%Qc) with (this (Zc 0)) in Hle.
  rewrite Hle in Hb. cbn in Hb. symmetry in Hb. apply Z.ltb_ge in Hb. lia.
Qed.

Lemma nearest_100 : nearest (Zc 100) = Zc 100.
Proof. apply Qc_is_canon. vm_compute. reflexivity. Qed.

Lemma finite_100 : Qle_bool (pow2 1024) (nearest (Zc 100)) = false.
Proof. vm_compute. reflexivity. Qed.

(** The failure rate of the comparison on integer counts: the double
    nearest to 100 times the double nearest to the ratio. *)
Lemma failureRate_counts (c f : nat) :
  exists r : Qc,
    (if gt (add (ofNat c) (ofNat f)) (ofZ 0)
     then JsMath.mul (div (ofNat f) (add (ofNat c) (ofNat f))) (ofZ 100)
     else ofZ 0) = Num r
    /\ r = (if (0 <? c + f)%nat
            then nearest (nearest (Zc (Z.of_nat f) / Zc (Z.of_nat (c + f))) * Zc 100)
            else 0)%Qc
    /\ (0 <= r)%Qc /\ (r <= Zc 100)%Qc
    /\ (f = 0%nat -> r = 0%Qc)
    /\ (c = 0%nat -> (0 < f)%nat -> r = Zc 100).
Proof.
  unfold ofNat. rewrite add_ofZ, gt_ofZ.
  replace (Z.of_nat c + Z.of_nat f)%Z with (Z.of_nat (c + f)) by lia.
  destruct (Z.ltb_spec 0 (Z.of_nat (c + f))) as [Hpos | Hzero].
  - replace (0 <? c + f)%nat with true by (symmetry; apply Nat.ltb_lt; lia).
    set (t := Z.of_nat (c + f)) in *.
    assert (Ht : Zc t <> 0%Qc).
    { intros H. apply Qceqb_true in H. change 0%Qc with (Zc 0) in H.
      rewrite Qceqb_Zc in H. apply Z.eqb_eq in H. lia. }
    set (x := nearest (Zc (Z.of_nat f) / Zc t)%Qc).
    assert (Hx0 : (0 <= x)%Qc).
    { rewrite <- nearest_0. apply nearest_le.
      change 0%Qc with (Zc 0 / Zc 1)%Qc. apply Zc_div_le; lia. }
    assert (Hx1 : (x <= 1)%Qc).
    { rewrite <- nearest_1. apply nearest_le.
      change 1%Qc with (Zc 1 / Zc 1)%Qc. apply Zc_div_le; unfold t; lia. }
    assert (H100 : (0 <= Zc 100)%Qc) by (apply (Zc_le 0 100); lia).
    assert (Hq0 : (0 <= x * Zc 100)%Qc).
    { replace 0%Qc with (0 * Zc 100)%Qc by ring.
      apply Qcmult_le_compat_r; assumption. }
    assert (Hq1 : (x * Zc 100 <= Zc 100)%Qc).
    { replace (Zc 100) with (1 * Zc 100)%Qc at 2 by ring.
      apply Qcmult_le_compat_r; assumption. }
    exists (nearest (x * Zc 100)%Qc).
    split; [| split; [reflexivity |]].
    + rewrite div_counts by (unfold t; lia). fold x.
      unfold JsMath.mul, ofZ. cbn [toNumber].
      apply roundDouble_Num with (b := Zc 100); [exact Hq0 | exact Hq1 |].
      exact finite_100.
    + split; [rewrite <- nearest_0; apply nearest_le, Hq0 |].
      split; [rewrite <- nearest_100 at 2; apply nearest_le, Hq1 |].
      split.
      * intros Hf. unfold x. rewrite Hf. change (Zc (Z.of_nat 0)) with 0%Qc.
        replace (0 / Zc t)%Qc with 0%Qc by (unfold Qcdiv; ring).
        rewrite nearest_0. replace (0 * Zc 100)%Qc with 0%Qc by ring.
        apply nearest_0.
      * intros Hc Hf. unfold x, t. rewrite Hc. cbn [Nat.add].
        replace (Zc (Z.of_nat f) / Zc (Z.of_nat f))%Qc with 1%Qc.
        -- rewrite nearest_1. replace (1 * Zc 100)%Qc with (Zc 100) by ring.
           apply nearest_100.
        -- symmetry. apply Qcmult_inv_r.
           intros H. apply Qceqb_true in H. change 0%Qc with (Zc 0) in H.
           rewrite Qceqb_Zc in H. apply Z.eqb_eq in H. lia.
  - replace (0 <? c + f)%nat with false by (symmetry; apply Nat.ltb_ge; lia).
    exists 0%Qc. split; [reflexivity |]. split; [reflexivity |].
    split; [apply Qcle_refl |]. split; [apply (Zc_le 0 100); lia |].
    split; [reflexivity |]. intros; lia.
Qed.

(** X15.  The comparison route maps the snapshots of the store, in
    order.  For a snapshot written by a refresh (with or without events
    logged since) it reports the sum of the five counts as total, the
    status "warning" above 10 failed jobs, "degraded" from 1 to 10 and
    "healthy" at 0, and as failure rate the double the code computes: the
    ratio [failed / (completed + failed)] rounded, times 100, rounded
    again, or 0 when that sum is 0.  The rate lies between 0 and 100, is
    0 when no job failed and 100 when every job did.  For a snapshot that
    only holds an event log the status is "healthy", the failure rate 0
    and the total [NaN].  A queue without an entry in the performance
    table gets zeroed metrics. *)
Theorem comparison_of_a_snapshot :
  forall (md : MonitoringData) (name : string) (c : BackendCounts) (t now : Z)
         (evs : list QueueEvent),
    comparison_route now md = map (compare_entry md) (entries (queues md))
    /\ (forall s, s = refreshed c t \/ s = set_events evs (refreshed c t) ->
       let r := compare_entry md (name, s) in
       cp_total r = ofZ (Z.of_nat (bc_waiting c) + Z.of_nat (bc_active c)
                         + Z.of_nat (bc_completed c) + Z.of_nat (bc_failed c)
                         + Z.of_nat (bc_delayed c))
       /\ cp_status r = (if (10 <? bc_failed c)%nat then "warning"
                         else if (0 <? bc_failed c)%nat then "degraded"
                         else "healthy")
       /\ exists rate : Qc,
            cp_failureRate r = Num rate
            /\ rate = (if (0 <? bc_completed c + bc_failed c)%nat
                       then nearest
                              (nearest (Zc (Z.of_nat (bc_failed c))
                                        / Zc (Z.of_nat (bc_completed c + bc_failed c)))
                               * Zc 100)
                       else 0)%Qc
            /\ (0 <= rate)%Qc /\ (rate <= Zc 100)%Qc
            /\ (bc_failed c = 0%nat -> rate = 0%Qc)
            /\ (bc_completed c = 0%nat -> (0 < bc_failed c)%nat -> rate = Zc 100))
    /\ (let r := compare_entry md (name, eventsOnly evs) in
        cp_status r = "healthy" /\ cp_failureRate r = ofZ 0 /\ cp_total r = NaN)
    /\ (forall s, getPerformanceMetrics name md = None ->
                  cp_performance (compare_entry md (name, s)) = noPerformance).
Proof.
  intros md name c t now evs. split; [reflexivity |]. split; [| split].
  - intros s Hs r.
    assert (Hfields : qs_waiting s = ofNat (bc_waiting c)
                      /\ qs_active s = ofNat (bc_active c)
                      /\ qs_completed s = ofNat (bc_completed c)
                      /\ qs_failed s = ofNat (bc_failed c)
                      /\ qs_delayed s = ofNat (bc_delayed c)).
    { destruct Hs as [-> | ->]; repeat split. }
    destruct Hfields as (Hw & Ha & Hc & Hf & Hd).
    unfold r, compare_entry.
    cbn [cp_total cp_status cp_failureRate]. rewrite Hw, Ha, Hc, Hf, Hd.
    split; [| split].
    + unfold ofNat. rewrite !add_ofZ. reflexivity.
    + unfold ofNat. rewrite !gt_ofZ.
      destruct (Z.ltb_spec 10 (Z.of_nat (bc_failed c)));
        destruct (Nat.ltb_spec 10 (bc_failed c)); try lia; [reflexivity |].
      destruct (Z.ltb_spec 0 (Z.of_nat (bc_failed c)));
        destruct (Nat.ltb_spec 0 (bc_failed c)); try lia; reflexivity.
    + apply failureRate_counts.
  - cbn. repeat split.
  - intros s Hnone. unfold compare_entry, getPerformanceMetrics in *.
    cbn [cp_performance]. rewrite Hnone. reflexivity.
Qed.

(** With 7 failed jobs of 100 the rate is the double
    7.000000000000001. *)
Lemma comparison_of_a_snapshot_witness :
  let c := mkCounts 0 0 93 7 0 false in
  let r := compare_entry monitoringData0 ("email-queue", refreshed c 1000) in
  cp_status r = "degraded"
  /\ cp_failureRate r = Num (Zc 7881299347898369 / Zc 1125899906842624)%Qc.
Proof.
  intros c r.
  destruct (proj1 (proj2 (comparison_of_a_snapshot monitoringData0 "email-queue"
                            c 1000 0 []))
              (refreshed c 1000) (or_introl eq_refl))
    as (_ & Hstatus & rate & Hrate & Hval & _).
  split; [exact Hstatus |].
  fold r in Hrate. rewrite Hrate, Hval. apply f_equal.
  apply Qc_is_canon. vm_compute. reflexivity.
Defined.

(** ** The statistics route *)

Lemma severity_partition (l : list Alert) :
  Forall severityFits l ->
  (length (filter (fun a => String.eqb (al_severity a) "critical") l)
   + length (filter (fun a => String.eqb (al_severity a) "error") l)
   + length (filter (fun a => String.eqb (al_severity a) "warning") l)
   = length l)%nat.
Proof.
  induction 1 as [| a l Ha _ IH]; [reflexivity |].
  cbn [filter length].
  destruct (severityFits_cases a Ha) as (_ & _ & [Hs | [Hs | Hs]]);
    rewrite Hs; cbn; lia.
Qed.

(** X16.  In every store reached from the initial one the three alert
    counts of the statistics route (critical, error, warning) add up to
    its total, which is at most 50.  The route agrees with the health
    summary on the status, the number of queues, the number of critical
    alerts and the waiting, active and failed totals. *)
Theorem stats_route_is_consistent :
  forall (ops : list Op) (now : Z),
    let md := run ops monitoringData0 in
    let st := stats_route now md in
    let health := getSystemHealth now md in
    (sa_critical (st_alerts st) + sa_error (st_alerts st)
     + sa_warning (st_alerts st) = sa_total (st_alerts st))%nat
    /\ (sa_total (st_alerts st) <= 50)%nat
    /\ st_criticalAlerts st = sa_critical (st_alerts st)
    /\ st_status st = sh_status health
    /\ st_totalQueues st = sh_queues health
    /\ st_jobs_waiting st = sh_totalWaiting health
    /\ st_jobs_active st = sh_totalActive health
    /\ st_jobs_failed st = sh_totalFailed health.
Proof.
  intros ops now md st health.
  split; [| split; [| repeat split]].
  - apply severity_partition, severityFits_run.
  - apply (logs_bounded_run ops monitoringData0 logs_bounded_initial).
Qed.

(** ** The routes that show the newest alerts and the registry *)

Import Registry.

Lemma lastn_lastn {A : Type} (n m : nat) (l : list A) :
  (n <= m)%nat -> lastn n (lastn m l) = lastn n l.
Proof.
  intros H. unfold lastn. rewrite length_skipn, skipn_skipn. f_equal. lia.
Qed.

Lemma getRecurringJobs_list q :
  getRecurringJobs q
  = match failing q with
    | Some e => Thrown e
    | None => Returned (repeatables q)
    end.
Proof.
  unfold getRecurringJobs, getRepeatableJobs. destruct (failing q); [reflexivity |].
  f_equal. rewrite <- (map_id (repeatables q)) at 2. apply map_ext.
  intros [n k p x i]. reflexivity.
Qed.

(** X17.  The dashboard and the recurring-jobs route answer with status
    500 and the message of the backend's error exactly when the backend
    call for the repeatable jobs rejects.  Otherwise the dashboard carries
    the health summary, the whole store, the last ten alerts and the
    number of repeatable jobs, and the recurring-jobs route the jobs as
    the backend lists them.  The five alerts of the realtime route are
    the last five of the dashboard's ten. *)
Theorem dashboard_and_recurring_routes :
  forall (now : Z) (md : MonitoringData) (q : Scheduler.RecurringQueue),
    match Scheduler.failing q with
    | Some e =>
        dashboard_route now md q = Refused 500 (message e)
        /\ recurring_route q = Refused 500 (message e)
    | None =>
        dashboard_route now md q
        = Sent (getSystemHealth now md, queues md, performance md,
                lastn 10 (alerts md), length (Scheduler.repeatables q))
        /\ recurring_route q
           = Sent (Scheduler.repeatables q, length (Scheduler.repeatables q))
        /\ snd (realtime_route now md) = lastn 5 (lastn 10 (alerts md))
    end.
Proof.
  intros now md q. unfold dashboard_route, recurring_route.
  rewrite getRecurringJobs_list.
  destruct (Scheduler.failing q) as [e |]; [split; reflexivity |].
  cbn [getMonitoringData fst].
  rewrite (slice_neg_lastn 10) by lia.
  split; [reflexivity |]. split; [reflexivity |].
  unfold realtime_route. cbn [snd getMonitoringData fst].
  rewrite (slice_neg_lastn 5) by lia. symmetry. apply lastn_lastn. lia.
Qed.

(** ** The registry of recurring jobs *)

Import Scheduler.

(** X18.  [removeRecurringJob] makes the list call and, only when a
    listed job has the name, one removal call, for the key of the first
    such job.  It rejects in two ways: with the error of the list call,
    the backend untouched, or with the error of the removal.  It returns
    false, the backend untouched, when no listed job has the name, and
    true when the removal resolves.  On a backend that answers both calls
    it returns true exactly when [getRecurringJobs] lists a job of that
    name. *)
Theorem remove_agrees_with_list :
  (forall (name : string) (q : RecurringQueue),
      removeRecurringJob name q
      = removeRecurringJobOn getRepeatableJobs removeRepeatableByKey name q)
  /\ (forall (S : Type) (getJobs : S -> Outcome (list RepeatableJob))
             (removeByKey : string -> S -> Outcome unit * S) (name : string)
             (s : S),
         let result := removeRecurringJobOn getJobs removeByKey name s in
         match getJobs s with
         | Thrown e => result = (Thrown e, s)
         | Returned jobs =>
             match find (fun job => String.eqb (rj_name job) name) jobs with
             | None =>
                 existsb (fun j => String.eqb (rj_name j) name) jobs = false
                 /\ result = (Returned false, s)
             | Some job =>
                 existsb (fun j => String.eqb (rj_name j) name) jobs = true
                 /\ snd result = snd (removeByKey (rj_key job) s)
                 /\ fst result
                    = match fst (removeByKey (rj_key job) s) with
                      | Thrown e => Thrown e
                      | Returned _ => Returned true
                      end
             end
         end)
  /\ (forall (name : string) (q : RecurringQueue),
         failing q = None ->
         getRecurringJobs q = Returned (repeatables q)
         /\ fst (removeRecurringJob name q)
            = Returned (existsb (fun j => String.eqb (rj_name j) name)
                                (repeatables q))).
Proof.
  assert (Hex : forall name (jobs : list RepeatableJob),
             existsb (fun j => String.eqb (rj_name j) name) jobs
             = match find (fun job => String.eqb (rj_name job) name) jobs with
               | Some _ => true
               | None => false
               end).
  { intros name jobs. induction jobs as [| j jobs IH]; [reflexivity |].
    cbn [find existsb]. destruct (String.eqb (rj_name j) name); [reflexivity |].
    exact IH. }
  split; [reflexivity |]. split.
  - intros S getJobs removeByKey name s result. unfold result, removeRecurringJobOn.
    destruct (getJobs s) as [jobs | e]; [| reflexivity].
    rewrite Hex.
    destruct (find (fun job => String.eqb (rj_name job) name) jobs) as [job |];
      [| split; reflexivity].
    split; [reflexivity |].
    destruct (removeByKey (rj_key job) s) as [[u | e] s']; split; reflexivity.
  - intros name q Hup. rewrite getRecurringJobs_list, Hup.
    split; [reflexivity |].
    unfold removeRecurringJob, getRepeatableJobs, removeRepeatableByKey.
    rewrite Hup, Hex.
    destruct (find (fun job => String.eqb (rj_name job) name) (repeatables q));
      reflexivity.
Qed.

Lemma removeRecurringJob_outcome name q :
  failing q = None ->
  match find (fun job => String.eqb (rj_name job) name) (repeatables q) with
  | Some job =>
      rj_name job = name
      /\ removeRecurringJob name q
         = (Returned true,
            mkQueue (filter (fun j => negb (String.eqb (rj_key j) (rj_key job)))
                            (repeatables q))
                    None)
  | None => removeRecurringJob name q = (Returned false, q)
  end.
Proof.
  intros Hup.
  destruct (find (fun job => String.eqb (rj_name job) name) (repeatables q))
    as [job |] eqn:Hfind.
  - split.
    + apply find_some in Hfind. destruct Hfind as [_ Hn].
      apply String.eqb_eq, Hn.
    + unfold removeRecurringJob, getRepeatableJobs, removeRepeatableByKey.
      rewrite Hup, Hfind. reflexivity.
  - unfold removeRecurringJob, getRepeatableJobs. rewrite Hup, Hfind. reflexivity.
Qed.

Lemma filter_unique_key (job : RepeatableJob) (l1 l2 : list RepeatableJob) :
  NoDup (map rj_key (l1 ++ job :: l2)) ->
  filter (fun j => negb (String.eqb (rj_key j) (rj_key job))) (l1 ++ job :: l2)
  = l1 ++ l2.
Proof.
  intros Hnd.
  assert (Hother : forall j, In j (l1 ++ l2) -> rj_key j <> rj_key job).
  { rewrite map_app in Hnd. cbn [map] in Hnd.
    apply NoDup_remove_2 in Hnd. intros j Hin Heq. apply Hnd.
    rewrite <- map_app, <- Heq. apply in_map, Hin. }
  assert (Hkeep : forall l, (forall j, In j l -> rj_key j <> rj_key job) ->
            filter (fun j => negb (String.eqb (rj_key j) (rj_key job))) l = l).
  { induction l as [| x l IH]; intros H; [reflexivity |].
    cbn [filter].
    destruct (String.eqb_spec (rj_key x) (rj_key job)) as [He | _].
    - exfalso. apply (H x); [left; reflexivity | exact He].
    - cbn [negb]. f_equal. apply IH. intros j Hj. apply H. right. exact Hj. }
  rewrite filter_app. cbn [filter]. rewrite String.eqb_refl. cbn [negb].
  rewrite !Hkeep; [reflexivity | |];
    intros j Hj; apply Hother, in_or_app; [right | left]; exact Hj.
Qed.

(** X19.  When the backend answers and stores every repeatable job under
    a key of its own, a successful removal takes exactly one job out of
    the list: the first one of that name.  The jobs before and after it,
    whatever their names, stay in the list in their order. *)
Theorem remove_takes_out_the_first_match :
  forall (name : string) (q : RecurringQueue),
    failing q = None ->
    NoDup (map rj_key (repeatables q)) ->
    fst (removeRecurringJob name q) = Returned true ->
    exists (job : RepeatableJob) (before after : list RepeatableJob),
      repeatables q = before ++ job :: after
      /\ rj_name job = name
      /\ Forall (fun j => rj_name j <> name) before
      /\ snd (removeRecurringJob name q) = mkQueue (before ++ after) None.
Proof.
  intros name q Hup Hnd Htrue.
  pose proof (removeRecurringJob_outcome name q Hup) as H.
  destruct (find (fun job => String.eqb (rj_name job) name) (repeatables q))
    as [job |] eqn:Hfind.
  - destruct H as (Hname & Hrm).
    assert (Hsplit : exists before after,
               repeatables q = before ++ job :: after
               /\ Forall (fun j => rj_name j <> name) before).
    { clear Hrm Hnd. revert Hfind. induction (repeatables q) as [| x l IH]; cbn [find];
        [discriminate |].
      destruct (String.eqb_spec (rj_name x) name) as [He | Hne]; intros Hf.
      - injection Hf as ->. exists [], l. split; [reflexivity | constructor].
      - destruct (IH Hf) as (b & a & -> & Hb).
        exists (x :: b), a. split; [reflexivity | constructor; assumption]. }
    destruct Hsplit as (before & after & Hlist & Hbefore).
    exists job, before, after.
    split; [exact Hlist |]. split; [exact Hname |]. split; [exact Hbefore |].
    rewrite Hrm. cbn [snd]. f_equal.
    rewrite Hlist in Hnd |- *. apply filter_unique_key, Hnd.
  - rewrite H in Htrue. discriminate.
Qed.

Lemma remove_takes_out_the_first_match_witness :
  let q := mkQueue [ mkRepeatable "daily-cleanup" "daily-cleanup:::0 2 * * *"
                                  "0 2 * * *" 7200000 None;
                     mkRepeatable "nightly" "nightly:::0 2 * * *"
                                  "0 2 * * *" 7200000 None;
                     mkRepeatable "weekly-report" "weekly-report:::0 9 * * 1"
                                  "0 9 * * 1" 9000000 None ] None in
  failing q = None
  /\ NoDup (map rj_key (repeatables q))
  /\ fst (removeRecurringJob "nightly" q) = Returned true
  /\ exists job before after,
       repeatables q = before ++ job :: after
       /\ rj_name job = "nightly"
       /\ Forall (fun j => rj_name j <> "nightly") before
       /\ snd (removeRecurringJob "nightly" q) = mkQueue (before ++ after) None.
Proof.
  intros q.
  assert (H1 : failing q = None) by reflexivity.
  assert (H2 : NoDup (map rj_key (repeatables q))).
  { cbn. repeat constructor; cbn; intuition discriminate. }
  assert (H3 : fst (removeRecurringJob "nightly" q) = Returned true) by reflexivity.
  split; [exact H1 |]. split; [exact H2 |]. split; [exact H3 |].
  exact (remove_takes_out_the_first_match "nightly" q H1 H2 H3).
Defined.

Lemma namedCount_filter_lt name (job : RepeatableJob) (jobs : list RepeatableJob) :
  In job jobs -> rj_name job = name ->
  (namedCount name
     (filter (fun j => negb (String.eqb (rj_key j) (rj_key job))) jobs)
   < namedCount name jobs)%nat.
Proof.
  unfold namedCount. intros Hin Hname.
  assert (Hle : forall l,
             (length (filter (fun j => String.eqb (rj_name j) name)
                        (filter (fun j => negb (String.eqb (rj_key j) (rj_key job))) l))
              <= length (filter (fun j => String.eqb (rj_name j) name) l))%nat).
  { induction l as [| x l IH]; [simpl; lia |].
    cbn [filter]. destruct (negb (String.eqb (rj_key x) (rj_key job)));
      cbn [filter]; destruct (String.eqb (rj_name x) name); cbn [length]; lia. }
  induction jobs as [| x l IH]; [contradiction |].
  cbn [filter]. destruct Hin as [-> | Hin].
  - rewrite String.eqb_refl. cbn [negb].
    rewrite (proj2 (String.eqb_eq _ _) Hname). cbn [length].
    specialize (Hle l). lia.
  - specialize (IH Hin).
    destruct (negb (String.eqb (rj_key x) (rj_key job)));
      cbn [filter]; destruct (String.eqb (rj_name x) name); cbn [length]; lia.
Qed.

Lemma remove_step name q :
  failing q = None ->
  failing (snd (removeRecurringJob name q)) = None
  /\ (fst (removeRecurringJob name q) = Returned true
      /\ (namedCount name (repeatables (snd (removeRecurringJob name q)))
          < namedCount name (repeatables q))%nat
      \/ fst (removeRecurringJob name q) = Returned false
         /\ snd (removeRecurringJob name q) = q
         /\ namedCount name (repeatables q) = 0%nat).
Proof.
  intros Hup. pose proof (removeRecurringJob_outcome name q Hup) as H.
  destruct (find (fun job => String.eqb (rj_name job) name) (repeatables q))
    as [job |] eqn:Hfind.
  - destruct H as [Hname Hrm]. rewrite Hrm. cbn [fst snd failing repeatables].
    split; [reflexivity |]. left. split; [reflexivity |].
    apply namedCount_filter_lt; [| exact Hname].
    apply find_some in Hfind. apply Hfind.
  - rewrite H. cbn [fst snd]. split; [exact Hup |]. right.
    split; [reflexivity |]. split; [reflexivity |].
    unfold namedCount.
    assert (Hall : forall j, In j (repeatables q) ->
                             String.eqb (rj_name j) name = false).
    { intros j Hj. apply (find_none _ _ Hfind j Hj). }
    revert Hall. generalize (repeatables q) as l.
    induction l as [| x l IH]; intros Hall; [reflexivity |].
    cbn [filter]. rewrite (Hall x (or_introl eq_refl)).
    apply IH. intros j Hj. apply Hall. right. exact Hj.
Qed.

(** X20.  When the backend answers, calling [remove] for one name again
    and again until it returns false clears the registry of that name: if
    the list holds at most [k] jobs of the name, then after [k] calls none
    is left, no call has thrown, and the next call returns false. *)
Theorem remove_until_false :
  forall (name : string) (k : nat) (q : RecurringQueue),
    failing q = None ->
    (namedCount name (repeatables q) <= k)%nat ->
    let results := fst (removeTimes k name q) in
    let q' := snd (removeTimes k name q) in
    namedCount name (repeatables q') = 0%nat
    /\ Forall (fun r => r = Returned true \/ r = Returned false) results
    /\ fst (removeRecurringJob name q') = Returned false
    /\ failing q' = None.
Proof.
  intros name k. induction k as [| k IH]; intros q Hup Hk.
  - cbn [removeTimes fst snd].
    assert (Hzero : namedCount name (repeatables q) = 0%nat) by lia.
    split; [exact Hzero |]. split; [constructor |]. split; [| exact Hup].
    destruct (remove_step name q Hup) as [_ [[_ Hlt] | [Hfalse _]]];
      [lia | exact Hfalse].
  - cbn [removeTimes].
    destruct (remove_step name q Hup) as [Hup' Hcases].
    destruct (removeRecurringJob name q) as [r q1] eqn:Hrm.
    cbn [fst snd] in Hup', Hcases.
    assert (Hk1 : (namedCount name (repeatables q1) <= k)%nat).
    { destruct Hcases as [[_ Hlt] | [_ [-> Hz]]]; lia. }
    specialize (IH q1 Hup' Hk1).
    destruct (removeTimes k name q1) as [rs q2]. cbn [fst snd] in IH |- *.
    destruct IH as (Hnone & Hrs & Hnext & Hup2).
    split; [exact Hnone |]. split; [| split; assumption].
    constructor; [| exact Hrs].
    destruct Hcases as [[-> _] | [-> _]]; [left | right]; reflexivity.
Qed.

Lemma remove_until_false_witness :
  let q := mkQueue [ mkRepeatable "nightly" "nightly:::0 2 * * *"
                                  "0 2 * * *" 7200000 None;
                     mkRepeatable "backup" "backup:::0 3 1 * *"
                                  "0 3 1 * *" 8000000 None;
                     mkRepeatable "nightly" "nightly:::0 3 * * *"
                                  "0 3 * * *" 10800000 None ] None in
  failing q = None
  /\ (namedCount "nightly" (repeatables q) <= 2)%nat
  /\ fst (removeTimes 2 "nightly" q) = [Returned true; Returned true]
  /\ fst (removeRecurringJob "nightly" (snd (removeTimes 2 "nightly" q)))
     = Returned false.
Proof.
  intros q.
  assert (H1 : failing q = None) by reflexivity.
  assert (H2 : (namedCount "nightly" (repeatables q) <= 2)%nat) by (cbn; lia).
  split; [exact H1 |]. split; [exact H2 |]. split; [reflexivity |].
  exact (proj1 (proj2 (proj2 (remove_until_false "nightly" 2 q H1 H2)))).
Defined.

(** ** Clearing the log *)

(** X21.  After [DELETE /alerts] the alerts route answers with no alert
    and a total of 0 for every severity and limit, the health status is
    never "critical", the snapshots and the performance table are what
    they were, and clearing again changes nothing; the events that had
    raised the alerts are still in the event logs. *)
Theorem delete_alerts_clears_only_the_log :
  forall (md : MonitoringData) (severity : option string) (limit : option Z)
         (now : Z),
    let md' := delete_alerts_route md in
    alerts_route severity limit md' = ([], 0%nat)
    /\ criticalCount md' = 0%nat
    /\ sh_status (getSystemHealth now md') <> "critical"
    /\ queues md' = queues md
    /\ performance md' = performance md
    /\ storedEvents md' = storedEvents md
    /\ delete_alerts_route md' = md'.
Proof.
  intros md severity limit now md'.
  assert (Hnone : getAlerts severity md' = []).
  { unfold getAlerts. destruct severity as [s |]; [| reflexivity].
    destruct (String.eqb s ""); reflexivity. }
  split.
  - unfold alerts_route. rewrite Hnone. unfold JsArray.slice.
    rewrite skipn_nil, firstn_nil. reflexivity.
  - split; [reflexivity |]. split; [| repeat split].
    unfold getSystemHealth. cbn [sh_status md' delete_alerts_route clearAlerts
                                 set_alerts alerts filter length Nat.ltb Nat.leb].
    destruct (gt _ _); discriminate.
Qed.

(** ** Refreshing all queues *)

Lemma refresh_list_get (backend : string -> option BackendCounts)
    (clock : string -> Z) (names : list string) (q : string) :
  forall md,
    get q (queues (fold_left
                     (fun md queueName =>
                        updateQueueStatus queueName (backend queueName)
                                          (clock queueName) md)
                     names md))
    = if existsb (String.eqb q) names then
        match backend q with
        | Some c => Some (refreshed c (clock q))
        | None => get q (queues md)
        end
      else get q (queues md).
Proof.
  induction names as [| n names IH]; intros md; [reflexivity |].
  cbn [fold_left existsb]. rewrite IH.
  destruct (String.eqb_spec q n) as [-> | Hne]; cbn [orb].
  - destruct (backend n) as [c |] eqn:Hb.
    + destruct (existsb (String.eqb n) names); [reflexivity |].
      apply updateQueueStatus_get_same.
    + destruct (existsb (String.eqb n) names); reflexivity.
  - rewrite updateQueueStatus_get_other by congruence. reflexivity.
Qed.

Lemma refresh_list_frame (backend : string -> option BackendCounts)
    (clock : string -> Z) (names : list string) :
  forall md,
    let md' := fold_left
                 (fun md queueName =>
                    updateQueueStatus queueName (backend queueName)
                                      (clock queueName) md)
                 names md in
    performance md' = performance md /\ alerts md' = alerts md.
Proof.
  induction names as [| n names IH]; intros md; [split; reflexivity |].
  cbn [fold_left]. cbv zeta.
  destruct (IH (updateQueueStatus n (backend n) (clock n) md)) as [Hp Ha].
  rewrite Hp, Ha. destruct (backend n); split; reflexivity.
Qed.

(** X22.  The start-up pass over the seven monitored queues refreshes
    each queue on its own: a queue whose backend query succeeds gets the snapshot of its
    counts (and loses its event log), a queue whose query fails keeps the
    snapshot it had, or none, and this does not stop the queues after it
    from being refreshed.  Queues outside the list, the performance table
    and the alert log are not touched. *)
Theorem refreshAll_isolates_failures :
  forall (backend : string -> option BackendCounts) (clock : string -> Z)
         (md : MonitoringData) (queueName : string),
    let md' := refreshAll backend clock md in
    getQueueStatus queueName md'
    = (if existsb (String.eqb queueName) queueNames then
         match backend queueName with
         | Some c => Some (refreshed c (clock queueName))
         | None => getQueueStatus queueName md
         end
       else getQueueStatus queueName md)
    /\ performance md' = performance md
    /\ alerts md' = alerts md.
Proof.
  intros backend clock md queueName md'. split.
  - apply refresh_list_get.
  - apply refresh_list_frame.
Qed.
